(** * Loki range-query client and log-retrieval consumer

    A shallow embedding of [loki_utils/loki_client.py] and of the tools
    [retrieve_logs_for_run] and [retrieve_workflow_definition] of
    [agent.py], followed by the properties of the range calculator, the
    credential provider, the range-query client, the stream flattener, the
    consumer-side normalisation and the workflow-definition tool.

    Conventions.
    - Python [str] values are Rocq strings, read as their UTF-8 bytes.
    - Python exceptions are values of [pyexc]; a computation that may raise
      returns a [result].  The message of an exception raised by this
      program is its exact text; for an exception raised by the library
      the message is the library's text, an argument quoted in it being
      given as it is (for a [KeyError], the key).
    - Everything the program obtains from outside the repository (the
      clock, the HTTP transport, [json.loads], number formatting, and of
      the data-frame library the types it infers for a column of objects
      and the sort of a column that holds no timestamps) is a field of
      the class [Library]; what is assumed of those fields is stated
      where used.  The sort of a column of timestamps is modelled: it is
      numpy's indirect quicksort, reached through [DataFrame.sort_values]
      and [nargsort]. *)

From Stdlib Require Import ZArith QArith Qpower Qround Qabs Lqa Lia SpecFloat.
From Stdlib Require Import Sorting.Sorted Sorting.Permutation.
From Stdlib Require Import Ascii String.
From stdpp Require Import base option list strings gmap pretty sorting.

Local Open Scope string_scope.
Local Open Scope list_scope.
Local Open Scope Z_scope.

(** ** Exceptions and results *)

Module Py.

Inductive exc_class :=
  | ValueError | TypeError | KeyError | OverflowError | RuntimeError
  | ZeroDivisionError | JSONDecodeError | OutOfBoundsDatetime
  | TimeoutError | UnicodeDecodeError.

(** The exception a [raise ... from exc] chains as [__cause__]. *)
Inductive urllib_error :=
  | HTTPError (code : N) (body : string)
  | URLError (reason : string).

Record pyexc := Exc {
  exc_type : exc_class;
  exc_msg : string;
  exc_cause : option urllib_error
}.

Inductive result (A : Type) :=
  | Ok (a : A)
  | Raise (e : pyexc).
Arguments Ok {A} a.
Arguments Raise {A} e.

Definition raise {A} (c : exc_class) (msg : string) : result A :=
  Raise (Exc c msg None).

Definition bind {A B} (r : result A) (k : A -> result B) : result B :=
  match r with
  | Ok a => k a
  | Raise e => Raise e
  end.

Definition is_ok {A} (r : result A) : bool :=
  match r with Ok _ => true | Raise _ => false end.

End Py.
Export Py.

#[global] Instance result_ret : MRet result := @Ok.
#[global] Instance result_bind : MBind result := fun A B k r => Py.bind r k.

(** ** Binary64 arithmetic

    A Python [float] is an IEEE-754 binary64 number.  A finite float is
    represented by the rational it denotes (the sign of zero is not kept:
    nothing below observes it).  [round64] is round-to-nearest, ties to
    even, onto the binary64 grid: 53 significant bits, smallest spacing
    [2^-1074], overflow to infinity at [2^1024]. *)

Module Float64.

Inductive pyfloat :=
  | FNan
  | FInf (neg : bool)
  | FFin (q : Q).

Definition pow2 (k : Z) : Q := (2 # 1) ^ k.

(** [floor (log2 |q|)] for [q] not zero. *)
Definition ilog2 (q : Q) : Z :=
  let k := Z.log2 (Z.abs (Qnum q)) - Z.log2 (Zpos (Qden q)) in
  if Qle_bool (pow2 k) (Qabs q) then k else k - 1.

(** Exponent of the grid spacing around [q]. *)
Definition cexp (q : Q) : Z := Z.max (ilog2 q - 52) (-1074).

(** Nearest integer, ties to even. *)
Definition rhe (q : Q) : Z :=
  let f := Qfloor q in
  match ((q - inject_Z f) ?= (1 # 2))%Q with
  | Lt => f
  | Gt => f + 1
  | Eq => if Z.even f then f else f + 1
  end.

(** The nearest point of the grid around [q]. *)
Definition round_value (q : Q) : Q :=
  (inject_Z (rhe (q / pow2 (cexp q))) * pow2 (cexp q))%Q.

Definition round64 (q : Q) : pyfloat :=
  let v := round_value q in
  if Qle_bool (pow2 1024) (Qabs v) then FInf (negb (Qle_bool 0 q))
  else FFin (Qred v).

(** Truncation toward zero (C [modf], Python [int(float)]). *)
Definition Qtrunc (q : Q) : Z :=
  if Qle_bool 0 q then Qfloor q else Qceiling q.

(** [a * b] on floats. *)
Definition fmul (a b : pyfloat) : pyfloat :=
  match a, b with
  | FNan, _ | _, FNan => FNan
  | FInf s, FInf t => FInf (xorb s t)
  | FInf s, FFin q | FFin q, FInf s =>
      if Qeq_bool q 0 then FNan else FInf (xorb s (negb (Qle_bool 0 q)))
  | FFin p, FFin q => round64 (p * q)
  end.

(** [a / b] on Python integers: the correctly rounded quotient. *)
Definition int_truediv (a b : Z) : result pyfloat :=
  if b =? 0 then raise ZeroDivisionError "division by zero"
  else match round64 (inject_Z a / inject_Z b) with
       | FFin q => Ok (FFin q)
       | _ => raise OverflowError "integer division result too large for a float"
       end.

(** [float(z)] for a Python integer that fits. *)
Definition float_of_int (z : Z) : pyfloat := round64 (inject_Z z).

(** [int(x)] on a float. *)
Definition int_of_float (x : pyfloat) : result Z :=
  match x with
  | FNan => raise ValueError "cannot convert float NaN to integer"
  | FInf _ => raise OverflowError "cannot convert float infinity to integer"
  | FFin q => Ok (Qtrunc q)
  end.

(** The float a value of the Standard Library's IEEE-754 specification
    denotes; used to compare [round64] with that specification. *)
Definition of_spec_float (x : spec_float) : pyfloat :=
  match x with
  | S754_zero _ => FFin 0
  | S754_infinity s => FInf s
  | S754_nan => FNan
  | S754_finite s m e =>
      FFin (Qred (inject_Z (if s then Z.neg m else Z.pos m) * pow2 e))
  end.

End Float64.
Export Float64.

(** A Python number passed where a [float] is expected. *)
Inductive pynum :=
  | PyInt (z : Z)
  | PyFloat (x : pyfloat).

(** [x < 0] *)
Definition num_ltb0 (x : pynum) : bool :=
  match x with
  | PyInt z => z <? 0
  | PyFloat FNan => false
  | PyFloat (FInf neg) => neg
  | PyFloat (FFin q) => negb (Qle_bool 0 q)
  end.

(** The rational a finite number denotes. *)
Definition num_value (x : pynum) : option Q :=
  match x with
  | PyInt z => Some (inject_Z z)
  | PyFloat (FFin q) => Some q
  | PyFloat _ => None
  end.

(** ** Dates, durations and timestamps

    An aware UTC [datetime] is the number of microseconds since
    1970-01-01T00:00:00Z; the type holds the instants from year 1 to year
    9999.  A [timedelta] is a number of microseconds. *)

Module DateTime.

(** Days before January 1st of year [y] (the library's [_days_before_year]). *)
Definition days_before_year (y : Z) : Z :=
  (y - 1) * 365 + (y - 1) / 4 - (y - 1) / 100 + (y - 1) / 400.

Definition epoch_ordinal : Z := days_before_year 1970 + 1.

Definition us_per_second : Z := 1000000.
Definition us_per_hour : Z := 3600000000.
Definition us_per_day : Z := 86400000000.

(** [datetime(1, 1, 1, tzinfo=utc)] and
    [datetime(9999, 12, 31, 23, 59, 59, 999999, tzinfo=utc)]. *)
Definition MIN_US : Z := (days_before_year 1 + 1 - epoch_ordinal) * us_per_day.
Definition MAX_US : Z :=
  (days_before_year 10000 + 1 - epoch_ordinal) * us_per_day - 1.

Definition datetime_valid (t : Z) : Prop := MIN_US <= t <= MAX_US.

Definition MAX_DELTA_DAYS : Z := 999999999.

(** Construction of a [timedelta] from a total of microseconds: the day
    count must fit a C [int] and have magnitude at most [MAX_DELTA_DAYS]. *)
Definition microseconds_to_delta (us : Z) : result Z :=
  let days := us / us_per_day in
  if negb ((- 2 ^ 31 <=? days) && (days <? 2 ^ 31)) then
    raise OverflowError "Python int too large to convert to C int"
  else if (- MAX_DELTA_DAYS <=? days) && (days <=? MAX_DELTA_DAYS) then Ok us
  else raise OverflowError
         ("days=" +:+ pretty days +:+ "; must have magnitude <= 999999999").

(** C's [round]: to the nearest integer, halves away from zero. *)
Definition c_round (r : Q) : Z :=
  if Qle_bool 0 r then Qfloor (r + (1 # 2)) else Qceiling (r - (1 # 2)).

(** The whole microseconds added for what is left over: the nearest
    integer, a half going to the side that makes the total [x] even. *)
Definition whole_us (x : Z) (leftover_us : Q) : Z :=
  let whole := c_round leftover_us in
  if Qeq_bool (Qabs (inject_Z whole - leftover_us)) (1 # 2) then
    let x_is_odd := if Z.odd x then 1 else 0 in
    2 * c_round ((leftover_us + inject_Z x_is_odd) * (1 # 2))%Q - x_is_odd
  else whole.

(** The total of microseconds of [timedelta(hours=h)].  An integer is
    scaled exactly.  A float is split into integer and fractional parts;
    the integer part is scaled exactly, the fractional part is scaled in
    float arithmetic and split again, and what is left over is rounded to
    a whole microsecond. *)
Definition hours_to_us (h : pynum) : result Z :=
  match h with
  | PyInt z => Ok (z * us_per_hour)
  | PyFloat FNan => raise ValueError "cannot convert float NaN to integer"
  | PyFloat (FInf _) =>
      raise OverflowError "cannot convert float infinity to integer"
  | PyFloat (FFin q) =>
      let intpart := Qtrunc q in
      let fracpart := (q - inject_Z intpart)%Q in
      let x := intpart * us_per_hour in
      if Qeq_bool fracpart 0 then Ok x
      else
        match fmul (float_of_int us_per_hour) (FFin fracpart) with
        | FFin d =>
            let intpart := Qtrunc d in
            let leftover_us := (d - inject_Z intpart)%Q in
            let x := x + intpart in
            if Qeq_bool leftover_us 0 then Ok x
            else Ok (x + whole_us x leftover_us)
        | _ => raise OverflowError "cannot convert float infinity to integer"
        end
  end.

(** [timedelta(hours=h)] *)
Definition timedelta_hours (h : pynum) : result Z :=
  us ← hours_to_us h; microseconds_to_delta us.

(** [dt - td]: the result must still be a date of the type. *)
Definition datetime_sub (dt td : Z) : result Z :=
  let r := dt - td in
  if (MIN_US <=? r) && (r <=? MAX_US) then Ok r
  else raise OverflowError "date value out of range".

(** [dt.timestamp()] for an aware datetime: [(dt - epoch).total_seconds()],
    the microsecond count divided by [10**6]. *)
Definition timestamp (dt : Z) : result pyfloat :=
  int_truediv dt us_per_second.

End DateTime.
Export DateTime.

(** ** The clock

    [datetime.now(timezone.utc)] reads the clock.  The state threaded
    through the program is the number of readings taken so far; the
    sequence of readings is given from outside. *)

Definition M (A : Type) : Type := nat -> result A * nat.

Definition mret {A} (a : A) : M A := fun n => (Ok a, n).
Definition mbindM {A B} (m : M A) (k : A -> M B) : M B :=
  fun n => match m n with
           | (Ok a, n') => k a n'
           | (Raise e, n') => (Raise e, n')
           end.
Definition lift {A} (r : result A) : M A := fun n => (r, n).

#[global] Instance M_ret : MRet M := @mret.
#[global] Instance M_bind : MBind M := fun A B k m => mbindM m k.

Section Clock.
Variable clock : nat -> Z.

Definition datetime_now : M Z := fun n => (Ok (clock n), S n).
End Clock.

(** ** [loki_client.py]: the range calculator *)

(** [int(dt.timestamp() * 1_000_000_000)] *)
Definition _to_unix_ns (dt : Z) : result Z :=
  t ← timestamp dt;
  int_of_float (fmul t (float_of_int 1000000000)).

Section CalculateRange.
Variable clock : nat -> Z.

Definition calculate_range (hours_ago : pynum) : M (Z * Z) :=
  if num_ltb0 hours_ago then
    lift (raise ValueError "hours_ago must be non-negative")
  else
    now ← datetime_now clock;
    start ← lift (td ← timedelta_hours hours_ago; datetime_sub now td);
    s ← lift (_to_unix_ns start);
    e ← lift (_to_unix_ns now);
    mret (s, e).
End CalculateRange.

(** ** JSON values as Python objects

    What [json.loads] returns: [None], [bool], [int], [float], [str],
    [list] and [dict].  A dict is the list of its items in insertion
    order; its keys are distinct, and a lookup takes the first match. *)

#[local] Set Warnings "-register-all".
Inductive json :=
  | JNull
  | JBool (b : bool)
  | JInt (z : Z)
  | JFloat (x : pyfloat)
  | JStr (s : string)
  | JArr (items : list json)
  | JObj (fields : list (string * json)).

Fixpoint assoc {A} (k : string) (kvs : list (string * A)) : option A :=
  match kvs with
  | [] => None
  | (k', v) :: rest => if String.eqb k k' then Some v else assoc k rest
  end.

(** [type(j).__name__] *)
Definition py_type_name (j : json) : string :=
  match j with
  | JNull => "NoneType"
  | JBool _ => "bool"
  | JInt _ => "int"
  | JFloat _ => "float"
  | JStr _ => "str"
  | JArr _ => "list"
  | JObj _ => "dict"
  end.

(** [isinstance(j, dict)] *)
Definition is_dict (j : json) : bool :=
  match j with JObj _ => true | _ => false end.

(** [d.get(k, default)] on a dict. *)
Definition dict_get (d : json) (k : string) (default : json) : json :=
  match d with
  | JObj fields => from_option id default (assoc k fields)
  | _ => default
  end.

Fixpoint chars (s : string) : list json :=
  match s with
  | EmptyString => []
  | String c rest => JStr (String c EmptyString) :: chars rest
  end.

(** The items a [for] loop visits: the elements of a list, the keys of a
    dict, the characters of a string; anything else is not iterable. *)
Definition py_iter (j : json) : result (list json) :=
  match j with
  | JArr items => Ok items
  | JObj fields => Ok (map (fun kv => JStr (fst kv)) fields)
  | JStr s => Ok (chars s)
  | _ => raise TypeError ("'" +:+ py_type_name j +:+ "' object is not iterable")
  end.

(** A [for] loop whose body updates an accumulator and may raise. *)
Fixpoint for_each {A S} (body : S -> A -> result S) (l : list A) (acc : S)
  : result S :=
  match l with
  | [] => Ok acc
  | a :: rest => acc' ← body acc a; for_each body rest acc'
  end.

(** ** [loki_client.py]: the stream flattener *)

(** The dictionary [{"timestamp": ..., "labels": ..., "record": ...}]
    appended for each value pair. *)
Record flat_record := FlatRecord {
  fr_timestamp : json;
  fr_labels : json;
  fr_record : json
}.

(** [isinstance(entry, (list, tuple)) and len(entry) == 2], followed by
    [timestamp, record = entry]. *)
Definition as_pair (entry : json) : option (json * json) :=
  match entry with
  | JArr [t; r] => Some (t, r)
  | _ => None
  end.

(** The four defensive reads of [_parse_streams]. *)
Definition data_block_of (data : json) : json :=
  if is_dict data then dict_get data "data" (JObj []) else JObj [].
Definition streams_of (data_block : json) : json :=
  if is_dict data_block then dict_get data_block "result" (JArr []) else JArr [].
Definition labels_of (stream : json) : json :=
  if is_dict stream then dict_get stream "stream" (JObj []) else JObj [].
Definition values_of (stream : json) : json :=
  if is_dict stream then dict_get stream "values" (JArr []) else JArr [].

Definition _parse_streams (data : json) : result (list flat_record) :=
  let result := [] in
  let data_block := data_block_of data in
  let streams := streams_of data_block in
  stream_list ← py_iter streams;
  for_each (fun result stream =>
      let labels := labels_of stream in
      let values := values_of stream in
      value_list ← py_iter values;
      for_each (fun result entry =>
          match as_pair entry with
          | None => Ok result
          | Some (timestamp, record) =>
              Ok (result ++ [FlatRecord timestamp labels record])
          end) value_list result)
    stream_list result.

(** The record a value entry yields, if it is a two-element list. *)
Definition entry_record (labels entry : json) : option flat_record :=
  match as_pair entry with
  | Some (t, r) => Some (FlatRecord t labels r)
  | None => None
  end.

(** The entries visited for a stream ([[]] when they cannot be iterated). *)
Definition items_of (stream : json) : list json :=
  match py_iter (values_of stream) with Ok l => l | Raise _ => [] end.

Definition stream_records (stream : json) : list flat_record :=
  omap (entry_record (labels_of stream)) (items_of stream).



(** A stream and a response body in the shape of the wire contract:
    [{"stream": labels, "values": [[ts, payload], ...]}] inside
    [{"data": {"result": [...]}}]. *)
Definition wire_stream (s : json * list (json * json)) : json :=
  JObj [("stream", s.1); ("values", JArr (map (fun v => JArr [v.1; v.2]) s.2))].

Definition wire_response (streams : list (json * list (json * json))) : json :=
  JObj [("status", JStr "success");
        ("data", JObj [("resultType", JStr "streams");
                       ("result", JArr (map wire_stream streams))])].

(** ** [loki_client.py]: credentials *)

Definition b64_alphabet : string :=
  "ABCDEFGHIJKLMNOPQRSTUVWXYZabcdefghijklmnopqrstuvwxyz0123456789+/".

Definition b64_char (i : N) : ascii :=
  default "="%char (String.get (N.to_nat i) b64_alphabet).

(** [base64.b64encode] on the bytes of a string. *)
Fixpoint b64encode (s : string) : string :=
  match s with
  | EmptyString => EmptyString
  | String a EmptyString =>
      let n := N_of_ascii a in
      String (b64_char (n / 4)) (String (b64_char (n mod 4 * 16)) "==")
  | String a (String b EmptyString) =>
      let n := N_of_ascii a in
      let m := N_of_ascii b in
      String (b64_char (n / 4))
        (String (b64_char (n mod 4 * 16 + m / 16))
           (String (b64_char (m mod 16 * 4)) "="))
  | String a (String b (String c rest)) =>
      let n := N_of_ascii a in
      let m := N_of_ascii b in
      let k := N_of_ascii c in
      String (b64_char (n / 4))
        (String (b64_char (n mod 4 * 16 + m / 16))
           (String (b64_char (m mod 16 * 4 + k / 64))
              (String (b64_char (k mod 64)) (b64encode rest))))
  end%N.

(** The dataclass [LokiAuth].  [basic_auth] is annotated as an optional
    pair of strings; since annotations are not enforced, a tuple of any
    length is admitted here and the unpacking in [headers] checks it. *)
Record LokiAuth := mkLokiAuth {
  basic_auth : option (list string);
  bearer_token : option string
}.

(** The generated [__init__]: it stores its arguments and checks nothing.
    Both fields default to [None]. *)
Definition LokiAuth_init (basic_auth : option (list string))
    (bearer_token : option string) : result LokiAuth :=
  Ok (mkLokiAuth basic_auth bearer_token).

(** Truth value of an optional tuple and of an optional string. *)
Definition truthy_tuple (o : option (list string)) : bool :=
  match o with Some (_ :: _) => true | _ => false end.
Definition truthy_str (o : option string) : bool :=
  match o with Some (String _ _) => true | _ => false end.

Definition headers (self : LokiAuth) : result (gmap string string) :=
  let header : gmap string string := ∅ in
  if truthy_tuple (basic_auth self) && truthy_str (bearer_token self) then
    raise ValueError "Use either basic_auth or bearer_token, not both."
  else if truthy_tuple (basic_auth self) then
    match basic_auth self with
    | Some [user; password] =>
        let token := b64encode (user +:+ ":" +:+ password) in
        Ok (<["Authorization" := "Basic " +:+ token]> header)
    | Some [_] =>
        raise ValueError "not enough values to unpack (expected 2, got 1)"
    | _ => raise ValueError "too many values to unpack (expected 2)"
    end
  else if truthy_str (bearer_token self) then
    Ok (<["Authorization" := "Bearer " +:+ default "" (bearer_token self)]> header)
  else Ok header.

(** ** [loki_client.py]: the range-query client *)

Record request := Request {
  req_url : string;
  req_headers : gmap string string
}.

(** How [urllib.request.urlopen] followed by [response.read().decode()]
    ends: with the body of a successful response, with one of the two
    urllib errors the client handles, or with any other exception.  The
    body an [HTTPError] carries is the text [exc.read().decode()] gives;
    when that text cannot be had (the error body is not UTF-8) the
    handler itself raises, and the outcome is the [UnicodeDecodeError],
    as [Raised].  A timeout while the body is read is not a [URLError]
    either: it is [Raised] with a [TimeoutError]. *)
Inductive http_outcome :=
  | Response (body : string)
  | Failed (e : urllib_error)
  | Raised (e : pyexc).

(** Cells and rows of the consumer's data frame: a cell holds the
    timestamp built by [pd.to_datetime], the missing timestamp [NaT], or a
    decoded JSON value. *)
Inductive cell :=
  | CTimestamp (ns : Z)
  | CNaT
  | CJson (j : json).

(** What the program takes from outside the repository. *)
Class Library := {
  (** the successive readings of [datetime.now(timezone.utc)] *)
  clock : nat -> Z;
  (** the HTTP transport, given the request and the timeout *)
  urlopen : request -> pynum -> http_outcome;
  (** [json.loads] *)
  json_loads : string -> result json;
  (** [str] on a value that is not a string *)
  py_repr : json -> string;
  (** [format(x, "g")] *)
  format_g : pynum -> string;
  (** what the [DataFrame] constructor makes of a column of Python
      objects that is not a column of timestamps: the cells in the type
      it infers for the column *)
  maybe_convert_objects : list cell -> list cell;
  (** [DataFrame.sort_values(by=..., ascending=...)], default sort kind,
      on a frame that has the column, the column not being one of
      timestamps *)
  frame_sort : string -> bool -> list (gmap string cell)
               -> result (list (gmap string cell))
}.

Record LokiClient := mkLokiClient {
  base_url : string;
  auth : LokiAuth;
  timeout : pynum
}.

(** [s.rstrip("/")] *)
Fixpoint rstrip_slash (s : string) : string :=
  match s with
  | EmptyString => EmptyString
  | String c rest =>
      match rstrip_slash rest with
      | EmptyString => if Ascii.eqb c "/" then EmptyString else String c EmptyString
      | r => String c r
      end
  end.

(** [LokiClient.__init__]; [auth] defaults to [None], [timeout] to [10.0]. *)
Definition LokiClient_init (base_url : string) (auth : option LokiAuth)
    (timeout : pynum) : result LokiClient :=
  if String.eqb base_url "" then raise ValueError "base_url is required"
  else Ok (mkLokiClient (rstrip_slash base_url)
             (default (mkLokiAuth None None) auth) timeout).

Inductive param := PStr (s : string) | PInt (z : Z).

Definition param_str (p : param) : string :=
  match p with PStr s => s | PInt z => pretty z end.

Definition hex_digit (n : N) : ascii :=
  default "0"%char (String.get (N.to_nat n) "0123456789ABCDEF").

(** [urllib.parse.quote_plus] on the bytes of a string. *)
Fixpoint quote_plus (s : string) : string :=
  match s with
  | EmptyString => EmptyString
  | String c rest =>
      let n := N_of_ascii c in
      let unreserved :=
        ((48 <=? n) && (n <=? 57) || (65 <=? n) && (n <=? 90)
         || (97 <=? n) && (n <=? 122)
         || (n =? 95) || (n =? 46) || (n =? 45) || (n =? 126))%N in
      if unreserved then String c (quote_plus rest)
      else if (n =? 32)%N then String "+" (quote_plus rest)
      else String "%" (String (hex_digit (n / 16))
                         (String (hex_digit (n mod 16)) (quote_plus rest)))
  end.

(** [urllib.parse.urlencode] on a dict given as its items. *)
Fixpoint urlencode (params : list (string * param)) : string :=
  match params with
  | [] => ""
  | [(k, v)] => quote_plus k +:+ "=" +:+ quote_plus (param_str v)
  | (k, v) :: rest =>
      quote_plus k +:+ "=" +:+ quote_plus (param_str v) +:+ "&" +:+ urlencode rest
  end.

(** The two messages of the [RuntimeError]s raised by [query_range]. *)
Definition http_error_message (code : N) (body : string) : string :=
  "Loki query failed with HTTP " +:+ pretty code +:+ ": " +:+ body.
Definition unreachable_message (reason : string) : string :=
  "Failed to reach Loki: " +:+ reason.

Section Client.
Context `{Library}.

(** The request [query_range] builds from the computed range and the
    credential headers. *)
Definition build_request (self : LokiClient) (query : string)
    (start_ns end_ns : Z) (step_seconds : pynum) (limit : option Z)
    (direction : string) (auth_headers : gmap string string) : request :=
  let params :=
    [("query", PStr query); ("start", PInt start_ns); ("end", PInt end_ns);
     ("step", PStr (format_g step_seconds +:+ "s"));
     ("direction", PStr direction)] in
  let params :=
    match limit with
    | Some l => params ++ [("limit", PStr (pretty l))]
    | None => params
    end in
  let endpoint := base_url self +:+ "/loki/api/v1/query_range" in
  let url := endpoint +:+ "?" +:+ urlencode params in
  Request url (auth_headers ∪ {["Accept" := "application/json"]}).

(** The [try] block around [urlopen]: an [HTTPError] and a [URLError]
    are both re-raised as [RuntimeError], chained to the original. *)
Definition fetch (req : request) (timeout : pynum) : result string :=
  match urlopen req timeout with
  | Response body => Ok body
  | Failed (HTTPError code body) =>
      Raise (Exc RuntimeError (http_error_message code body)
               (Some (HTTPError code body)))
  | Failed (URLError reason) =>
      Raise (Exc RuntimeError (unreachable_message reason)
               (Some (URLError reason)))
  | Raised e => Raise e
  end.

(** [query_range]; the defaults of the keyword arguments are
    [step_seconds=60.0], [limit=None], [direction="BACKWARD"]. *)
Definition query_range (self : LokiClient) (query : string)
    (hours_ago : pynum) (step_seconds : pynum) (limit : option Z)
    (direction : string) : M (list flat_record) :=
  range ← calculate_range clock hours_ago;
  auth_headers ← lift (headers (auth self));
  let request :=
    build_request self query range.1 range.2 step_seconds limit direction
      auth_headers in
  payload ← lift (fetch request (timeout self));
  data ← lift (json_loads payload);
  lift (_parse_streams data).
End Client.

(** ** [agent.py]: the log-retrieval tool *)

Abbreviation row := (gmap string cell).

Definition is_space (c : ascii) : bool :=
  let n := N_of_ascii c in
  ((n =? 32) || (9 <=? n) && (n <=? 13))%N.

Definition is_digit (c : ascii) : bool :=
  let n := N_of_ascii c in ((48 <=? n) && (n <=? 57))%N.

Fixpoint lstrip_space (s : string) : string :=
  match s with
  | String c rest => if is_space c then lstrip_space rest else s
  | EmptyString => EmptyString
  end.

Fixpoint rstrip_space (s : string) : string :=
  match s with
  | EmptyString => EmptyString
  | String c rest =>
      match rstrip_space rest with
      | EmptyString => if is_space c then EmptyString else String c EmptyString
      | r => String c r
      end
  end.

(** Decimal digits, single underscores allowed between digits; returns the
    value and the number of digits. *)
Fixpoint parse_digits (s : string) (acc : Z) (after_digit : bool) (count : nat)
  : option (Z * nat) :=
  match s with
  | EmptyString => if after_digit then Some (acc, count) else None
  | String c rest =>
      if is_digit c then
        parse_digits rest (10 * acc + (Z.of_N (N_of_ascii c) - 48)) true (S count)
      else if Ascii.eqb c "_" then
        if after_digit then parse_digits rest acc false count else None
      else None
  end.

(** [int(s)] on a string of ASCII characters: surrounding white space, an
    optional sign, then decimal digits; at most 4300 digits.  Python
    also reads the decimal digits and the white space of other scripts;
    a string that holds them is outside this model, which raises
    [ValueError] for it. *)
Definition int_of_string (s : string) : result Z :=
  let body := rstrip_space (lstrip_space s) in
  let '(neg, digits) :=
    match body with
    | String "-" rest => (true, rest)
    | String "+" rest => (false, rest)
    | _ => (false, body)
    end in
  match parse_digits digits 0 false 0 with
  | Some (v, count) =>
      if (4300 <? count)%nat then
        raise ValueError
          ("Exceeds the limit (4300 digits) for integer string conversion: value has "
           +:+ pretty count
           +:+ " digits; use sys.set_int_max_str_digits() to increase the limit")
      else Ok (if neg then - v else v)
  | None => raise ValueError ("invalid literal for int() with base 10: " +:+ s)
  end.

(** [int(j)] *)
Definition py_int (j : json) : result Z :=
  match j with
  | JInt z => Ok z
  | JBool b => Ok (if b then 1 else 0)
  | JFloat x => int_of_float x
  | JStr s => int_of_string s
  | _ => raise TypeError
           ("int() argument must be a string, a bytes-like object or a real number, not '"
            +:+ py_type_name j +:+ "'")
  end.

(** [j[k]] with a string key. *)
Definition getitem_str (j : json) (k : string) : result json :=
  match j with
  | JObj fields =>
      match assoc k fields with
      | Some v => Ok v
      | None => raise KeyError k
      end
  | JStr _ => raise TypeError "string indices must be integers, not 'str'"
  | JArr _ => raise TypeError "list indices must be integers or slices, not str"
  | _ => raise TypeError ("'" +:+ py_type_name j +:+ "' object is not subscriptable")
  end.

(** [pd.to_datetime(n, unit="ns")]: a timestamp is a signed 64-bit count
    of nanoseconds since the epoch, the least value standing for [NaT]. *)
Definition to_datetime_ns (n : Z) : result cell :=
  if (- 2 ^ 63 <? n) && (n <? 2 ^ 63) then Ok (CTimestamp n)
  else if n =? - 2 ^ 63 then Ok CNaT
  else raise OutOfBoundsDatetime "cannot convert input with unit 'ns'".

(** The double quote character. *)
Definition dq : string := String (ascii_of_nat 34) EmptyString.

(** ** numpy: the indirect sort behind [argsort]

    [DataFrame.sort_values] with the default [kind] sorts a column of
    timestamps by [nargsort], which calls [argsort] on the 64-bit values
    of the column: numpy's [aquicksort_] for [datetime64]
    ([npysort/quicksort.cpp], with [aheapsort_] of [npysort/heapsort.cpp]
    behind its depth limit). *)

(** [NPY_DATETIME_NAT], the 64-bit value that stands for [NaT]. *)
Definition NPY_DATETIME_NAT : Z := - 2 ^ 63.

(** [npy::datetime_tag::less]: [NaT] sorts after every value. *)
Definition datetime_less (a b : Z) : bool :=
  if a =? NPY_DATETIME_NAT then false
  else if b =? NPY_DATETIME_NAT then true
  else a <? b.

(** [npy_get_msb]: the position of the highest bit set. *)
Definition npy_get_msb (unum : nat) : Z := Z.log2 (Z.of_nat unum).

Definition SMALL_QUICKSORT : nat := 16.

Section IndirectSort.
(** The keys [v]; what is sorted is a vector of positions in [v]. *)
Variable v : list Z.

(** [less(v[x], v[y])] *)
Definition less_at (x y : nat) : bool := datetime_less (v !!! x) (v !!! y).

(** [INTP_SWAP(a[i], a[j])] *)
Definition swap (i j : nat) (a : list nat) : list nat :=
  <[j := a !!! i]> (<[i := a !!! j]> a).

(** [if (less(v[a[i]], v[a[j]])) INTP_SWAP(a[i], a[j])] *)
Definition swap_if_less (i j : nat) (a : list nat) : list nat :=
  if less_at (a !!! i) (a !!! j) then swap i j a else a.

(** The steps a pointer takes over [l] while the key it meets is less
    than the pivot's, and while the pivot's is less than the key.  In
    the code nothing but the keys stops the pointers; the median of
    three has left a key not less than the pivot's at the end of the
    segment and one not greater at its start, so that they stop inside
    it ([partition_loop_spec]). *)
Fixpoint run_less (vp : nat) (l : list nat) : nat :=
  match l with
  | x :: l => if less_at x vp then S (run_less vp l) else O
  | [] => O
  end.

Fixpoint run_greater (vp : nat) (l : list nat) : nat :=
  match l with
  | x :: l => if less_at vp x then S (run_greater vp l) else O
  | [] => O
  end.

(** The partition loop:
    [pi] runs up while the key it meets is less than the pivot's, [pj]
    runs down while the pivot's is less than the key it meets; when
    [pi >= pj] the loop ends, otherwise the two entries are swapped.
    The segment [a] starts at [pl = 0]. *)
Fixpoint partition_loop (fuel : nat) (vp : nat) (a : list nat) (pi pj : nat)
  : list nat * nat :=
  match fuel with
  | O => (a, pi)
  | S fuel =>
      let pi := (pi + 1 + run_less vp (drop (pi + 1) a))%nat in
      let pj := (pj - 1 - run_greater vp (reverse (take pj a)))%nat in
      if (pj <=? pi)%nat then (a, pi)
      else partition_loop fuel vp (swap pi pj a) pi pj
  end.

(** One round of the quicksort on the segment [a] ([pl = 0],
    [pr = length a - 1]): median of three, the pivot parked next to the
    end, the partition loop, the pivot put in its place.  Returns the
    segment and the pivot's position [pi]. *)
Definition partition (a : list nat) : list nat * nat :=
  let pr := (length a - 1)%nat in
  let pm := (pr / 2)%nat in
  let a := swap_if_less pm 0 a in
  let a := swap_if_less pr pm a in
  let a := swap_if_less pm 0 a in
  let vp := a !!! pm in
  let pj := (pr - 1)%nat in
  let a := swap pm pj a in
  let '(a, pi) := partition_loop (length a) vp a 0 pj in
  let pk := (pr - 1)%nat in
  (swap pi pk a, pi).

(** The insertion sort of a small segment.  The part already sorted is
    kept nearest element first; [vi] moves towards the front while its
    key is less than the key before it. *)
Fixpoint insert_back (vi : nat) (sorted : list nat) : list nat :=
  match sorted with
  | pk :: rest =>
      if less_at vi pk then pk :: insert_back vi rest else vi :: sorted
  | [] => [vi]
  end.

Definition insertion_sort (a : list nat) : list nat :=
  reverse (fold_left (fun sorted vi => insert_back vi sorted) a []).

(** [aheapsort_].  The vector is addressed from 1, as the code does by
    moving the pointer one place back: position 0 of the list is a
    placeholder.  [sift_down] is the inner loop
    [for (i = l, j = l << 1; j <= n;) {...}  a[i] = tmp;]. *)
Fixpoint sift_down (fuel : nat) (a : list nat) (tmp i j n : nat) : list nat :=
  match fuel with
  | O => <[i := tmp]> a
  | S fuel =>
      if (j <=? n)%nat then
        let j := if (j <? n)%nat && less_at (a !!! j) (a !!! (j + 1)%nat)
                 then (j + 1)%nat else j in
        if less_at tmp (a !!! j)
        then sift_down fuel (<[i := a !!! j]> a) tmp j (j + j) n
        else <[i := tmp]> a
      else <[i := tmp]> a
  end.

(** [for (l = n >> 1; l > 0; --l) { tmp = a[l]; ... }] *)
Fixpoint heapify (l : nat) (a : list nat) (n : nat) : list nat :=
  match l with
  | O => a
  | S l' => heapify l' (sift_down n a (a !!! l) l (l + l) n) n
  end.

(** [for (; n > 1;) { tmp = a[n]; a[n] = a[1]; n -= 1; ... }] *)
Fixpoint sort_heap (n : nat) (a : list nat) : list nat :=
  match n with
  | S (S _ as n') =>
      let tmp := a !!! n in
      let a := <[n := a !!! 1%nat]> a in
      sort_heap n' (sift_down n' a tmp 1 2 n')
  | _ => a
  end.

Definition aheapsort (tosort : list nat) : list nat :=
  let n := length tosort in
  let a := O :: tosort in
  drop 1 (sort_heap n (heapify (n / 2) a n)).

(** [aquicksort_] on the segment [a].  The code keeps the segments still
    to be sorted on a stack of its own, each with the depth left when it
    was pushed; here the segment pushed is sorted by the second call.
    [popped] tells that the segment comes from the stack, where the
    depth is tested and the heap sort takes over when it is used up. *)
Fixpoint aquicksort_loop (fuel : nat) (popped : bool) (cdepth : Z) (a : list nat)
  : list nat :=
  match fuel with
  | O => a
  | S fuel =>
      if popped && (cdepth <? 0) then aheapsort a
      else if (SMALL_QUICKSORT <? length a - 1)%nat then
        let '(a, pi) := partition a in
        let cdepth := cdepth - 1 in
        let left := take pi a in
        let right := drop (pi + 1) a in
        if (pi <? length a - 1 - pi)%nat
        then aquicksort_loop fuel false cdepth left
               ++ a !!! pi :: aquicksort_loop fuel true cdepth right
        else aquicksort_loop fuel true cdepth left
               ++ a !!! pi :: aquicksort_loop fuel false cdepth right
      else insertion_sort a
  end.

(** [np.argsort(v)] with the default kind: the positions [0 .. num-1],
    sorted by [aquicksort_]. *)
Definition aquicksort : list nat :=
  let num := length v in
  aquicksort_loop (S num) true (npy_get_msb num * 2) (seq 0 num).
End IndirectSort.

(** Boolean indexing [l[mask]]. *)
Fixpoint select {A} (mask : list bool) (l : list A) : list A :=
  match mask, l with
  | b :: mask, x :: l => if b then x :: select mask l else select mask l
  | _, _ => []
  end.

(** [pandas.core.sorting.nargsort] on the values of a datetime column,
    with the defaults [kind="quicksort"], [na_position="last"]. *)
Definition nargsort (ascending : bool) (items : list Z) : list nat :=
  let idx := seq 0 (length items) in
  let mask := (fun x => x =? NPY_DATETIME_NAT) <$> items in
  let non_nans := select (negb <$> mask) items in
  let non_nan_idx := select (negb <$> mask) idx in
  let nan_idx := select mask idx in
  let non_nans := if ascending then non_nans else reverse non_nans in
  let non_nan_idx := if ascending then non_nan_idx else reverse non_nan_idx in
  let indexer := (fun k => non_nan_idx !!! k) <$> aquicksort non_nans in
  let indexer := if ascending then indexer else reverse indexer in
  indexer ++ nan_idx.

(** ** pandas: the frame of the records and its sort *)

(** The value the frame holds where a record lacks a field. *)
Definition NaN : cell := CJson (JFloat FNan).

Definition is_datetime (c : cell) : bool :=
  match c with
  | CTimestamp _ | CNaT => true
  | CJson _ => false
  end.

(** The columns of [pd.DataFrame(records)]: the keys of the records. *)
Definition frame_columns (records : list row) : gset string :=
  ⋃ (dom <$> records).

(** One column of the frame: the field of each record, [NaN] where the
    record has none.  A column of timestamps is held as 64-bit counts of
    nanoseconds and gives the timestamps back; of any other column the
    library infers the type. *)
Definition frame_column `{Library} (records : list row) (column : string)
  : list cell :=
  let cells := (fun r : row => default NaN (r !! column)) <$> records in
  if forallb is_datetime cells then cells else maybe_convert_objects cells.

(** [pd.DataFrame(records)], read by rows. *)
Definition frame_row `{Library} (records : list row) (i : nat) : row :=
  map_imap (fun column _ => frame_column records column !! i)
    (gset_to_gmap tt (frame_columns records)).

Definition DataFrame `{Library} (records : list row) : list row :=
  frame_row records <$> seq 0 (length records).

(** The values of a column of timestamps, [NaT] as its 64-bit code. *)
Definition datetime_values (column : string) (df : list row) : option (list Z) :=
  mapM (fun r : row =>
          match r !! column with
          | Some (CTimestamp ns) => Some ns
          | Some CNaT => Some NPY_DATETIME_NAT
          | _ => None
          end) df.

(** [df.take(indexer)] *)
Definition take_rows (df : list row) (indexer : list nat) : list row :=
  (fun i => df !!! i) <$> indexer.

(** [df.sort_values(by=column, ascending=ascending)]: sorting by a name
    that is not a column raises [KeyError]; the rows of a frame sorted
    by a column of timestamps are taken in the order [nargsort] gives. *)
Definition sort_values `{Library} (column : string) (ascending : bool)
    (df : list row) : result (list row) :=
  if existsb (fun r : row => bool_decide (is_Some (r !! column))) df then
    match datetime_values column df with
    | Some items => Ok (take_rows df (nargsort ascending items))
    | None => frame_sort column ascending df
    end
  else raise KeyError column.

Section Agent.
Context `{Library}.

(** [str(j)] *)
Definition py_str (j : json) : string :=
  match j with JStr s => s | _ => py_repr j end.

(** The body of the loop over the raw records: decode the payload and
    build [{"timestamp": ..., "stream": ..., **entry}]. *)
Definition normalize_record (record : flat_record) : result row :=
  entry ← json_loads (py_str (fr_record record));
  n ← py_int (fr_timestamp record);
  timestamp ← to_datetime_ns n;
  stream ← getitem_str (fr_labels record) "stream";
  match entry with
  | JObj fields =>
      Ok ((CJson <$> (list_to_map fields : gmap string json))
            ∪ {["timestamp" := timestamp; "stream" := CJson stream]})
  | _ => raise TypeError ("'" +:+ py_type_name entry +:+ "' object is not a mapping")
  end.

Definition normalize_all (raw_records : list flat_record) : result (list row) :=
  for_each (fun records record =>
      r ← normalize_record record; Ok (records ++ [r]))
    raw_records [].

(** The LogQL query of a run. *)
Definition log_query (run_name : string) : string :=
  "{source=" +:+ dq +:+ "nextflow" +:+ dq +:+ "} | json | nextflow_run="
    +:+ dq +:+ run_name +:+ dq.

(** [retrieve_logs_for_run], up to the sorted frame; printing and the
    serialisation of the frame are left out. [lookback_hours] defaults
    to 72. *)
Definition retrieve_logs_for_run (run_name : string) (lookback_hours : Z)
  : M (list row) :=
  client ← lift (LokiClient_init "http://loki:3100" None (PyFloat (FFin 10)));
  let query := log_query run_name in
  raw_records ← query_range client query (PyInt lookback_hours)
                  (PyFloat (FFin 60)) (Some 5000) "FORWARD";
  records ← lift (normalize_all raw_records);
  let records_df := DataFrame records in
  lift (sort_values "timestamp" true records_df).
End Agent.

(** ** Ordering of the frame *)

(** The timestamp a row is sorted by, when its [timestamp] cell is one. *)
Definition timestamp_of (r : row) : option Z :=
  match r !! "timestamp" with
  | Some (CTimestamp ns) => Some ns
  | _ => None
  end.

(** [a] is not later than [b]. *)
Definition ts_le (a b : row) : Prop :=
  match timestamp_of a, timestamp_of b with
  | Some x, Some y => x <= y
  | _, _ => False
  end.

(** The 64-bit value a row is sorted by. *)
Definition sort_key (r : row) : Z := default 0 (timestamp_of r).

(** In the order of the keys [v], the entry at [x] is not after the one
    at [y]. *)
Definition le_at (v : list Z) (x y : nat) : Prop := less_at v y x = false.

(** [c] is one of the two places below [p] in the heap. *)
Definition child (p c : nat) : Prop := c = (p + p)%nat \/ c = (p + p + 1)%nat.

(** From place [lo] on, no entry of the first [n] is less than one below
    it. *)
Definition heap_on (v : list Z) (a : list nat) (lo n : nat) : Prop :=
  forall p c, (lo <= p)%nat -> (c <= n)%nat -> child p c ->
    le_at v (a !!! c) (a !!! p).

(** What filling the hole [i] with [tmp] gives, for the vector [a]
    before and [a'] after. *)
Definition sifted (v : list Z) (a a' : list nat) (tmp i n lo : nat) : Prop :=
  length a' = length a
  /\ a' ≡ₚ <[i:=tmp]> a
  /\ heap_on v a' lo n
  /\ (forall k, (k < i \/ n < k)%nat -> a' !!! k = a !!! k)
  /\ (forall P : nat -> Prop,
        P tmp -> (forall k, (1 <= k <= n)%nat -> k <> i -> P (a !!! k)) ->
        forall k, (1 <= k <= n)%nat -> P (a' !!! k)).

(** Digits only. *)
Fixpoint all_digits (s : string) : bool :=
  match s with
  | EmptyString => true
  | String c rest => is_digit c && all_digits rest
  end.

(** The text [{"msg":"ok"}]. *)
Definition msg_ok_text : string :=
  "{" +:+ dq +:+ "msg" +:+ dq +:+ ":" +:+ dq +:+ "ok" +:+ dq +:+ "}".

(** The rows of a result as lists of items, for comparison by
    computation. *)
Definition result_items (r : result (list row))
  : option (list (list (string * cell))) :=
  match r with
  | Ok rows => Some (map map_to_list rows)
  | Raise _ => None
  end.

(** ** A small library instance

    Stand-ins for the outside world, used to run the model on concrete
    inputs: a JSON reader for the integer fragment of JSON, a printer,
    a type inference for columns of numbers, and two sorting routines
    for columns other than timestamps (one keeps ties in order, one
    reverses them). *)

Module Sample.

Definition dq_char : ascii := ascii_of_nat 34.

Fixpoint skip_ws (s : string) : string :=
  match s with
  | String c rest =>
      let n := N_of_ascii c in
      if ((n =? 32) || (n =? 9) || (n =? 10) || (n =? 13))%N then skip_ws rest else s
  | EmptyString => EmptyString
  end.

(** The characters of a string literal up to its closing quote; of the
    escapes, a backslash followed by a quote, a backslash or a slash. *)
Fixpoint read_string (s : string) : option (string * string) :=
  match s with
  | EmptyString => None
  | String c rest =>
      if Ascii.eqb c dq_char then Some (EmptyString, rest)
      else if Ascii.eqb c "\" then
        match rest with
        | String e rest' =>
            if Ascii.eqb e dq_char || Ascii.eqb e "\" || Ascii.eqb e "/" then
              match read_string rest' with
              | Some (body, tail) => Some (String e body, tail)
              | None => None
              end
            else None
        | EmptyString => None
        end
      else
        match read_string rest with
        | Some (body, tail) => Some (String c body, tail)
        | None => None
        end
  end.

Fixpoint read_digits (s : string) (acc : Z) : Z * string :=
  match s with
  | String c rest =>
      if is_digit c then read_digits rest (10 * acc + (Z.of_N (N_of_ascii c) - 48))
      else (acc, s)
  | EmptyString => (acc, s)
  end.

(** Assignment to a key of a dict: a later duplicate replaces the value. *)
Fixpoint dict_set (k : string) (v : json) (fields : list (string * json))
  : list (string * json) :=
  match fields with
  | [] => [(k, v)]
  | (k', v') :: rest =>
      if String.eqb k k' then (k, v) :: rest else (k', v') :: dict_set k v rest
  end.

Fixpoint read_value (fuel : nat) (s : string) : option (json * string) :=
  match fuel with
  | O => None
  | S fuel =>
      match skip_ws s with
      | String "n" (String "u" (String "l" (String "l" rest))) => Some (JNull, rest)
      | String "t" (String "r" (String "u" (String "e" rest))) => Some (JBool true, rest)
      | String "f" (String "a" (String "l" (String "s" (String "e" rest)))) =>
          Some (JBool false, rest)
      | String "[" rest =>
          match skip_ws rest with
          | String "]" rest' => Some (JArr [], rest')
          | _ =>
              match read_items fuel rest with
              | Some (items, rest') => Some (JArr items, rest')
              | None => None
              end
          end
      | String "{" rest =>
          match skip_ws rest with
          | String "}" rest' => Some (JObj [], rest')
          | _ =>
              match read_members fuel rest [] with
              | Some (fields, rest') => Some (JObj fields, rest')
              | None => None
              end
          end
      | String "-" (String c rest) =>
          if is_digit c then
            let '(v, rest') := read_digits (String c rest) 0 in Some (JInt (- v), rest')
          else None
      | String c rest =>
          if Ascii.eqb c dq_char then
            match read_string rest with
            | Some (body, rest') => Some (JStr body, rest')
            | None => None
            end
          else if is_digit c then
            let '(v, rest') := read_digits (String c rest) 0 in Some (JInt v, rest')
          else None
      | EmptyString => None
      end
  end
with read_items (fuel : nat) (s : string) : option (list json * string) :=
  match fuel with
  | O => None
  | S fuel =>
      match read_value fuel s with
      | Some (v, rest) =>
          match skip_ws rest with
          | String "," rest' =>
              match read_items fuel rest' with
              | Some (vs, tail) => Some (v :: vs, tail)
              | None => None
              end
          | String "]" rest' => Some ([v], rest')
          | _ => None
          end
      | None => None
      end
  end
with read_members (fuel : nat) (s : string) (acc : list (string * json))
  : option (list (string * json) * string) :=
  match fuel with
  | O => None
  | S fuel =>
      match skip_ws s with
      | String c rest =>
          if Ascii.eqb c dq_char then
            match read_string rest with
            | Some (k, rest1) =>
                match skip_ws rest1 with
                | String ":" rest2 =>
                    match read_value fuel rest2 with
                    | Some (v, rest3) =>
                        match skip_ws rest3 with
                        | String "," rest4 => read_members fuel rest4 (dict_set k v acc)
                        | String "}" rest4 => Some (dict_set k v acc, rest4)
                        | _ => None
                        end
                    | None => None
                    end
                | _ => None
                end
            | None => None
            end
          else None
      | EmptyString => None
      end
  end.

Definition loads (s : string) : result json :=
  match read_value (2 * String.length s + 2) s with
  | Some (v, rest) =>
      match skip_ws rest with
      | EmptyString => Ok v
      | _ => raise JSONDecodeError "Extra data"
      end
  | None => raise JSONDecodeError "Expecting value"
  end.

(** A JSON string literal, escaping quotes and backslashes. *)
Fixpoint quoted (s : string) : string :=
  match s with
  | EmptyString => String dq_char EmptyString
  | String c rest =>
      if Ascii.eqb c dq_char || Ascii.eqb c "\" then String "\" (String c (quoted rest))
      else String c (quoted rest)
  end.

(** The text of a JSON value (floats are not written). *)
Fixpoint dumps (j : json) : string :=
  match j with
  | JNull | JFloat _ => "null"
  | JBool true => "true"
  | JBool false => "false"
  | JInt z => pretty z
  | JStr s => String dq_char (quoted s)
  | JArr items =>
      "[" +:+ (fix go (l : list json) : string :=
                 match l with
                 | [] => ""
                 | [x] => dumps x
                 | x :: rest => dumps x +:+ ", " +:+ go rest
                 end) items +:+ "]"
  | JObj fields =>
      "{" +:+ (fix go (l : list (string * json)) : string :=
                 match l with
                 | [] => ""
                 | [(k, v)] => String dq_char (quoted k) +:+ ": " +:+ dumps v
                 | (k, v) :: rest =>
                     String dq_char (quoted k) +:+ ": " +:+ dumps v +:+ ", " +:+ go rest
                 end) fields +:+ "}"
  end.

Definition repr (j : json) : string :=
  match j with
  | JNull => "None"
  | JBool true => "True"
  | JBool false => "False"
  | JInt z => pretty z
  | JStr s => "'" +:+ s +:+ "'"
  | JArr [] => "[]"
  | JObj [] => "{}"
  | _ => "<" +:+ py_type_name j +:+ ">"
  end.

Definition fmt_g (x : pynum) : string :=
  match x with
  | PyInt z => pretty z
  | PyFloat (FFin q) => pretty (Qfloor q)
  | PyFloat FNan => "nan"
  | PyFloat (FInf neg) => if neg then "-inf" else "inf"
  end.

Definition sort_key (column : string) (r : row) : option Z :=
  match r !! column with
  | Some (CTimestamp ns) => Some ns
  | _ => None
  end.

(** Insertion into a sorted list, after the rows with the same key or,
    with [before_ties], before them. *)
Fixpoint insert_row (before_ties : bool) (k : Z) (r : row) (l : list (Z * row))
  : list (Z * row) :=
  match l with
  | [] => [(k, r)]
  | (k', r') :: rest =>
      if (if before_ties then k <=? k' else k <? k') then (k, r) :: l
      else (k', r') :: insert_row before_ties k r rest
  end.

Fixpoint keyed_rows (column : string) (df : list row) : option (list (Z * row)) :=
  match df with
  | [] => Some []
  | r :: rest =>
      match sort_key column r, keyed_rows column rest with
      | Some k, Some keyed => Some ((k, r) :: keyed)
      | _, _ => None
      end
  end.

Definition insertion_sort (before_ties : bool) (column : string) (df : list row)
  : result (list row) :=
  match keyed_rows column df with
  | Some keyed =>
      Ok (map snd (fold_left (fun acc kr => insert_row before_ties kr.1 kr.2 acc)
                     keyed []))
  | None => raise TypeError "unorderable column"
  end.

(** A column of numbers with a float or a missing value among them
    becomes a column of floats; any other column is left as it is. *)
Definition convert_objects (cells : list cell) : list cell :=
  let is_number c :=
    match c with CJson (JInt _) | CJson (JFloat _) => true | _ => false end in
  let is_float c := match c with CJson (JFloat _) => true | _ => false end in
  if forallb is_number cells && existsb is_float cells then
    map (fun c => match c with
                  | CJson (JInt z) => CJson (JFloat (float_of_int z))
                  | _ => c
                  end) cells
  else cells.

Definition library (before_ties : bool) (now : Z) (outcome : http_outcome)
  : Library := {|
  clock := fun n => now + Z.of_nat n;
  urlopen := fun _ _ => outcome;
  json_loads := loads;
  py_repr := repr;
  format_g := fmt_g;
  maybe_convert_objects := convert_objects;
  frame_sort := fun column ascending df =>
    rows ← insertion_sort before_ties column df;
    Ok (if ascending then rows else reverse rows)
|}.

(** Two streams returned as [[B, A]], the record of [A] being the earlier
    one; and one stream with two records of equal timestamps. *)
Definition body_two_streams : string :=
  dumps (wire_response
    [(JObj [("stream", JStr "B")],
      [(JStr "200", JStr (dumps (JObj [("msg", JStr "later")])))]);
     (JObj [("stream", JStr "A")],
      [(JStr "100", JStr (dumps (JObj [("msg", JStr "earlier")])))])]).

(** Eighteen records of one stream, all with the timestamp 100, numbered
    in their order; and the rows they are merged into. *)
Definition tie_count : nat := 18.

Definition body_ties : string :=
  dumps (wire_response
    [(JObj [("stream", JStr "stdout")],
      map (fun i : nat =>
             (JStr "100", JStr (dumps (JObj [("msg", JStr (pretty i))]))))
          (seq 0 tie_count))]).

Definition tie_row (i : nat) : row :=
  {[ "timestamp" := CTimestamp 100; "stream" := CJson (JStr "stdout");
     "msg" := CJson (JStr (pretty i)) ]}.

Definition tie_rows : list row := map tie_row (seq 0 tie_count).

Definition now_2026 : Z := 1793750400123457.

End Sample.

(** ** [agent.py]: the workflow-definition tool *)

(** [s.endswith(suffix)] *)
Fixpoint endswith (s suffix : string) : bool :=
  String.eqb s suffix
  || match s with
     | String _ rest => endswith rest suffix
     | EmptyString => false
     end.

(** [s[:-k]] for [k] positive: all but the last [k] characters, the empty
    string when there are no more than [k]. *)
Definition drop_end (k : nat) (s : string) : string :=
  String.substring 0 (String.length s - k) s.

Section Workflows.
(** The text of [/nextflow/workflows/unreliable-exome.nf], read when the
    module is loaded. *)
Variable unreliable_exome_nf : string.

Definition WORKFLOW_DEFINITIONS : gmap string string :=
  {[ "unreliable-exome" := unreliable_exome_nf ]}.

(** [retrieve_workflow_definition]; the [print] is left out. *)
Definition retrieve_workflow_definition (workflow_file : string) : string :=
  let workflow_file :=
    if endswith workflow_file ".nf" then drop_end 3 workflow_file
    else workflow_file in
  match WORKFLOW_DEFINITIONS !! workflow_file with
  | Some text => text
  | None => "Workflow definition for " +:+ workflow_file +:+ " not found."
  end.
End Workflows.

(** ** Notions used to state the properties *)

(** The computation returns, or raises an exception of one of the classes. *)
Definition raises_only {A} (classes : list exc_class) (r : result A) : Prop :=
  match r with
  | Ok _ => True
  | Raise e => exc_type e ∈ classes
  end.

(** Number of occurrences of a character. *)
Fixpoint count_char (c : ascii) (s : string) : nat :=
  match s with
  | EmptyString => 0
  | String c' rest => (if Ascii.eqb c c' then 1 else 0) + count_char c rest
  end.

(** The characters [quote_plus] leaves as they are, and the two it writes
    itself. *)
Definition is_unreserved (c : ascii) : bool :=
  let n := N_of_ascii c in
  ((48 <=? n) && (n <=? 57) || (65 <=? n) && (n <=? 90)
   || (97 <=? n) && (n <=? 122)
   || (n =? 95) || (n =? 46) || (n =? 45) || (n =? 126))%N.

Definition is_quoted_char (c : ascii) : bool :=
  is_unreserved c || Ascii.eqb c "+" || Ascii.eqb c "%".

Fixpoint string_forallb (p : ascii -> bool) (s : string) : bool :=
  match s with
  | EmptyString => true
  | String c rest => p c && string_forallb p rest
  end.

(** The value of a hexadecimal digit. *)
Definition hex_value (c : ascii) : option N :=
  let n := N_of_ascii c in
  if ((48 <=? n) && (n <=? 57))%N then Some (n - 48)%N
  else if ((65 <=? n) && (n <=? 70))%N then Some (n - 55)%N
  else if ((97 <=? n) && (n <=? 102))%N then Some (n - 87)%N
  else None.

(** [urllib.parse.unquote_plus] on bytes: the reader of what [quote_plus]
    writes. *)
Fixpoint unquote_plus (s : string) : string :=
  match s with
  | EmptyString => EmptyString
  | String c rest =>
      if Ascii.eqb c "+" then String " " (unquote_plus rest)
      else if Ascii.eqb c "%" then
        match rest with
        | String a (String b rest') =>
            match hex_value a, hex_value b with
            | Some x, Some y =>
                String (ascii_of_N (16 * x + y)) (unquote_plus rest')
            | _, _ => String c (unquote_plus rest)
            end
        | _ => String c (unquote_plus rest)
        end
      else String c (unquote_plus rest)
  end.

(** The text before the first occurrence of a character, and the text
    after it. *)
Fixpoint split_at (c : ascii) (s : string) : string * option string :=
  match s with
  | EmptyString => (EmptyString, None)
  | String c' rest =>
      if Ascii.eqb c c' then (EmptyString, Some rest)
      else let '(a, b) := split_at c rest in (String c' a, b)
  end.

(** The pieces of a text between the occurrences of a character. *)
Fixpoint split_on (fuel : nat) (c : ascii) (s : string) : list string :=
  match fuel with
  | O => [s]
  | S fuel =>
      match split_at c s with
      | (a, Some b) => a :: split_on fuel c b
      | (a, None) => [a]
      end
  end.

(** [urllib.parse.parse_qsl(qs, keep_blank_values=True)]: the fields of a
    query string are the pieces between the [&]; an empty piece is
    skipped, any other is split at its first [=] and both parts are
    unquoted. *)
Definition parse_qsl (qs : string) : list (string * string) :=
  flat_map (fun field =>
              match field with
              | EmptyString => []
              | _ =>
                  let '(k, v) := split_at "=" field in
                  [(unquote_plus k, unquote_plus (default "" v))]
              end)
           (split_on (String.length qs) "&" qs).

(** The name and the text of each parameter, as [urlencode] writes them. *)
Definition param_items (params : list (string * param))
  : list (string * string) :=
  map (fun kv => (kv.1, param_str kv.2)) params.

(** A run of [k] slashes. *)
Fixpoint slashes (k : nat) : string :=
  match k with
  | O => EmptyString
  | S k => String "/" (slashes k)
  end.

(** The microseconds of a non-negative number [q] of hours, in closed
    form: the whole hours scaled exactly, plus the float product of the
    fractional part rounded to the nearest integer, ties to even. *)
Definition hours_us (q : Q) : Z :=
  Qfloor q * us_per_hour
  + rhe (round_value (3600000000 * (q - inject_Z (Qfloor q)))).

(** The client [retrieve_logs_for_run] constructs. *)
Definition agent_client : LokiClient :=
  mkLokiClient "http://loki:3100" (mkLokiAuth None None) (PyFloat (FFin 10)).

(** Two more response bodies: one stream whose second record has a
    payload that is not JSON, and a response without streams. *)
Definition body_bad_record : string :=
  Sample.dumps (wire_response
    [(JObj [("stream", JStr "A")],
      [(JStr "100", JStr (Sample.dumps (JObj [("msg", JStr "ok")])));
       (JStr "200", JStr "plain text")])]).

Definition body_no_streams : string := Sample.dumps (wire_response []).

(** The position of the first occurrence of a character (the length of
    the text when there is none). *)
Fixpoint index_of (c : ascii) (s : string) : N :=
  match s with
  | EmptyString => 0
  | String d rest => if Ascii.eqb c d then 0 else 1 + index_of c rest
  end%N.

(** Name the quotient and the remainder of [n] by [c], with what is
    known of them. *)
Ltac split_div n c :=
  let q := fresh "q" in
  let r := fresh "r" in
  pose proof (N.div_mod n c ltac:(lia));
  pose proof (N.mod_lt n c ltac:(lia));
  set (q := N.div n c) in *; set (r := N.modulo n c) in *;
  clearbody q r.

Ltac byte_parts a :=
  pose proof (N_ascii_bounded a);
  split_div (N_of_ascii a) 4%N;
  split_div (N_of_ascii a) 16%N;
  split_div (N_of_ascii a) 64%N.

(** * Properties *)

(** ** The range calculator: rejected input *)

(** C9. A negative [hours_ago] makes [calculate_range] raise the
    [ValueError] "hours_ago must be non-negative", before the clock is
    read. *)
Theorem calculate_range_negative (clock : nat -> Z) (hours_ago : pynum) (n : nat) :
  num_ltb0 hours_ago = true ->
  calculate_range clock hours_ago n
  = (raise ValueError "hours_ago must be non-negative", n).
Proof. intros H. unfold calculate_range. by rewrite H. Qed.

Lemma calculate_range_negative_witness :
  calculate_range (fun _ => 0) (PyInt (-1)) 0%nat
  = (raise ValueError "hours_ago must be non-negative", 0%nat).
Proof. apply calculate_range_negative. reflexivity. Defined.

(** ** Binary64 rounding *)

Section Rounding.
Local Open Scope Q_scope.

Lemma pow2_pos k : 0 < pow2 k.
Proof. apply Qpower_0_lt. reflexivity. Qed.

Lemma pow2_add a b : pow2 (a + b) == pow2 a * pow2 b.
Proof. apply Qpower_plus. discriminate. Qed.

Lemma pow2_le a b : (a <= b)%Z -> pow2 a <= pow2 b.
Proof. intros. apply Qpower_le_compat_l; [done | discriminate]. Qed.

Lemma pow2_lt a b : (a < b)%Z -> pow2 a < pow2 b.
Proof. intros. apply Qpower_lt_compat_l; [done | reflexivity]. Qed.

Lemma pow2_lt_inv a b : pow2 a < pow2 b -> (a < b)%Z.
Proof. intros. eapply Qpower_lt_compat_l_inv; [done | reflexivity]. Qed.

Lemma pow2_Z k : (0 <= k)%Z -> pow2 k == inject_Z (2 ^ k).
Proof. intros. symmetry. by apply Zpower_Qpower. Qed.

Lemma pow2_succ k : pow2 (k + 1) == 2 * pow2 k.
Proof. rewrite pow2_add. change (pow2 1) with (2 # 1). ring. Qed.

Lemma pow2_div a b : pow2 a / pow2 b == pow2 (a - b).
Proof.
  replace a with ((a - b) + b)%Z at 1 by ring.
  rewrite pow2_add. field. pose proof (pow2_pos b). lra.
Qed.

(** *** Nearest integer, ties to even *)

Lemma rhe_spec q :
  let f := Qfloor q in
  (q - inject_Z f < 1 # 2 /\ rhe q = f)
  \/ (1 # 2 < q - inject_Z f /\ rhe q = (f + 1)%Z)
  \/ (q - inject_Z f == 1 # 2 /\ rhe q = if Z.even f then f else (f + 1)%Z).
Proof.
  intros f. unfold rhe. fold f.
  destruct (Qcompare_spec (q - inject_Z f) (1 # 2)); auto.
Qed.

Lemma floor_bounds q : inject_Z (Qfloor q) <= q < inject_Z (Qfloor q) + 1.
Proof.
  split; [apply Qfloor_le|].
  pose proof (Qlt_floor q) as H. by rewrite inject_Z_plus in H.
Qed.

Lemma rhe_error q : Qabs (inject_Z (rhe q) - q) <= 1 # 2.
Proof.
  pose proof (floor_bounds q) as [H1 H2].
  apply Qabs_Qle_condition.
  destruct (rhe_spec q) as [[H ->]|[[H ->]|[H ->]]].
  - lra.
  - rewrite inject_Z_plus. change (inject_Z 1) with 1. lra.
  - destruct (Z.even (Qfloor q)); [lra|].
    rewrite inject_Z_plus. change (inject_Z 1) with 1. lra.
Qed.

Lemma rhe_floor_or_succ q : rhe q = Qfloor q \/ rhe q = (Qfloor q + 1)%Z.
Proof.
  destruct (rhe_spec q) as [[H ->]|[[H ->]|[H ->]]]; auto.
  destruct (Z.even (Qfloor q)); auto.
Qed.

Lemma rhe_mono x y : x <= y -> (rhe x <= rhe y)%Z.
Proof.
  intros Hxy. pose proof (Qfloor_resp_le _ _ Hxy) as Hf.
  destruct (Z.eq_dec (Qfloor x) (Qfloor y)) as [E|NE].
  - destruct (rhe_spec x) as [[Hx Rx]|[[Hx Rx]|[Hx Rx]]];
      destruct (rhe_spec y) as [[Hy Ry]|[[Hy Ry]|[Hy Ry]]];
      rewrite Rx, Ry; rewrite <- ?E in *;
      try destruct (Z.even (Qfloor x)); try lia; exfalso; lra.
  - destruct (rhe_floor_or_succ x) as [-> | ->];
      destruct (rhe_floor_or_succ y) as [-> | ->]; lia.
Qed.

Lemma rhe_Z z : rhe (inject_Z z) = z.
Proof.
  destruct (rhe_spec (inject_Z z)) as [[H R]|[[H R]|[H R]]];
    rewrite Qfloor_Z in *; try done; exfalso; lra.
Qed.

Global Instance rhe_proper : Proper (Qeq ==> eq) rhe.
Proof.
  intros x y E. apply Z.le_antisymm; apply rhe_mono; rewrite E; apply Qle_refl.
Qed.

Lemma rhe_opp q : rhe (- q) = (- rhe q)%Z.
Proof.
  pose proof (floor_bounds q) as [H1 H2].
  pose proof (floor_bounds (- q)) as [H3 H4].
  destruct (Qeq_dec q (inject_Z (Qfloor q))) as [E|NE].
  - assert (rhe q = Qfloor q) as -> by (rewrite E at 1; apply rhe_Z).
    rewrite <- (rhe_Z (- Qfloor q)). apply rhe_proper.
    rewrite inject_Z_opp. by rewrite <- E.
  - assert (Qfloor (- q) = (- Qfloor q - 1)%Z) as Ef.
    { assert (inject_Z (Qfloor (- q)) < inject_Z (- Qfloor q)) as A.
      { rewrite inject_Z_opp.
        destruct (Qlt_le_dec (inject_Z (Qfloor (- q))) (- inject_Z (Qfloor q)));
          [done|]. exfalso. apply NE. lra. }
      assert (inject_Z (- Qfloor q - 2) < inject_Z (Qfloor (- q))) as B.
      { unfold Z.sub. rewrite inject_Z_plus, inject_Z_opp.
        change (inject_Z (- (2))) with (- (2)). lra. }
      rewrite <- Zlt_Qlt in A, B. lia. }
    destruct (rhe_spec q) as [[Hq Rq]|[[Hq Rq]|[Hq Rq]]];
      destruct (rhe_spec (- q)) as [[Hn Rn]|[[Hn Rn]|[Hn Rn]]];
      rewrite Rq, Rn; rewrite Ef in *;
      unfold Z.sub in Hn;
      rewrite inject_Z_plus, inject_Z_opp in Hn;
      change (inject_Z (- (1))) with (- (1)) in Hn;
      try (exfalso; lra); try lia.
    replace (- Qfloor q - 1)%Z with (- (Qfloor q + 1))%Z by lia.
    rewrite Z.even_opp, Z.even_add. simpl.
    destruct (Z.even (Qfloor q)); simpl; lia.
Qed.

(** *** The exponent *)

Lemma Qdiv_lt_cross X D A B :
  0 < D -> 0 < B -> X * B < A * D -> X / D < A / B.
Proof.
  intros HD HB H. apply Qlt_shift_div_r; [done|].
  assert (A / B * D == A * D / B) as -> by (field; lra).
  by apply Qlt_shift_div_l.
Qed.

Lemma Qdiv_le_cross X D A B :
  0 < D -> 0 < B -> X * B <= A * D -> X / D <= A / B.
Proof.
  intros HD HB H. apply Qle_shift_div_r; [done|].
  assert (A / B * D == A * D / B) as -> by (field; lra).
  by apply Qle_shift_div_l.
Qed.

Lemma inject_Z_pos z : (0 < z)%Z -> 0 < inject_Z z.
Proof. intros. change 0 with (inject_Z 0). by rewrite <- Zlt_Qlt. Qed.

Lemma ilog2_spec q :
  ~ q == 0 -> pow2 (ilog2 q) <= Qabs q < pow2 (ilog2 q + 1).
Proof.
  destruct q as [n d]. intros Hq.
  assert (n <> 0%Z) as Hn.
  { intros ->. apply Hq. reflexivity. }
  unfold ilog2. cbn [Qnum Qden].
  set (a := Z.log2 (Z.abs n)). set (b := Z.log2 (Z.pos d)).
  destruct (Z.log2_spec (Z.abs n)) as [A1 A2]; [lia|].
  destruct (Z.log2_spec (Z.pos d)) as [B1 B2]; [lia|].
  fold a in A1, A2. fold b in B1, B2.
  assert (0 <= a)%Z by apply Z.log2_nonneg.
  assert (0 <= b)%Z by apply Z.log2_nonneg.
  assert (0 < 2 ^ a)%Z by (apply Z.pow_pos_nonneg; lia).
  assert (0 < 2 ^ b)%Z by (apply Z.pow_pos_nonneg; lia).
  assert (Qabs (n # d) == inject_Z (Z.abs n) / inject_Z (Z.pos d)) as EQ.
  { simpl. apply Qmake_Qdiv. }
  destruct (Qle_bool (pow2 (a - b)) (Qabs (n # d))) eqn:E.
  - apply Qle_bool_iff in E. split; [done|].
    rewrite EQ.
    replace (a - b + 1)%Z with ((a + 1) - b)%Z by lia.
    rewrite <- pow2_div, !pow2_Z by lia.
    apply Qdiv_lt_cross; try (apply inject_Z_pos; lia).
    rewrite <- !inject_Z_mult, <- Zlt_Qlt.
    unfold Z.succ in *. nia.
  - assert (Qabs (n # d) < pow2 (a - b)) as U.
    { destruct (Qlt_le_dec (Qabs (n # d)) (pow2 (a - b))) as [|L]; [done|].
      apply Qle_bool_iff in L. congruence. }
    split; [|by replace (a - b - 1 + 1)%Z with (a - b)%Z by lia].
    rewrite EQ.
    replace (a - b - 1)%Z with (a - (b + 1))%Z by lia.
    rewrite <- pow2_div, !pow2_Z by lia.
    assert (0 < 2 ^ (b + 1))%Z by (apply Z.pow_pos_nonneg; lia).
    apply Qdiv_le_cross; try (apply inject_Z_pos; lia).
    rewrite <- !inject_Z_mult, <- Zle_Qle.
    unfold Z.succ in *. nia.
Qed.

Lemma ilog2_lt q k : ~ q == 0 -> Qabs q < pow2 k -> (ilog2 q < k)%Z.
Proof.
  intros Hq H. destruct (ilog2_spec q Hq) as [L _].
  apply pow2_lt_inv. eapply Qle_lt_trans; eauto.
Qed.

Lemma ilog2_ge q k : pow2 k <= Qabs q -> (k <= ilog2 q)%Z.
Proof.
  intros H.
  assert (~ q == 0) as Hq.
  { intros E. rewrite E in H. pose proof (pow2_pos k).
    change (Qabs 0) with 0 in H. lra. }
  destruct (ilog2_spec q Hq) as [_ U].
  assert (k < ilog2 q + 1)%Z; [|lia].
  apply pow2_lt_inv. eapply Qle_lt_trans; eauto.
Qed.

Lemma ilog2_mono x y :
  ~ x == 0 -> Qabs x <= Qabs y -> (ilog2 x <= ilog2 y)%Z.
Proof.
  intros Hx H. apply ilog2_ge.
  destruct (ilog2_spec x Hx) as [L _]. lra.
Qed.

Lemma ilog2_opp q : ilog2 (- q) = ilog2 q.
Proof. destruct q as [n d]. unfold ilog2. simpl. by rewrite Z.abs_opp. Qed.

Lemma cexp_opp q : cexp (- q) = cexp q.
Proof. unfold cexp. by rewrite ilog2_opp. Qed.

Lemma cexp_lt q k :
  ~ q == 0 -> Qabs q < pow2 k -> (-1074 <= k - 53)%Z -> (cexp q <= k - 53)%Z.
Proof.
  intros Hq H Hk. pose proof (ilog2_lt q k Hq H). unfold cexp. lia.
Qed.

(** *** The rounded value *)

Lemma round_value_error q :
  Qabs (round_value q - q) <= pow2 (cexp q - 1).
Proof.
  unfold round_value. set (e := cexp q).
  pose proof (pow2_pos e) as He.
  pose proof (rhe_error (q / pow2 e)) as H.
  assert (inject_Z (rhe (q / pow2 e)) * pow2 e - q
          == (inject_Z (rhe (q / pow2 e)) - q / pow2 e) * pow2 e) as ->
    by (field; lra).
  rewrite Qabs_Qmult, (Qabs_pos (pow2 e)) by lra.
  assert (pow2 (e - 1) == (1 # 2) * pow2 e) as ->.
  { replace e with ((e - 1) + 1)%Z at 2 by lia. rewrite pow2_succ. field. }
  apply Qmult_le_compat_r; [done | lra].
Qed.

(** Rounding does not cross a point of the grid. *)
Lemma round_value_le_grid q z :
  q <= inject_Z z * pow2 (cexp q) ->
  round_value q <= inject_Z z * pow2 (cexp q).
Proof.
  unfold round_value. set (e := cexp q). intros H.
  pose proof (pow2_pos e) as He.
  apply Qmult_le_compat_r; [|lra]. rewrite <- Zle_Qle.
  rewrite <- (rhe_Z z). apply rhe_mono.
  apply Qle_shift_div_r; done.
Qed.

Lemma round_value_ge_grid q z :
  inject_Z z * pow2 (cexp q) <= q ->
  inject_Z z * pow2 (cexp q) <= round_value q.
Proof.
  unfold round_value. set (e := cexp q). intros H.
  pose proof (pow2_pos e) as He.
  apply Qmult_le_compat_r; [|lra]. rewrite <- Zle_Qle.
  rewrite <- (rhe_Z z) at 1. apply rhe_mono.
  apply Qle_shift_div_l; done.
Qed.

Lemma pow2_on_grid e k :
  (e <= k)%Z -> pow2 k == inject_Z (2 ^ (k - e)) * pow2 e.
Proof.
  intros. rewrite <- pow2_Z by lia. rewrite <- pow2_add. by replace (k - e + e)%Z with k by lia.
Qed.

Lemma round_value_le_pow2 q k :
  (cexp q <= k)%Z -> q <= pow2 k -> round_value q <= pow2 k.
Proof.
  intros He H. rewrite (pow2_on_grid (cexp q) k) in * by done.
  by apply round_value_le_grid.
Qed.

Lemma round_value_ge_pow2 q k :
  (cexp q <= k)%Z -> pow2 k <= q -> pow2 k <= round_value q.
Proof.
  intros He H. rewrite (pow2_on_grid (cexp q) k) in * by done.
  by apply round_value_ge_grid.
Qed.

Lemma round_value_nonneg q : 0 <= q -> 0 <= round_value q.
Proof.
  intros H. pose proof (round_value_ge_grid q 0) as G.
  rewrite Qmult_0_l in G. auto.
Qed.

Lemma round_value_opp q : round_value (- q) == - round_value q.
Proof.
  unfold round_value. rewrite cexp_opp. set (e := cexp q).
  pose proof (pow2_pos e) as He.
  assert (- q / pow2 e == - (q / pow2 e)) as -> by (field; lra).
  rewrite rhe_opp, inject_Z_opp. ring.
Qed.

Lemma round_value_nonpos q : q <= 0 -> round_value q <= 0.
Proof.
  intros H. pose proof (round_value_nonneg (- q)) as G.
  rewrite round_value_opp in G. lra.
Qed.

Lemma round_value_mono_pos x y :
  0 < x -> x <= y -> round_value x <= round_value y.
Proof.
  intros Hx Hxy.
  assert (~ x == 0) as Nx by lra. assert (~ y == 0) as Ny by lra.
  assert (Qabs x == x) as Ax by (apply Qabs_pos; lra).
  assert (Qabs y == y) as Ay by (apply Qabs_pos; lra).
  assert (ilog2 x <= ilog2 y)%Z as Hl by (apply ilog2_mono; [done | lra]).
  destruct (Z.eq_dec (cexp x) (cexp y)) as [E|NE].
  - unfold round_value. rewrite E. pose proof (pow2_pos (cexp y)) as He.
    apply Qmult_le_compat_r; [|lra]. rewrite <- Zle_Qle. apply rhe_mono.
    apply Qmult_le_compat_r; [done|]. apply Qlt_le_weak, Qinv_lt_0_compat, He.
  - assert (cexp x < cexp y)%Z as Hlt by (unfold cexp in *; lia).
    assert (cexp y = ilog2 y - 52)%Z as Ey by (unfold cexp in *; lia).
    assert (ilog2 x < ilog2 y)%Z as Hl' by (unfold cexp in *; lia).
    destruct (ilog2_spec x Nx) as [_ Ux]. destruct (ilog2_spec y Ny) as [Ly _].
    apply Qle_trans with (pow2 (ilog2 y)).
    + apply round_value_le_pow2; [lia|].
      pose proof (pow2_le (ilog2 x + 1) (ilog2 y) ltac:(lia)). lra.
    + apply round_value_ge_pow2; [lia | lra].
Qed.

Lemma round_value_mono x y : x <= y -> round_value x <= round_value y.
Proof.
  intros Hxy.
  destruct (Qlt_le_dec 0 x) as [Hx|Hx].
  - by apply round_value_mono_pos.
  - destruct (Qlt_le_dec y 0) as [Hy|Hy].
    + pose proof (round_value_mono_pos (- y) (- x) ltac:(lra) ltac:(lra)) as G.
      rewrite !round_value_opp in G. lra.
    + pose proof (round_value_nonpos x Hx). pose proof (round_value_nonneg y Hy).
      lra.
Qed.

(** *** [round64] and truncation *)

Lemma round64_FFin q v : round64 q = FFin v -> v == round_value q.
Proof.
  unfold round64. destruct (Qle_bool _ _); [discriminate|].
  intros [= <-]. apply Qred_correct.
Qed.

Lemma round64_finite q :
  Qabs (round_value q) < pow2 1024 ->
  round64 q = FFin (Qred (round_value q)).
Proof.
  intros H. unfold round64.
  destruct (Qle_bool _ _) eqn:E; [|done].
  apply Qle_bool_iff in E. lra.
Qed.

Lemma round_value_abs_le q k :
  (cexp q <= k)%Z -> Qabs q <= pow2 k -> Qabs (round_value q) <= pow2 k.
Proof.
  intros He H. apply Qabs_Qle_condition in H as [H1 H2].
  apply Qabs_Qle_condition. split.
  - pose proof (round_value_le_pow2 (- q) k) as G.
    rewrite cexp_opp, round_value_opp in G.
    specialize (G He ltac:(lra)). lra.
  - by apply round_value_le_pow2.
Qed.

Lemma round_value_0 q : q == 0 -> round_value q == 0.
Proof.
  intros E. unfold round_value.
  assert (q / pow2 (cexp q) == inject_Z 0) as ->.
  { unfold Qdiv. rewrite (Qmult_comp _ _ E _ _ (Qeq_refl _)). ring. }
  rewrite rhe_Z. ring.
Qed.

(** Rounding a number of magnitude below [2^k] errs by at most [2^(k-54)]. *)
Lemma round64_bounded q k :
  (-1021 <= k <= 1023)%Z -> Qabs q < pow2 k ->
  exists v,
    round64 q = FFin v
    /\ v == round_value q
    /\ Qabs (v - q) <= pow2 (k - 54)
    /\ Qabs v <= pow2 k.
Proof.
  intros Hk Hq. exists (Qred (round_value q)).
  pose proof (pow2_lt k 1024 ltac:(lia)) as Hmax.
  pose proof (pow2_pos k) as Pk. pose proof (pow2_pos (k - 54)) as Pk'.
  pose proof (Qred_correct (round_value q)) as R.
  destruct (Qeq_dec q 0) as [E|NE].
  - pose proof (round_value_0 q E) as Z0.
    assert (Qabs (round_value q) == 0) as A0 by (rewrite Z0; reflexivity).
    split; [apply round64_finite; lra|]. split; [done|]. rewrite R. split.
    + assert (round_value q - q == 0) as -> by lra.
      change (Qabs 0) with 0. lra.
    + lra.
  - pose proof (cexp_lt q k NE Hq ltac:(lia)) as Hc.
    pose proof (round_value_abs_le q k ltac:(lia) ltac:(lra)) as Hv.
    split; [apply round64_finite; lra|]. split; [done|]. rewrite R.
    split; [|done].
    eapply Qle_trans; [apply round_value_error|].
    apply pow2_le. lia.
Qed.

Lemma round64_mono x y vx vy :
  x <= y -> round64 x = FFin vx -> round64 y = FFin vy -> vx <= vy.
Proof.
  intros H Hx Hy. apply round64_FFin in Hx, Hy. rewrite Hx, Hy.
  by apply round_value_mono.
Qed.

Lemma round64_nonneg x v : 0 <= x -> round64 x = FFin v -> 0 <= v.
Proof.
  intros H Hx. apply round64_FFin in Hx. rewrite Hx.
  by apply round_value_nonneg.
Qed.

Lemma Qtrunc_nonneg q : 0 <= q -> Qtrunc q = Qfloor q.
Proof. intros H. unfold Qtrunc. apply Qle_bool_iff in H. by rewrite H. Qed.

Lemma ceiling_bounds q : inject_Z (Qceiling q) - 1 < q <= inject_Z (Qceiling q).
Proof.
  split; [|apply Qle_ceiling].
  pose proof (Qceiling_lt q) as H. unfold Z.sub in H.
  rewrite inject_Z_plus in H. exact H.
Qed.

Lemma Qtrunc_error q : Qabs (inject_Z (Qtrunc q) - q) < 1.
Proof.
  apply Qabs_Qlt_condition. unfold Qtrunc.
  pose proof (floor_bounds q). pose proof (ceiling_bounds q).
  destruct (Qle_bool 0 q); lra.
Qed.

Lemma Qtrunc_mono x y : x <= y -> (Qtrunc x <= Qtrunc y)%Z.
Proof.
  intros H. unfold Qtrunc.
  destruct (Qle_bool 0 x) eqn:Ex; destruct (Qle_bool 0 y) eqn:Ey.
  - by apply Qfloor_resp_le.
  - apply Qle_bool_iff in Ex.
    assert (0 <= y) as Hy by lra. apply Qle_bool_iff in Hy. congruence.
  - assert (x <= 0) as Hx.
    { destruct (Qlt_le_dec 0 x) as [L|]; [|done].
      apply Qlt_le_weak, Qle_bool_iff in L. congruence. }
    apply Qle_bool_iff in Ey.
    apply Z.le_trans with 0%Z.
    + change 0%Z with (Qceiling 0). by apply Qceiling_resp_le.
    + change 0%Z with (Qfloor 0). by apply Qfloor_resp_le.
  - by apply Qceiling_resp_le.
Qed.

End Rounding.

(** On these operands the rounding agrees with the multiplication and the
    division of the Standard Library's specification of binary64: a
    quotient and a product as [_to_unix_ns] computes them, a product that
    is rounded among the subnormal numbers, one that overflows, and two
    that fall half-way between subnormal numbers. *)
Example round64_agrees_div :
  of_spec_float (SFdiv 53 1024 (S754_finite false 1700000000123457 0)
                   (S754_finite false 1000000 0))
  = round64 (1700000000123457 # 1000000).
Proof. vm_compute. reflexivity. Qed.

Example round64_agrees_mul :
  of_spec_float (SFmul 53 1024 (S754_finite false 7130316800517816 (-22))
                   (S754_finite false 1000000000 0))
  = fmul (of_spec_float (S754_finite false 7130316800517816 (-22)))
      (FFin 1000000000).
Proof. vm_compute. reflexivity. Qed.

Example round64_agrees_subnormal :
  of_spec_float (SFmul 53 1024 (S754_finite true 4503599627370497 (-652))
                   (S754_finite false 4503599627382841 (-480)))
  = fmul (of_spec_float (S754_finite true 4503599627370497 (-652)))
      (of_spec_float (S754_finite false 4503599627382841 (-480))).
Proof. vm_compute. reflexivity. Qed.

Example round64_agrees_overflow :
  of_spec_float (SFmul 53 1024 (S754_finite false 4503599627370496 971)
                   (S754_finite false 2 0))
  = fmul (of_spec_float (S754_finite false 4503599627370496 971)) (FFin 2).
Proof. vm_compute. reflexivity. Qed.

Example round64_agrees_ties :
  of_spec_float (SFmul 53 1024 (S754_finite false 1 (-1074))
                   (S754_finite false 1 (-1)))
  = fmul (of_spec_float (S754_finite false 1 (-1074))) (FFin (1 # 2))
  /\ of_spec_float (SFmul 53 1024 (S754_finite false 1 (-1074))
                      (S754_finite false 3 (-1)))
     = fmul (of_spec_float (S754_finite false 1 (-1074))) (FFin (3 # 2)).
Proof. split; vm_compute; reflexivity. Qed.

(** ** The range calculator: accepted input *)

Section RangeCalculator.
Local Open Scope Q_scope.

Lemma pow2_38 : pow2 38 = 274877906944.
Proof. reflexivity. Qed.
Lemma pow2_68 : pow2 68 = 295147905179352825856.
Proof. reflexivity. Qed.

Lemma float_of_int_1e9 : float_of_int 1000000000 = FFin 1000000000.
Proof. vm_compute. reflexivity. Qed.

(** The steps of [_to_unix_ns] on a date of the type. *)
Lemma to_unix_ns_steps dt :
  datetime_valid dt ->
  exists v1 v2,
    round64 (inject_Z dt / inject_Z us_per_second) = FFin v1
    /\ round64 (v1 * 1000000000) = FFin v2
    /\ _to_unix_ns dt = Ok (Qtrunc v2)
    /\ Qabs (v1 - inject_Z dt * (1 # 1000000)) <= 1 # 65536
    /\ Qabs (v2 - v1 * 1000000000) <= 16384.
Proof.
  intros [Hmin Hmax].
  rewrite Zle_Qle in Hmin, Hmax.
  change (inject_Z MIN_US) with (-62135596800000000) in Hmin.
  change (inject_Z MAX_US) with 253402300799999999 in Hmax.
  change (inject_Z us_per_second) with 1000000.
  set (D := inject_Z dt) in *.
  change (D / 1000000) with (D * (1 # 1000000)).
  destruct (round64_bounded (D * (1 # 1000000)) 38 ltac:(lia)) as (v1 & R1 & _ & E1 & B1).
  { rewrite pow2_38. apply Qabs_Qlt_condition. lra. }
  rewrite pow2_38 in B1. change (pow2 (38 - 54)) with (1 # 65536) in E1.
  apply Qabs_Qle_condition in B1.
  destruct (round64_bounded (v1 * 1000000000) 68 ltac:(lia)) as (v2 & R2 & _ & E2 & B2).
  { rewrite pow2_68. apply Qabs_Qlt_condition. lra. }
  change (pow2 (68 - 54)) with 16384 in E2.
  exists v1, v2. repeat split; try done.
  unfold _to_unix_ns, timestamp, int_truediv.
  change (inject_Z dt / inject_Z us_per_second) with (D * (1 # 1000000)).
  rewrite R1.
  cbn [mbind result_bind Py.bind Z.eqb us_per_second]. 
  rewrite float_of_int_1e9. cbn [fmul]. rewrite R2. reflexivity.
Qed.

Lemma Qfloor_unique q z :
  inject_Z z <= q -> q < inject_Z z + 1 -> Qfloor q = z.
Proof.
  intros H1 H2. pose proof (floor_bounds q) as [F1 F2].
  assert (inject_Z z < inject_Z (Qfloor q + 1)) as A
    by (rewrite inject_Z_plus; change (inject_Z 1) with 1; lra).
  assert (inject_Z (Qfloor q) < inject_Z (z + 1)) as B
    by (rewrite inject_Z_plus; change (inject_Z 1) with 1; lra).
  rewrite <- Zlt_Qlt in A, B. lia.
Qed.

Lemma c_round_unit r :
  0 < r -> r < 1 ->
  (r < 1 # 2 /\ c_round r = 0%Z) \/ (1 # 2 <= r /\ c_round r = 1%Z).
Proof.
  intros H0 H1. unfold c_round.
  assert (Qle_bool 0 r = true) as -> by (apply Qle_bool_iff; lra).
  destruct (Qlt_le_dec r (1 # 2)) as [L|L]; [left | right]; split; try done.
  - apply Qfloor_unique; change (inject_Z 0) with 0; lra.
  - apply Qfloor_unique; change (inject_Z 1) with 1; lra.
Qed.

Lemma whole_us_unit x r :
  0 < r -> r < 1 ->
  (whole_us x r = 0%Z \/ whole_us x r = 1%Z)
  /\ Qabs (inject_Z (whole_us x r) - r) <= 1 # 2.
Proof.
  intros H0 H1. unfold whole_us.
  destruct (Qeq_bool _ _) eqn:E.
  - apply Qeq_bool_iff in E.
    assert (r == 1 # 2) as Hr.
    { destruct (c_round_unit r H0 H1) as [[L W]|[L W]]; rewrite W in E.
      - change (inject_Z 0) with 0 in E. rewrite Qabs_neg in E by lra. lra.
      - change (inject_Z 1) with 1 in E. rewrite Qabs_pos in E by lra. lra. }
    destruct (Z.odd x).
    + destruct (c_round_unit ((r + inject_Z 1) * (1 # 2))) as [[L W]|[L W]];
        change (inject_Z 1) with 1 in *; try lra.
      rewrite W. split; [by right|]. change (inject_Z (2 * 1 - 1)) with 1.
      apply Qabs_Qle_condition. lra.
    + destruct (c_round_unit ((r + inject_Z 0) * (1 # 2))) as [[L W]|[L W]];
        change (inject_Z 0) with 0 in *; try lra.
      rewrite W. split; [by left|]. change (inject_Z (2 * 0 - 0)) with 0.
      apply Qabs_Qle_condition. lra.
  - destruct (c_round_unit r H0 H1) as [[L W]|[L W]]; rewrite W.
    + split; [by left|]. change (inject_Z 0) with 0.
      apply Qabs_Qle_condition. lra.
    + split; [by right|]. change (inject_Z 1) with 1.
      apply Qabs_Qle_condition. lra.
Qed.

Lemma float_of_int_us_per_hour : float_of_int us_per_hour = FFin 3600000000.
Proof. vm_compute. reflexivity. Qed.

Lemma pow2_32 : pow2 32 = 4294967296.
Proof. reflexivity. Qed.

(** The microseconds of a non-negative number of hours: never negative,
    and within [1/2 + 2^-22] of the exact product. *)
Lemma hours_to_us_spec h hq :
  num_value h = Some hq -> 0 <= hq ->
  exists us,
    hours_to_us h = Ok us
    /\ (0 <= us)%Z
    /\ Qabs (inject_Z us - hq * 3600000000) <= 501 # 1000.
Proof.
  intros Hv Hq. destruct h as [z|[| |q]]; simpl in Hv; try discriminate.
  - injection Hv as <-. exists (z * us_per_hour)%Z.
    change 0 with (inject_Z 0) in Hq. rewrite <- Zle_Qle in Hq.
    split; [done|]. split; [unfold us_per_hour; lia|].
    rewrite inject_Z_mult. change (inject_Z us_per_hour) with 3600000000.
    assert (inject_Z z * 3600000000 - inject_Z z * 3600000000 == 0) as -> by ring.
    change (Qabs 0) with 0. lra.
  - injection Hv as <-. unfold hours_to_us.
    rewrite (Qtrunc_nonneg q Hq).
    pose proof (floor_bounds q) as [F1 F2].
    set (ip := Qfloor q) in *. set (fp := q - inject_Z ip).
    assert (0 <= ip)%Z as Hip.
    { change 0%Z with (Qfloor 0). by apply Qfloor_resp_le. }
    assert (0 <= inject_Z ip) as Hip' by (change 0 with (inject_Z 0); by rewrite <- Zle_Qle).
    destruct (Qeq_bool fp 0) eqn:E0.
    + apply Qeq_bool_iff in E0. exists (ip * us_per_hour)%Z.
      split; [done|]. split; [unfold us_per_hour; lia|].
      rewrite inject_Z_mult. change (inject_Z us_per_hour) with 3600000000.
      apply Qabs_Qle_condition. unfold fp in E0. lra.
    + assert (0 < fp) as Hfp.
      { destruct (Qlt_le_dec 0 fp) as [|L]; [done|].
        assert (fp == 0) as Z0 by (unfold fp in *; lra).
        apply Qeq_bool_iff in Z0. congruence. }
      assert (fp < 1) as Hfp1 by (unfold fp; lra).
      rewrite float_of_int_us_per_hour. cbn [fmul].
      destruct (round64_bounded (3600000000 * fp) 32 ltac:(lia))
        as (d & R & _ & Ed & Bd).
      { rewrite pow2_32. apply Qabs_Qlt_condition. lra. }
      rewrite R.
      assert (0 <= d) as Hd by (eapply round64_nonneg; [|exact R]; lra).
      change (pow2 (32 - 54)) with (1 # 4194304) in Ed.
      apply Qabs_Qle_condition in Ed.
      rewrite (Qtrunc_nonneg d Hd).
      pose proof (floor_bounds d) as [G1 G2].
      set (ip2 := Qfloor d) in *. set (lo := d - inject_Z ip2).
      assert (0 <= ip2)%Z as Hip2.
      { change 0%Z with (Qfloor 0). by apply Qfloor_resp_le. }
      destruct (Qeq_bool lo 0) eqn:E1.
      * apply Qeq_bool_iff in E1. exists (ip * us_per_hour + ip2)%Z.
        split; [done|]. split; [unfold us_per_hour; lia|].
        rewrite inject_Z_plus, inject_Z_mult.
        change (inject_Z us_per_hour) with 3600000000.
        apply Qabs_Qle_condition. unfold fp, lo in *. lra.
      * assert (0 < lo) as Hlo.
        { destruct (Qlt_le_dec 0 lo) as [|L]; [done|].
          assert (lo == 0) as Z0 by (unfold lo in *; lra).
          apply Qeq_bool_iff in Z0. congruence. }
        assert (lo < 1) as Hlo1 by (unfold lo; lra).
        destruct (whole_us_unit (ip * us_per_hour + ip2) lo Hlo Hlo1)
          as [Hw Ew].
        set (w := whole_us (ip * us_per_hour + ip2) lo) in *.
        exists (ip * us_per_hour + ip2 + w)%Z.
        split; [done|]. split; [unfold us_per_hour; lia|].
        rewrite !inject_Z_plus, inject_Z_mult.
        change (inject_Z us_per_hour) with 3600000000.
        apply Qabs_Qle_condition in Ew.
        apply Qabs_Qle_condition. unfold fp, lo in *. lra.
Qed.

Lemma microseconds_to_delta_ok us :
  (0 <= us <= MAX_US - MIN_US)%Z -> microseconds_to_delta us = Ok us.
Proof.
  intros H. unfold microseconds_to_delta.
  assert (0 <= us / us_per_day <= 3652058)%Z as Hd.
  { unfold us_per_day. change (MAX_US - MIN_US)%Z with 315537897599999999%Z in H.
    split; [apply Z.div_pos; lia|].
    assert (us / 86400000000 < 3652059)%Z; [|lia].
    apply Z.div_lt_upper_bound; lia. }
  cbv zeta.
  assert ((- 2 ^ 31 <=? us / us_per_day) && (us / us_per_day <? 2 ^ 31) = true) as ->.
  { apply andb_true_intro. split; [apply Z.leb_le | apply Z.ltb_lt]; lia. }
  assert ((- MAX_DELTA_DAYS <=? us / us_per_day)
          && (us / us_per_day <=? MAX_DELTA_DAYS) = true) as ->.
  { apply andb_true_intro. unfold MAX_DELTA_DAYS.
    split; apply Z.leb_le; lia. }
  reflexivity.
Qed.

Lemma datetime_sub_ok dt td :
  (MIN_US <= dt - td <= MAX_US)%Z -> datetime_sub dt td = Ok (dt - td)%Z.
Proof.
  intros [H1 H2]. unfold datetime_sub. cbv zeta.
  apply Z.leb_le in H1, H2. by rewrite H1, H2.
Qed.

Lemma to_unix_ns_error dt :
  datetime_valid dt ->
  exists ns,
    _to_unix_ns dt = Ok ns
    /\ Qabs (inject_Z ns - inject_Z dt * 1000) <= 31644.
Proof.
  intros Hdt.
  destruct (to_unix_ns_steps dt Hdt) as (v1 & v2 & _ & _ & R & E1 & E2).
  exists (Qtrunc v2). split; [done|].
  pose proof (Qtrunc_error v2) as E3.
  apply Qabs_Qle_condition in E1, E2. apply Qabs_Qlt_condition in E3.
  apply Qabs_Qle_condition. lra.
Qed.

Lemma to_unix_ns_mono dt1 dt2 ns1 ns2 :
  datetime_valid dt1 -> datetime_valid dt2 -> (dt1 <= dt2)%Z ->
  _to_unix_ns dt1 = Ok ns1 -> _to_unix_ns dt2 = Ok ns2 -> (ns1 <= ns2)%Z.
Proof.
  intros H1 H2 Hle R1 R2.
  destruct (to_unix_ns_steps dt1 H1) as (a1 & a2 & A1 & A2 & A3 & _).
  destruct (to_unix_ns_steps dt2 H2) as (b1 & b2 & B1 & B2 & B3 & _).
  rewrite A3 in R1. rewrite B3 in R2.
  injection R1 as <-. injection R2 as <-.
  apply Qtrunc_mono.
  eapply round64_mono; [|exact A2|exact B2].
  apply Qmult_le_compat_r; [|done].
  eapply round64_mono; [|exact A1|exact B1].
  apply Qmult_le_compat_r; [by rewrite <- Zle_Qle | done].
Qed.

(** The steps of [calculate_range] on accepted input. *)
Lemma calculate_range_steps clock hours_ago n hq :
  datetime_valid (clock n) ->
  num_value hours_ago = Some hq ->
  0 <= hq ->
  hq * 3600000000 <= inject_Z (clock n - MIN_US) - 1 ->
  exists td start_ns end_ns,
    calculate_range clock hours_ago n = (Ok (start_ns, end_ns), S n)
    /\ timedelta_hours hours_ago = Ok td
    /\ _to_unix_ns (clock n - td) = Ok start_ns
    /\ _to_unix_ns (clock n) = Ok end_ns
    /\ (start_ns <= end_ns)%Z
    /\ (0 <= td)%Z
    /\ datetime_valid (clock n - td)
    /\ Qabs (inject_Z td - hq * 3600000000) <= 501 # 1000.
Proof.
  intros Hnow Hv Hq Hrep.
  destruct (hours_to_us_spec hours_ago hq Hv Hq) as (td & Htd & Hpos & Etd).
  pose proof Etd as Etd'. apply Qabs_Qle_condition in Etd'.
  assert (td <= clock n - MIN_US)%Z as Hfit.
  { assert (inject_Z td < inject_Z (clock n - MIN_US + 1)) as A.
    { rewrite inject_Z_plus. change (inject_Z 1) with 1. lra. }
    rewrite <- Zlt_Qlt in A. lia. }
  destruct Hnow as [N1 N2].
  assert (datetime_valid (clock n - td)) as Hstart by (split; lia).
  assert (timedelta_hours hours_ago = Ok td) as Hdelta.
  { unfold timedelta_hours. rewrite Htd. cbn [mbind result_bind Py.bind].
    apply microseconds_to_delta_ok. lia. }
  destruct (to_unix_ns_error (clock n) (conj N1 N2)) as (e & He & _).
  destruct (to_unix_ns_error (clock n - td) Hstart) as (s & Hs & _).
  exists td, s, e.
  assert (s <= e)%Z as Hle.
  { eapply to_unix_ns_mono; [exact Hstart | exact (conj N1 N2) | lia | done..]. }
  split; [|repeat split; try done; by destruct Hstart].
  unfold calculate_range.
  assert (num_ltb0 hours_ago = false) as ->.
  { destruct hours_ago as [z|[| |q]]; simpl in Hv |- *; try discriminate;
      injection Hv as <-.
    - change 0 with (inject_Z 0) in Hq. rewrite <- Zle_Qle in Hq.
      apply Z.ltb_ge. done.
    - apply Qle_bool_iff in Hq. by rewrite Hq. }
  unfold mbind, M_bind, mbindM, datetime_now, lift.
  rewrite Hdelta. cbn [result_bind Py.bind].
  rewrite datetime_sub_ok by (destruct Hstart; done).
  rewrite Hs, He. reflexivity.
Qed.

(** C1, as the code has it.  Let the clock reading be a date of the
    type, and let [hours_ago] be a finite number, not negative, whose
    hours do not reach back before the first microsecond of year 1.
    Then [calculate_range] takes exactly one reading of the clock and
    returns a pair [(start_ns, end_ns)]: [end_ns] is the conversion of
    that reading, [start_ns] the conversion of that reading minus the
    [timedelta] of [hours_ago] hours; [start_ns <= end_ns]; and
    [end_ns - start_ns] differs from [hours_ago] hours in nanoseconds by
    at most 65536 ns. *)
Theorem calculate_range_window clock hours_ago n hq :
  datetime_valid (clock n) ->
  num_value hours_ago = Some hq ->
  0 <= hq ->
  hq * 3600000000 <= inject_Z (clock n - MIN_US) - 1 ->
  exists td start_ns end_ns,
    calculate_range clock hours_ago n = (Ok (start_ns, end_ns), S n)
    /\ timedelta_hours hours_ago = Ok td
    /\ _to_unix_ns (clock n - td) = Ok start_ns
    /\ _to_unix_ns (clock n) = Ok end_ns
    /\ (start_ns <= end_ns)%Z
    /\ Qabs (inject_Z (end_ns - start_ns) - hq * 3600000000000) <= 65536.
Proof.
  intros Hnow Hv Hq Hrep.
  destruct (calculate_range_steps clock hours_ago n hq Hnow Hv Hq Hrep)
    as (td & s & e & Hcalc & Hdelta & Hs & He & Hle & _ & Hstart & Etd).
  exists td, s, e. repeat split; try done.
  destruct (to_unix_ns_error (clock n) Hnow) as (e' & He' & Ee).
  destruct (to_unix_ns_error (clock n - td) Hstart) as (s' & Hs' & Es).
  rewrite He in He'. rewrite Hs in Hs'.
  injection He' as <-. injection Hs' as <-.
  apply Qabs_Qle_condition in Ee, Es, Etd. apply Qabs_Qle_condition.
  unfold Z.sub in *. rewrite !inject_Z_plus, !inject_Z_opp in *. lra.
Qed.

(** *** Dates around the present

    For instants less than [2^31] seconds away from the epoch (from
    December 1901 to January 2038) the grid of the floats is finer, and the
    window is exact to the microsecond. *)

Lemma to_unix_ns_error_near dt :
  (- 2147483648000000 < dt < 2147483648000000)%Z ->
  exists ns,
    _to_unix_ns dt = Ok ns
    /\ Qabs (inject_Z ns - inject_Z dt * 1000) <= 249.
Proof.
  intros [Hmin Hmax].
  rewrite Zlt_Qlt in Hmin, Hmax.
  change (inject_Z (- 2147483648000000)) with (-2147483648000000) in Hmin.
  change (inject_Z 2147483648000000) with 2147483648000000 in Hmax.
  set (D := inject_Z dt) in *.
  destruct (round64_bounded (D * (1 # 1000000)) 31 ltac:(lia))
    as (v1 & R1 & _ & E1 & B1).
  { change (pow2 31) with 2147483648. apply Qabs_Qlt_condition. lra. }
  change (pow2 31) with 2147483648 in B1.
  change (pow2 (31 - 54)) with (1 # 8388608) in E1.
  apply Qabs_Qle_condition in B1.
  destruct (round64_bounded (v1 * 1000000000) 61 ltac:(lia))
    as (v2 & R2 & _ & E2 & B2).
  { change (pow2 61) with 2305843009213693952. apply Qabs_Qlt_condition. lra. }
  change (pow2 (61 - 54)) with 128 in E2.
  exists (Qtrunc v2). split.
  - unfold _to_unix_ns, timestamp, int_truediv.
    change (inject_Z dt / inject_Z us_per_second) with (D * (1 # 1000000)).
    rewrite R1.
    cbn [mbind result_bind Py.bind Z.eqb us_per_second].
    rewrite float_of_int_1e9. cbn [fmul]. rewrite R2. reflexivity.
  - pose proof (Qtrunc_error v2) as E3.
    apply Qabs_Qle_condition in E1, E2. apply Qabs_Qlt_condition in E3.
    apply Qabs_Qle_condition. lra.
Qed.

Lemma calculate_range_window_near clock hours_ago n hq :
  (clock n < 2147483648000000)%Z ->
  num_value hours_ago = Some hq ->
  0 <= hq ->
  hq * 3600000000 <= inject_Z (clock n + 2147483648000000) - 1 ->
  exists start_ns end_ns,
    calculate_range clock hours_ago n = (Ok (start_ns, end_ns), S n)
    /\ (start_ns <= end_ns)%Z
    /\ Qabs (inject_Z (end_ns - start_ns) - hq * 3600000000000) <= 1000.
Proof.
  intros Hmax Hv Hq Hrep.
  assert (- 2147483648000000 < clock n)%Z as Hmin.
  { assert (inject_Z 0 < inject_Z (clock n + 2147483648000000)) as A
      by (change (inject_Z 0) with 0; lra).
    rewrite <- Zlt_Qlt in A. lia. }
  assert (datetime_valid (clock n)) as Hnow.
  { unfold datetime_valid. change MIN_US with (-62135596800000000)%Z.
    change MAX_US with 253402300799999999%Z. lia. }
  assert (hq * 3600000000 <= inject_Z (clock n - MIN_US) - 1) as Hrep'.
  { change MIN_US with (-62135596800000000)%Z.
    unfold Z.sub. rewrite inject_Z_plus, inject_Z_opp.
    rewrite inject_Z_plus in Hrep.
    change (inject_Z (-62135596800000000)) with (-62135596800000000).
    change (inject_Z 2147483648000000) with 2147483648000000 in Hrep. lra. }
  destruct (calculate_range_steps clock hours_ago n hq Hnow Hv Hq Hrep')
    as (td & s & e & Hcalc & Hdelta & Hs & He & Hle & Hpos & Hstart & Etd).
  exists s, e. repeat split; try done.
  apply Qabs_Qle_condition in Etd.
  assert (- 2147483648000000 < clock n - td)%Z as Hlow.
  { assert (inject_Z (- 2147483648000000) < inject_Z (clock n - td)) as A.
    { unfold Z.sub. rewrite inject_Z_plus, inject_Z_opp.
      pose proof Hrep as Hrep2. rewrite inject_Z_plus in Hrep2.
      change (inject_Z (- 2147483648000000)) with (-2147483648000000).
      change (inject_Z 2147483648000000) with 2147483648000000 in Hrep2. lra. }
    by rewrite <- Zlt_Qlt in A. }
  destruct (to_unix_ns_error_near (clock n) ltac:(lia)) as (e' & He' & Ee).
  destruct (to_unix_ns_error_near (clock n - td) ltac:(lia)) as (s' & Hs' & Es).
  rewrite He in He'. rewrite Hs in Hs'.
  injection He' as <-. injection Hs' as <-.
  apply Qabs_Qle_condition in Ee, Es. apply Qabs_Qle_condition.
  unfold Z.sub in *. rewrite !inject_Z_plus, !inject_Z_opp in *. lra.
Qed.

End RangeCalculator.

Lemma calculate_range_window_witness :
  exists td start_ns end_ns,
    calculate_range (fun _ => Sample.now_2026) (PyInt 72) 0%nat
    = (Ok (start_ns, end_ns), 1%nat)
    /\ timedelta_hours (PyInt 72) = Ok td
    /\ _to_unix_ns (Sample.now_2026 - td) = Ok start_ns
    /\ _to_unix_ns Sample.now_2026 = Ok end_ns
    /\ start_ns <= end_ns
    /\ (Qabs (inject_Z (end_ns - start_ns) - 72 * 3600000000000) <= 65536)%Q.
Proof.
  apply (calculate_range_window (fun _ => Sample.now_2026) (PyInt 72) 0%nat 72).
  - split; vm_compute; congruence.
  - reflexivity.
  - vm_compute. congruence.
  - vm_compute. congruence.
Defined.

(** C1, as stated, fails: a lookback of a thousand million hours is not
    negative, and the start of the window, before year 1, is no date of the
    type; the subtraction raises [OverflowError]. *)
Lemma calculate_range_overflow :
  num_ltb0 (PyInt 1000000000) = false
  /\ datetime_valid Sample.now_2026
  /\ calculate_range (fun _ => Sample.now_2026) (PyInt 1000000000) 0%nat
     = (raise OverflowError "date value out of range", 1%nat).
Proof.
  repeat apply conj; vm_compute; congruence.
Qed.

(** Runs of the calculator: whole hours, and a third of an hour as the
    float nearest to it. *)
Example calculate_range_72h :
  calculate_range (fun _ => Sample.now_2026) (PyInt 72) 0%nat
  = (Ok (1793491200123457024, 1793750400123457024), 1%nat).
Proof. vm_compute. reflexivity. Qed.

Example calculate_range_third :
  calculate_range (fun _ => Sample.now_2026)
    (PyFloat (FFin (6004799503160661 # 18014398509481984))) 0%nat
  = (Ok (1793749200123457024, 1793750400123457024), 1%nat).
Proof. vm_compute. reflexivity. Qed.

(** ** Credentials *)

(** C5, as the code has it. Construction stores both fields as given and
    never fails, so a credential value can hold a basic and a bearer
    credential at once; such a value is not resolved by precedence either:
    [headers] raises [ValueError] on it. *)
Theorem credential_conflict_deferred :
  (forall basic bearer,
      LokiAuth_init basic bearer = Ok (mkLokiAuth basic bearer))
  /\ (forall user rest c token,
      headers (mkLokiAuth (Some (user :: rest)) (Some (String c token)))
      = raise ValueError "Use either basic_auth or bearer_token, not both.").
Proof. split; reflexivity. Qed.

(** C5, as stated, fails: a credential with both fields populated is
    constructed without error. *)
Lemma credential_both_constructed :
  LokiAuth_init (Some ["user"; "secret"]) (Some "token")
  = Ok (mkLokiAuth (Some ["user"; "secret"]) (Some "token")).
Proof. reflexivity. Qed.

(** C7. [headers] raises the [ValueError] "Use either basic_auth or
    bearer_token, not both." whenever both credentials are set (both are
    true values); construction itself never checks; and with neither set
    [headers] returns the empty mapping. *)
Theorem headers_conflict_and_none :
  (forall basic bearer,
      truthy_tuple basic = true -> truthy_str bearer = true ->
      headers (mkLokiAuth basic bearer)
      = raise ValueError "Use either basic_auth or bearer_token, not both.")
  /\ (forall basic bearer, is_ok (LokiAuth_init basic bearer) = true)
  /\ headers (mkLokiAuth None None) = Ok ∅.
Proof.
  repeat apply conj; [|reflexivity..].
  intros basic bearer Hb Ht. unfold headers. simpl. by rewrite Hb, Ht.
Qed.

Lemma headers_conflict_and_none_witness :
  headers (mkLokiAuth (Some ["user"; "secret"]) (Some "token"))
  = raise ValueError "Use either basic_auth or bearer_token, not both.".
Proof.
  destruct headers_conflict_and_none as (H & _ & _).
  apply H; reflexivity.
Defined.

(** C10. An empty bearer token, like an empty basic tuple, counts as not
    set: [headers] then behaves exactly as if the field were [None], and
    with no other credential it returns the empty mapping without
    failing. *)
Theorem headers_empty_credentials :
  (forall basic,
      headers (mkLokiAuth basic (Some "")) = headers (mkLokiAuth basic None))
  /\ (forall bearer,
      headers (mkLokiAuth (Some []) bearer) = headers (mkLokiAuth None bearer))
  /\ headers (mkLokiAuth None (Some "")) = Ok ∅
  /\ headers (mkLokiAuth (Some []) None) = Ok ∅
  /\ headers (mkLokiAuth (Some []) (Some "")) = Ok ∅.
Proof.
  repeat apply conj; reflexivity.
Qed.

(** A pair of empty strings is a non-empty tuple and selects basic mode. *)
Example headers_empty_pair :
  headers (mkLokiAuth (Some [""; ""]) None)
  = Ok {["Authorization" := "Basic Og=="]}.
Proof. reflexivity. Qed.

Example headers_basic :
  headers (mkLokiAuth (Some ["user"; "pass"]) None)
  = Ok {["Authorization" := "Basic dXNlcjpwYXNz"]}.
Proof. reflexivity. Qed.

Example headers_bearer :
  headers (mkLokiAuth None (Some "abc"))
  = Ok {["Authorization" := "Bearer abc"]}.
Proof. reflexivity. Qed.

(** ** The range-query client: failures *)

Section Messages.

Lemma pretty_N_char_digit k : is_digit (pretty_N_char k) = true.
Proof. unfold pretty_N_char. by repeat case_match. Qed.

Lemma pretty_N_go_digits x s :
  all_digits s = true -> all_digits (pretty_N_go x s) = true.
Proof.
  revert s. induction (N.lt_wf_0 x) as [x _ IH]; intros s Hs.
  destruct (decide (x = 0)%N) as [->|Hx]; [by rewrite pretty_N_go_0|].
  rewrite pretty_N_go_step by lia. apply IH.
  - apply N.div_lt; lia.
  - simpl. by rewrite pretty_N_char_digit.
Qed.

Lemma pretty_N_digits (x : N) : all_digits (pretty x) = true.
Proof.
  unfold pretty, pretty_N. case_decide; [done|].
  by apply pretty_N_go_digits.
Qed.

(** A run of digits followed by a colon can be split in one way only. *)
Lemma digits_colon_split d1 d2 s1 s2 :
  all_digits d1 = true -> all_digits d2 = true ->
  d1 +:+ String ":" s1 = d2 +:+ String ":" s2 -> d1 = d2 /\ s1 = s2.
Proof.
  revert d2. induction d1 as [|c d1 IH]; intros [|c' d2] H1 H2 E; simpl in *.
  - by injection E as ->.
  - injection E as <- _. apply andb_prop in H2 as [H2 _]. discriminate.
  - injection E as -> _. apply andb_prop in H1 as [H1 _]. discriminate.
  - injection E as -> E. apply andb_prop in H1 as [_ H1].
    apply andb_prop in H2 as [_ H2].
    destruct (IH d2 H1 H2 E) as [-> ->]. done.
Qed.

Lemma string_app_inv_head (p s1 s2 : string) : p +:+ s1 = p +:+ s2 -> s1 = s2.
Proof. induction p as [|c p IH]; simpl; [done|]. intros [= E]. auto. Qed.

(** The message of a failed query determines the status and the body. *)
Lemma http_error_message_inj code body code' body' :
  http_error_message code body = http_error_message code' body' ->
  code = code' /\ body = body'.
Proof.
  unfold http_error_message. intros E.
  apply string_app_inv_head in E.
  apply digits_colon_split in E as [E1 E2]; try apply pretty_N_digits.
  split; [by apply (inj pretty) | by injection E2].
Qed.

Lemma http_error_message_not_unreachable code body reason :
  http_error_message code body <> unreachable_message reason.
Proof. discriminate. Qed.

End Messages.

Section ClientClaims.
Context `{Library}.

(** A client is not built on an empty base URL. *)
Example client_empty_base_url auth timeout :
  LokiClient_init "" auth timeout = raise ValueError "base_url is required".
Proof. reflexivity. Qed.

(** C3, as the code has it.  Once the range and the credential headers
    are computed: when the transport raises [HTTPError] (urllib's error
    for a response with an error status) and its body decodes,
    [query_range] raises a [RuntimeError] whose message is "Loki query
    failed with HTTP <status>: <body>" and whose cause is that
    [HTTPError]; the status and the body can be read back from the
    message.  When the transport raises [URLError] (urllib's error for a
    failure to connect), [query_range] also raises a [RuntimeError], with
    message "Failed to reach Loki: <reason>" and the [URLError] as cause.
    The two failures have the same exception class; they differ by
    message and by cause.  Every other exception of the transport leaves
    [query_range] as it is, not wrapped. *)
Theorem query_range_failures (self : LokiClient) (query : string)
    (hours_ago step_seconds : pynum) (limit : option Z) (direction : string)
    (n n' : nat) (start_ns end_ns : Z) (auth_headers : gmap string string) :
  calculate_range clock hours_ago n = (Ok (start_ns, end_ns), n') ->
  headers (auth self) = Ok auth_headers ->
  let request :=
    build_request self query start_ns end_ns step_seconds limit direction
      auth_headers in
  (forall code body,
      urlopen request (timeout self) = Failed (HTTPError code body) ->
      query_range self query hours_ago step_seconds limit direction n
      = (Raise (Exc RuntimeError (http_error_message code body)
                  (Some (HTTPError code body))), n'))
  /\ (forall reason,
      urlopen request (timeout self) = Failed (URLError reason) ->
      query_range self query hours_ago step_seconds limit direction n
      = (Raise (Exc RuntimeError (unreachable_message reason)
                  (Some (URLError reason))), n'))
  /\ (forall e,
      urlopen request (timeout self) = Raised e ->
      query_range self query hours_ago step_seconds limit direction n
      = (Raise e, n'))
  /\ (forall code body code' body',
      http_error_message code body = http_error_message code' body' ->
      code = code' /\ body = body')
  /\ (forall code body reason,
      http_error_message code body <> unreachable_message reason).
Proof.
  intros Hrange Hheaders request. repeat apply conj.
  3: { intros e Hopen. unfold query_range.
       unfold mbind, M_bind, mbindM. rewrite Hrange. unfold lift.
       rewrite Hheaders. unfold fetch. simpl. fold request. by rewrite Hopen. }
  - intros code body Hopen. unfold query_range.
    unfold mbind, M_bind, mbindM. rewrite Hrange. unfold lift.
    rewrite Hheaders. unfold fetch. simpl. fold request. by rewrite Hopen.
  - intros reason Hopen. unfold query_range.
    unfold mbind, M_bind, mbindM. rewrite Hrange. unfold lift.
    rewrite Hheaders. unfold fetch. simpl. fold request. by rewrite Hopen.
  - apply http_error_message_inj.
  - apply http_error_message_not_unreachable.
Qed.

End ClientClaims.

Example http_error_message_500 :
  http_error_message 500 "internal error"
  = "Loki query failed with HTTP 500: internal error".
Proof. reflexivity. Qed.

Lemma query_range_failures_witness :
  query_range (H := Sample.library false 1793750400123457
                      (Failed (HTTPError 500 "internal error")))
    (mkLokiClient "http://loki:3100" (mkLokiAuth None None) (PyFloat (FFin 10)))
    "{source=nextflow}" (PyInt 72) (PyFloat (FFin 60)) None "BACKWARD" 0%nat
  = (Raise (Exc RuntimeError (http_error_message 500 "internal error")
              (Some (HTTPError 500 "internal error"))), 1%nat).
Proof.
  apply (proj1 (query_range_failures
                  (H := Sample.library false 1793750400123457
                          (Failed (HTTPError 500 "internal error")))
                  (mkLokiClient "http://loki:3100" (mkLokiAuth None None)
                     (PyFloat (FFin 10)))
                  "{source=nextflow}" (PyInt 72) (PyFloat (FFin 60)) None
                  "BACKWARD" 0%nat 1%nat
                  1793491200123457024 1793750400123457024 ∅
                  ltac:(vm_compute; reflexivity) eq_refl)).
  reflexivity.
Defined.

(** C3, as stated, fails.  The error raised for a response with status
    500 and the error raised for a failure to connect are of the same
    class; and a timeout while the body is read is not turned into an
    error of that class at all: the [TimeoutError] leaves [query_range]
    as it is. *)
Lemma query_range_failures_same_class :
  (exists e1 e2,
    (query_range (H := Sample.library false 1793750400123457
                         (Failed (HTTPError 500 "internal error")))
       (mkLokiClient "http://loki:3100" (mkLokiAuth None None) (PyFloat (FFin 10)))
       "{source=nextflow}" (PyInt 72) (PyFloat (FFin 60)) None "BACKWARD" 0%nat).1
    = Raise e1
    /\ (query_range (H := Sample.library false 1793750400123457
                            (Failed (URLError "timed out")))
          (mkLokiClient "http://loki:3100" (mkLokiAuth None None) (PyFloat (FFin 10)))
          "{source=nextflow}" (PyInt 72) (PyFloat (FFin 60)) None "BACKWARD" 0%nat).1
       = Raise e2
    /\ exc_type e1 = exc_type e2)
  /\ (query_range (H := Sample.library false 1793750400123457
                          (Raised (Exc TimeoutError "The read operation timed out"
                                     None)))
        (mkLokiClient "http://loki:3100" (mkLokiAuth None None) (PyFloat (FFin 10)))
        "{source=nextflow}" (PyInt 72) (PyFloat (FFin 60)) None "BACKWARD" 0%nat).1
     = Raise (Exc TimeoutError "The read operation timed out" None).
Proof.
  split.
  - eexists _, _. repeat apply conj; [vm_compute; reflexivity..|reflexivity].
  - vm_compute. reflexivity.
Qed.

(** ** The stream flattener *)

Section Flattener.

Lemma as_pair_Some entry t r : as_pair entry = Some (t, r) <-> entry = JArr [t; r].
Proof.
  split; [| intros ->; reflexivity].
  destruct entry as [| | | | |items|]; try discriminate.
  destruct items as [|a [|b [|c l]]]; simpl; congruence.
Qed.

Lemma entry_record_pair labels t r :
  entry_record labels (JArr [t; r]) = Some (FlatRecord t labels r).
Proof. reflexivity. Qed.

Lemma entry_record_None labels entry :
  entry_record labels entry = None <-> (forall t r, entry <> JArr [t; r]).
Proof.
  unfold entry_record. split.
  - intros H t r ->. discriminate.
  - intros H. destruct (as_pair entry) as [[t r]|] eqn:E; [|done].
    apply as_pair_Some in E. destruct (H _ _ E).
Qed.

Lemma inner_loop labels entries acc :
  for_each (fun result entry =>
      match as_pair entry with
      | None => Ok result
      | Some (timestamp, record) =>
          Ok (result ++ [FlatRecord timestamp labels record])
      end) entries acc
  = Ok (acc ++ omap (entry_record labels) entries).
Proof.
  revert acc. induction entries as [|e entries IH]; intros acc; simpl.
  - by rewrite app_nil_r.
  - unfold entry_record at 1. destruct (as_pair e) as [[t r]|]; simpl.
    + rewrite IH. by rewrite <- app_assoc.
    + apply IH.
Qed.

Lemma outer_loop streams acc :
  Forall (fun s => is_ok (py_iter (values_of s)) = true) streams ->
  for_each (fun result stream =>
      let labels := labels_of stream in
      let values := values_of stream in
      value_list ← py_iter values;
      for_each (fun result entry =>
          match as_pair entry with
          | None => Ok result
          | Some (timestamp, record) =>
              Ok (result ++ [FlatRecord timestamp labels record])
          end) value_list result) streams acc
  = Ok (acc ++ flat_map stream_records streams).
Proof.
  intros Hok. revert acc.
  induction Hok as [|s streams Hs _ IH]; intros acc; simpl.
  - by rewrite app_nil_r.
  - unfold stream_records at 1, items_of.
    destruct (py_iter (values_of s)) as [vs|e]; [|discriminate]. simpl.
    rewrite inner_loop. simpl. rewrite IH. by rewrite <- app_assoc.
Qed.

Lemma outer_loop_inv streams acc out :
  for_each (fun result stream =>
      let labels := labels_of stream in
      let values := values_of stream in
      value_list ← py_iter values;
      for_each (fun result entry =>
          match as_pair entry with
          | None => Ok result
          | Some (timestamp, record) =>
              Ok (result ++ [FlatRecord timestamp labels record])
          end) value_list result) streams acc = Ok out ->
  Forall (fun s => is_ok (py_iter (values_of s)) = true) streams.
Proof.
  revert acc. induction streams as [|s streams IH]; intros acc H; [constructor|].
  simpl in H. destruct (py_iter (values_of s)) as [vs|e] eqn:E; [|discriminate].
  simpl in H. rewrite inner_loop in H. simpl in H.
  constructor; [by rewrite E | eauto].
Qed.

(** The flattener as a function of the streams it iterates over. *)
Lemma parse_streams_flat_map data streams :
  py_iter (streams_of (data_block_of data)) = Ok streams ->
  Forall (fun s => is_ok (py_iter (values_of s)) = true) streams ->
  _parse_streams data = Ok (flat_map stream_records streams).
Proof.
  intros Hs Hok. unfold _parse_streams. rewrite Hs. simpl.
  by rewrite outer_loop.
Qed.

Lemma parse_streams_Ok_inv data out :
  _parse_streams data = Ok out ->
  exists streams,
    py_iter (streams_of (data_block_of data)) = Ok streams
    /\ Forall (fun s => is_ok (py_iter (values_of s)) = true) streams
    /\ out = flat_map stream_records streams.
Proof.
  intros H. unfold _parse_streams in H.
  destruct (py_iter (streams_of (data_block_of data))) as [ss|e] eqn:E;
    [|discriminate].
  simpl in H. exists ss. split; [done|].
  pose proof (outer_loop_inv _ _ _ H) as Hok. split; [done|].
  rewrite outer_loop in H by done. by injection H as <-.
Qed.

End Flattener.

Section FlattenerClaims.

Lemma stream_records_wire s :
  stream_records (wire_stream s)
  = map (fun v => FlatRecord v.1 s.1 v.2) s.2.
Proof.
  destruct s as [labels vs].
  unfold stream_records, items_of, values_of, labels_of, wire_stream. simpl.
  induction vs as [|[t p] vs IH]; [done|]. cbn. by rewrite IH.
Qed.




Lemma parse_streams_wire (streams : list (json * list (json * json))) :
  _parse_streams (wire_response streams)
  = Ok (flat_map (fun s => map (fun v => FlatRecord v.1 s.1 v.2) s.2) streams).
Proof.
  rewrite (parse_streams_flat_map _ (map wire_stream streams)).
  - f_equal. induction streams as [|s streams IH]; simpl; [done|].
    by rewrite stream_records_wire, IH.
  - reflexivity.
  - apply Forall_forall. intros s Hs.
    apply list_elem_of_fmap in Hs as (x & -> & _). reflexivity.
Qed.

(** C6. Whenever the flattener returns, its output is the concatenation
    over the streams, in the order they are iterated, of the records of
    each stream's two-element entries, in the order of the entries; the
    record of an entry [[t, p]] of a stream has [t] as its timestamp, the
    stream's label value as its labels and [p] as its payload.  For a
    body in the shape of the wire contract this is the list of all
    pairs, stream after stream. *)
Theorem parse_streams_order :
  (forall data out,
      _parse_streams data = Ok out ->
      exists streams,
        py_iter (streams_of (data_block_of data)) = Ok streams
        /\ out = flat_map (fun s =>
                   omap (entry_record (labels_of s)) (items_of s)) streams)
  /\ (forall labels t p,
      entry_record labels (JArr [t; p]) = Some (FlatRecord t labels p))
  /\ (forall streams : list (json * list (json * json)),
      _parse_streams (wire_response streams)
      = Ok (flat_map (fun s => map (fun v => FlatRecord v.1 s.1 v.2) s.2)
              streams)).
Proof.
  repeat apply conj.
  - intros data out H. apply parse_streams_Ok_inv in H as (ss & H1 & _ & H2).
    by exists ss.
  - reflexivity.
  - apply parse_streams_wire.
Qed.

End FlattenerClaims.



(** A response without streams; and a stream with one malformed entry
    among well-formed ones. *)
Example parse_streams_no_stream : _parse_streams (wire_response []) = Ok [].
Proof. reflexivity. Qed.

Example parse_streams_malformed_entry :
  _parse_streams
    (JObj [("data", JObj [("result",
       JArr [JObj [("stream", JObj [("stream", JStr "stdout")]);
                   ("values", JArr [JArr [JStr "1"; JStr "a"];
                                    JArr [JStr "2"];
                                    JArr [JStr "3"; JStr "c"]])]])])])
  = Ok [FlatRecord (JStr "1") (JObj [("stream", JStr "stdout")]) (JStr "a");
        FlatRecord (JStr "3") (JObj [("stream", JStr "stdout")]) (JStr "c")].
Proof. reflexivity. Qed.

Lemma parse_streams_order_witness :
  exists streams,
    py_iter (streams_of (data_block_of
      (wire_response [(JObj [("stream", JStr "stderr")],
                       [(JStr "20", JStr "b1"); (JStr "10", JStr "b2")]);
                      (JObj [("stream", JStr "stdout")],
                       [(JStr "5", JStr "a1")])]))) = Ok streams
    /\ [FlatRecord (JStr "20") (JObj [("stream", JStr "stderr")]) (JStr "b1");
        FlatRecord (JStr "10") (JObj [("stream", JStr "stderr")]) (JStr "b2");
        FlatRecord (JStr "5") (JObj [("stream", JStr "stdout")]) (JStr "a1")]
       = flat_map (fun s => omap (entry_record (labels_of s)) (items_of s)) streams.
Proof.
  destruct parse_streams_order as (H1 & _ & _).
  apply H1. reflexivity.
Defined.

(** ** The consumer: decoding and merging *)

Lemma result_items_inj (r : result (list row)) (rows : list row) :
  result_items r = Some (map map_to_list rows) -> r = Ok rows.
Proof.
  destruct r as [rows'|e]; [|discriminate]. simpl. intros [= E]. f_equal.
  revert rows E. induction rows' as [|a rows' IH]; intros [|b rows] E;
    try discriminate; [done|].
  injection E as E1 E2. f_equal; [|by apply IH].
  apply (map_to_list_inj (M := gmap string)). by rewrite E1.
Qed.

Section Merge.
Context `{Library}.

(** C8. Let [json.loads] read the text [{"msg":"ok"}] as the dict with
    the one item [msg: "ok"].  Flattening the response whose single
    stream has labels [{"stream": "stdout"}] and, as its single value, the
    pair of the timestamp string ["1700000000000000000"] and that text,
    then merging each record as the consumer does, gives one normalized
    record, in which [stream] is ["stdout"], [msg] is ["ok"] and
    [timestamp] is the timestamp of 1700000000000000000 nanoseconds after
    the epoch. *)
Theorem flatten_merge_round_trip :
  json_loads msg_ok_text = Ok (JObj [("msg", JStr "ok")]) ->
  let r : row :=
    {[ "timestamp" := CTimestamp 1700000000000000000;
       "stream" := CJson (JStr "stdout");
       "msg" := CJson (JStr "ok") ]} in
  (raw ← _parse_streams
           (wire_response
              [(JObj [("stream", JStr "stdout")],
                [(JStr "1700000000000000000", JStr msg_ok_text)])]);
   normalize_all raw) = Ok [r]
  /\ r !! "stream" = Some (CJson (JStr "stdout"))
  /\ r !! "msg" = Some (CJson (JStr "ok"))
  /\ r !! "timestamp" = Some (CTimestamp 1700000000000000000).
Proof.
  intros Hloads r. split.
  - rewrite parse_streams_wire.
    cbn -[msg_ok_text normalize_record]. unfold normalize_record.
    cbn -[msg_ok_text]. rewrite Hloads.
    apply result_items_inj. vm_compute. reflexivity.
  - repeat split; vm_compute; reflexivity.
Qed.

End Merge.

Lemma flatten_merge_round_trip_witness :
  (raw ← _parse_streams
           (wire_response
              [(JObj [("stream", JStr "stdout")],
                [(JStr "1700000000000000000", JStr msg_ok_text)])]);
   normalize_all (H := Sample.library false 0 (Response "")) raw)
  = Ok [ {[ "timestamp" := CTimestamp 1700000000000000000;
            "stream" := CJson (JStr "stdout");
            "msg" := CJson (JStr "ok") ]} ].
Proof.
  apply (flatten_merge_round_trip (H := Sample.library false 0 (Response ""))).
  vm_compute. reflexivity.
Defined.

(** ** The indirect sort *)

Lemma datetime_less_asym a b :
  datetime_less a b = true -> datetime_less b a = false.
Proof.
  unfold datetime_less.
  destruct (Z.eqb_spec a NPY_DATETIME_NAT), (Z.eqb_spec b NPY_DATETIME_NAT);
    try done; lia.
Qed.

Lemma datetime_less_trans a b c :
  datetime_less b a = false -> datetime_less c b = false ->
  datetime_less c a = false.
Proof.
  unfold datetime_less.
  destruct (Z.eqb_spec a NPY_DATETIME_NAT), (Z.eqb_spec b NPY_DATETIME_NAT),
    (Z.eqb_spec c NPY_DATETIME_NAT); try done; lia.
Qed.

Lemma strongly_sorted_lookup {A} `{!Inhabited A} (R : relation A) (l : list A) :
  (forall i j, (i < j < length l)%nat -> R (l !!! i) (l !!! j)) ->
  StronglySorted R l.
Proof.
  induction l as [|x l IH]; intros Hl; constructor.
  - apply IH. intros i j Hij. apply (Hl (S i) (S j)). simpl. lia.
  - apply Forall_forall. intros y [j Hj]%list_elem_of_lookup.
    pose proof (lookup_lt_Some _ _ _ Hj).
    rewrite <- (list_lookup_total_correct _ _ _ Hj).
    apply (Hl O (S j)). simpl. lia.
Qed.

Lemma strongly_sorted_reverse {A} (R : relation A) (l : list A) :
  StronglySorted (flip R) l -> StronglySorted R (reverse l).
Proof.
  induction 1 as [|x l _ IH Hx]; [constructor|].
  rewrite reverse_cons. apply StronglySorted_app. split_and!.
  - intros y z Hy ->%list_elem_of_singleton.
    rewrite Forall_forall in Hx. apply Hx. by apply elem_of_reverse.
  - done.
  - repeat constructor.
Qed.

Section IndirectSortProofs.
Variable v : list Z.

Lemma less_le_at x y : less_at v x y = true -> le_at v x y.
Proof. apply datetime_less_asym. Qed.

Lemma le_at_trans x y z : le_at v x y -> le_at v y z -> le_at v x z.
Proof. unfold le_at, less_at. intros H1 H2. by eapply datetime_less_trans. Qed.

Lemma le_at_refl x : le_at v x x.
Proof.
  unfold le_at. destruct (less_at v x x) eqn:E; [|done].
  pose proof (less_le_at _ _ E) as E'. unfold le_at in E'. congruence.
Qed.

Lemma swap_length i j a : length (swap i j a) = length a.
Proof. unfold swap. by rewrite !length_insert. Qed.

Lemma swap_perm i j a :
  (i < length a)%nat -> (j < length a)%nat -> swap i j a ≡ₚ a.
Proof.
  intros Hi Hj. unfold swap.
  apply Permutation_insert_swap; by apply list_lookup_lookup_total_lt.
Qed.

Lemma swap_lookup i j a k :
  (i < length a)%nat -> (j < length a)%nat ->
  swap i j a !!! k
  = if decide (k = j) then a !!! i else if decide (k = i) then a !!! j else a !!! k.
Proof.
  intros Hi Hj. unfold swap.
  destruct (decide (k = j)) as [->|].
  - by rewrite list_lookup_total_insert_eq by (by rewrite length_insert).
  - rewrite list_lookup_total_insert_ne by done.
    destruct (decide (k = i)) as [->|].
    + by rewrite list_lookup_total_insert_eq.
    + by rewrite list_lookup_total_insert_ne.
Qed.

Lemma swap_lookup_l i j a :
  (i < length a)%nat -> (j < length a)%nat -> swap i j a !!! i = a !!! j.
Proof.
  intros Hi Hj. rewrite swap_lookup by done.
  destruct (decide (i = j)) as [->|]; [done|]. by rewrite decide_True.
Qed.

Lemma swap_lookup_r i j a :
  (i < length a)%nat -> (j < length a)%nat -> swap i j a !!! j = a !!! i.
Proof. intros Hi Hj. rewrite swap_lookup by done. by rewrite decide_True. Qed.

Lemma swap_lookup_ne i j a k :
  (i < length a)%nat -> (j < length a)%nat -> k <> i -> k <> j ->
  swap i j a !!! k = a !!! k.
Proof. intros Hi Hj Hki Hkj. rewrite swap_lookup by done. by rewrite !decide_False. Qed.

(** *** The insertion sort *)

Lemma insert_back_perm vi sorted : insert_back v vi sorted ≡ₚ vi :: sorted.
Proof.
  induction sorted as [|pk rest IH]; simpl; [done|].
  destruct (less_at v vi pk); [|done].
  rewrite IH. apply perm_swap.
Qed.

Lemma insert_back_sorted vi sorted :
  StronglySorted (flip (le_at v)) sorted ->
  StronglySorted (flip (le_at v)) (insert_back v vi sorted).
Proof.
  induction 1 as [|pk rest Hrest IH Hpk]; simpl; [repeat constructor|].
  destruct (less_at v vi pk) eqn:E.
  - constructor; [done|].
    rewrite insert_back_perm. constructor; [|done].
    by apply less_le_at.
  - constructor; [by constructor|].
    constructor; [done|].
    eapply Forall_impl; [exact Hpk|].
    intros y Hy. unfold flip in *. by eapply le_at_trans.
Qed.

Lemma insertion_sort_spec a :
  insertion_sort v a ≡ₚ a /\ StronglySorted (le_at v) (insertion_sort v a).
Proof.
  unfold insertion_sort.
  assert (forall sorted,
    StronglySorted (flip (le_at v)) sorted ->
    fold_left (fun sorted vi => insert_back v vi sorted) a sorted ≡ₚ a ++ sorted
    /\ StronglySorted (flip (le_at v))
         (fold_left (fun sorted vi => insert_back v vi sorted) a sorted)) as Hfold.
  { induction a as [|x a IH]; intros sorted Hs; simpl; [done|].
    destruct (IH _ (insert_back_sorted x _ Hs)) as [Hp Hsorted].
    split; [|done].
    by rewrite Hp, insert_back_perm, Permutation_middle. }
  destruct (Hfold [] ltac:(constructor)) as [Hp Hs].
  split.
  - by rewrite reverse_Permutation, Hp, app_nil_r.
  - by apply strongly_sorted_reverse.
Qed.

(** *** The partition *)

Lemma run_less_spec vp l :
  (run_less v vp l <= length l)%nat
  /\ (forall k, (k < run_less v vp l)%nat -> less_at v (l !!! k) vp = true)
  /\ ((run_less v vp l < length l)%nat ->
      less_at v (l !!! run_less v vp l) vp = false).
Proof.
  induction l as [|x l (IH1 & IH2 & IH3)]; simpl.
  - split_and!; intros; lia.
  - destruct (less_at v x vp) eqn:E; simpl.
    + split_and!; [lia| |intros; apply IH3; lia].
      intros [|k] Hk; [done|]. simpl. apply IH2. lia.
    + split_and!; [lia|intros; lia|done].
Qed.

Lemma run_less_bound vp l k :
  (k < length l)%nat -> less_at v (l !!! k) vp = false ->
  (run_less v vp l <= k)%nat.
Proof.
  intros Hk Hstop. destruct (run_less_spec vp l) as (_ & Hrun & _).
  destruct (decide (run_less v vp l <= k)%nat); [done|].
  rewrite Hrun in Hstop by lia. done.
Qed.

Lemma run_greater_spec vp l :
  (run_greater v vp l <= length l)%nat
  /\ (forall k, (k < run_greater v vp l)%nat -> less_at v vp (l !!! k) = true)
  /\ ((run_greater v vp l < length l)%nat ->
      less_at v vp (l !!! run_greater v vp l) = false).
Proof.
  induction l as [|x l (IH1 & IH2 & IH3)]; simpl.
  - split_and!; intros; lia.
  - destruct (less_at v vp x) eqn:E; simpl.
    + split_and!; [lia| |intros; apply IH3; lia].
      intros [|k] Hk; [done|]. simpl. apply IH2. lia.
    + split_and!; [lia|intros; lia|done].
Qed.

Lemma run_greater_bound vp l k :
  (k < length l)%nat -> less_at v vp (l !!! k) = false ->
  (run_greater v vp l <= k)%nat.
Proof.
  intros Hk Hstop. destruct (run_greater_spec vp l) as (_ & Hrun & _).
  destruct (decide (run_greater v vp l <= k)%nat); [done|].
  rewrite Hrun in Hstop by lia. done.
Qed.

Lemma reverse_take_lookup (a : list nat) pj k :
  (pj <= length a)%nat -> (k < pj)%nat ->
  reverse (take pj a) !!! k = a !!! (pj - 1 - k)%nat.
Proof.
  intros Hpj Hk. rewrite !list_lookup_total_alt.
  rewrite reverse_lookup by (rewrite length_take; lia).
  rewrite length_take, lookup_take_lt by lia.
  do 2 f_equal. lia.
Qed.

Lemma partition_loop_spec fuel vp a pi pj :
  (pj - pi <= fuel)%nat -> (pi < pj)%nat -> (pj + 1 < length a)%nat ->
  (forall k, (k <= pi)%nat -> le_at v (a !!! k) vp) ->
  (forall k, (pj <= k < length a)%nat -> le_at v vp (a !!! k)) ->
  exists a' pi',
    partition_loop v fuel vp a pi pj = (a', pi')
    /\ a' ≡ₚ a /\ length a' = length a
    /\ (pi < pi' <= pj)%nat
    /\ (forall k, (k < pi')%nat -> le_at v (a' !!! k) vp)
    /\ (forall k, (pi' <= k < length a)%nat -> le_at v vp (a' !!! k))
    /\ (forall k, (pj <= k)%nat -> a' !!! k = a !!! k).
Proof.
  revert a pi pj. induction fuel as [|fuel IH]; intros a pi pj Hfuel Hlt Hpj Hlow Hhigh;
    [lia|].
  cbn [partition_loop].
  set (up := run_less v vp (drop (pi + 1) a)).
  set (down := run_greater v vp (reverse (take pj a))).
  destruct (run_less_spec vp (drop (pi + 1) a)) as (_ & Hup & Hup_stop).
  destruct (run_greater_spec vp (reverse (take pj a))) as (_ & Hdown & Hdown_stop).
  fold up in Hup, Hup_stop. fold down in Hdown, Hdown_stop.
  assert (up <= pj - (pi + 1))%nat as Hup_le.
  { apply run_less_bound.
    - rewrite length_drop. lia.
    - rewrite lookup_total_drop.
      replace (pi + 1 + (pj - (pi + 1)))%nat with pj by lia.
      apply Hhigh. lia. }
  assert (down <= pj - 1 - pi)%nat as Hdown_le.
  { apply run_greater_bound.
    - rewrite length_reverse, length_take. lia.
    - rewrite reverse_take_lookup by lia.
      replace (pj - 1 - (pj - 1 - pi))%nat with pi by lia.
      apply Hlow. lia. }
  assert (forall k, (pi < k < pi + 1 + up)%nat -> less_at v (a !!! k) vp = true)
    as Hbelow.
  { intros k Hk. specialize (Hup (k - (pi + 1))%nat ltac:(lia)).
    rewrite lookup_total_drop in Hup.
    by replace (pi + 1 + (k - (pi + 1)))%nat with k in Hup by lia. }
  assert (less_at v (a !!! (pi + 1 + up)%nat) vp = false) as Hpi_stop.
  { rewrite <- lookup_total_drop. apply Hup_stop. rewrite length_drop. lia. }
  assert (forall k, (pj - 1 - down < k < pj)%nat -> less_at v vp (a !!! k) = true)
    as Habove.
  { intros k Hk. specialize (Hdown (pj - 1 - k)%nat ltac:(lia)).
    rewrite reverse_take_lookup in Hdown by lia.
    by replace (pj - 1 - (pj - 1 - k))%nat with k in Hdown by lia. }
  assert (less_at v vp (a !!! (pj - 1 - down)%nat) = false) as Hpj_stop.
  { rewrite <- reverse_take_lookup by lia.
    apply Hdown_stop. rewrite length_reverse, length_take. lia. }
  set (pi' := (pi + 1 + up)%nat) in *.
  set (pj' := (pj - 1 - down)%nat) in *.
  destruct (Nat.leb_spec pj' pi') as [Hcross|Hcross].
  - exists a, pi'. split_and!; try done; try lia.
    + intros k Hk. destruct (decide (k <= pi)%nat); [by apply Hlow|].
      apply less_le_at, Hbelow. lia.
    + intros k Hk. destruct (decide (pj <= k)%nat); [apply Hhigh; lia|].
      destruct (decide (k = pi')) as [->|]; [exact Hpi_stop|].
      apply less_le_at, Habove. lia.
  - destruct (IH (swap pi' pj' a) pi' pj') as (a' & pi'' & Heq & Hperm & Hlen & Hrange & Hl & Hh & Hframe).
    + lia.
    + done.
    + rewrite swap_length. lia.
    + intros k Hk. rewrite swap_lookup by lia.
      destruct (decide (k = pj')); [lia|].
      destruct (decide (k = pi')); [exact Hpj_stop|].
      destruct (decide (k <= pi)%nat); [by apply Hlow|].
      apply less_le_at, Hbelow. lia.
    + intros k Hk. rewrite swap_length in Hk. rewrite swap_lookup by lia.
      destruct (decide (k = pj')); [exact Hpi_stop|].
      destruct (decide (k = pi')); [lia|].
      destruct (decide (pj <= k)%nat); [apply Hhigh; lia|].
      apply less_le_at, Habove. lia.
    + exists a', pi''. rewrite swap_length in *. split_and!; try done; try lia.
      * by rewrite Hperm, swap_perm by lia.
      * intros k Hk. rewrite Hframe by lia. rewrite swap_lookup by lia.
        destruct (decide (k = pj')); [lia|].
        destruct (decide (k = pi')); [lia|done].
Qed.

Lemma swap_if_less_spec i j a :
  (i < length a)%nat -> (j < length a)%nat ->
  swap_if_less v i j a ≡ₚ a
  /\ length (swap_if_less v i j a) = length a
  /\ le_at v (swap_if_less v i j a !!! j) (swap_if_less v i j a !!! i)
  /\ (forall k, k <> i -> k <> j -> swap_if_less v i j a !!! k = a !!! k)
  /\ ((swap_if_less v i j a !!! i = a !!! i /\ swap_if_less v i j a !!! j = a !!! j)
      \/ (swap_if_less v i j a !!! i = a !!! j /\ swap_if_less v i j a !!! j = a !!! i)).
Proof.
  intros Hi Hj. unfold swap_if_less.
  destruct (less_at v (a !!! i) (a !!! j)) eqn:E.
  - split_and!.
    + by apply swap_perm.
    + apply swap_length.
    + rewrite !swap_lookup by done.
      rewrite decide_True by done.
      destruct (decide (i = j)) as [->|]; [apply le_at_refl|].
      rewrite decide_True by done. by apply less_le_at.
    + intros k Hki Hkj. rewrite swap_lookup by done.
      by rewrite !decide_False by done.
    + right. rewrite !swap_lookup by done.
      rewrite (decide_True (P := j = j)) by done.
      destruct (decide (i = j)) as [->|]; [done|].
      by rewrite decide_True by done.
  - split_and!; try done. left. done.
Qed.

Lemma partition_spec a :
  (SMALL_QUICKSORT < length a - 1)%nat ->
  exists a' pi,
    partition v a = (a', pi)
    /\ a' ≡ₚ a /\ length a' = length a
    /\ (0 < pi)%nat /\ (pi + 1 < length a)%nat
    /\ (forall k, (k < pi)%nat -> le_at v (a' !!! k) (a' !!! pi))
    /\ (forall k, (pi < k < length a)%nat -> le_at v (a' !!! pi) (a' !!! k)).
Proof.
  unfold SMALL_QUICKSORT. intros Hlen. unfold partition.
  set (pr := (length a - 1)%nat).
  set (pm := (pr / 2)%nat).
  assert (0 < pm /\ pm + 1 < pr)%nat as [Hpm0 Hpm1].
  { pose proof (Nat.div_mod_eq pr 2). pose proof (Nat.mod_upper_bound pr 2).
    fold pm in H. subst pr. lia. }
  assert (pr + 1 = length a)%nat as Hpr by (subst pr; lia).
  destruct (swap_if_less_spec pm 0 a ltac:(lia) ltac:(lia))
    as (Hp1 & Hl1 & Ho1 & Hf1 & _).
  set (a1 := swap_if_less v pm 0 a) in *.
  destruct (swap_if_less_spec pr pm a1 ltac:(lia) ltac:(lia))
    as (Hp2 & Hl2 & Ho2 & Hf2 & Hc2).
  set (a2 := swap_if_less v pr pm a1) in *.
  assert (le_at v (a2 !!! 0%nat) (a2 !!! pr)) as H0r.
  { rewrite (Hf2 0%nat) by lia.
    destruct Hc2 as [[E1 E2]|[E1 E2]].
    - eapply le_at_trans; [exact Ho1|]. rewrite <- E2. exact Ho2.
    - rewrite E1. exact Ho1. }
  destruct (swap_if_less_spec pm 0 a2 ltac:(lia) ltac:(lia))
    as (Hp3 & Hl3 & Ho3 & Hf3 & Hc3).
  set (a3 := swap_if_less v pm 0 a2) in *.
  assert (le_at v (a3 !!! pm) (a3 !!! pr)) as Hmr.
  { rewrite (Hf3 pr) by lia.
    destruct Hc3 as [[E1 _]|[E1 _]]; rewrite E1; [exact Ho2|exact H0r]. }
  set (vp := a3 !!! pm).
  set (a4 := swap pm (pr - 1) a3).
  assert (length a4 = length a) as Hl4 by (subst a4; rewrite swap_length; lia).
  destruct (partition_loop_spec (length a4) vp a4 0 (pr - 1))
    as (a5 & pi & Heq & Hp5 & Hl5 & Hrange & Hlow & Hhigh & Hframe).
  - lia.
  - lia.
  - lia.
  - intros k Hk. assert (k = 0%nat) as -> by lia.
    subst a4. rewrite swap_lookup by lia.
    rewrite !decide_False by lia. exact Ho3.
  - intros k Hk. subst a4. rewrite swap_lookup by lia.
    destruct (decide (k = (pr - 1)%nat)); [apply le_at_refl|].
    rewrite decide_False by lia.
    replace k with pr by lia. exact Hmr.
  - rewrite Heq. exists (swap pi (pr - 1) a5), pi.
    assert (a5 !!! (pr - 1)%nat = vp) as Hpivot.
    { rewrite Hframe by lia. subst a4. rewrite swap_lookup by lia.
      by rewrite decide_True by done. }
    split_and!; try done; try lia.
    + rewrite swap_perm by lia. rewrite Hp5. subst a4.
      rewrite swap_perm by lia. by rewrite Hp3, Hp2, Hp1.
    + rewrite swap_length. lia.
    + intros k Hk. rewrite swap_lookup_l, Hpivot by lia.
      rewrite swap_lookup_ne by lia. apply Hlow. lia.
    + intros k Hk. rewrite swap_lookup_l, Hpivot by lia.
      destruct (decide (k = (pr - 1)%nat)) as [->|].
      * rewrite swap_lookup_r by lia. apply Hhigh. lia.
      * rewrite swap_lookup_ne by lia. apply Hhigh. lia.
Qed.

(** *** The heap sort *)

Lemma hole_fill a tmp i n lo :
  (1 <= lo <= i)%nat -> (i <= n)%nat -> (n < length a)%nat ->
  (forall p c, (lo <= p)%nat -> (c <= n)%nat -> child p c -> p <> i -> c <> i ->
     le_at v (a !!! c) (a !!! p)) ->
  (forall p, (lo <= p)%nat -> child p i -> le_at v tmp (a !!! p)) ->
  (forall c, child i c -> (c <= n)%nat -> le_at v (a !!! c) tmp) ->
  sifted v a (<[i:=tmp]> a) tmp i n lo.
Proof.
  intros Hlo Hi Hn H1 H2 Hc. unfold sifted. split_and!.
  - apply length_insert.
  - done.
  - intros p c Hp Hcn Hpc.
    assert (p <> c) by (destruct Hpc; lia).
    destruct (decide (c = i)) as [->|].
    + rewrite list_lookup_total_insert_eq by lia.
      rewrite list_lookup_total_insert_ne by done. by apply H2.
    + rewrite (list_lookup_total_insert_ne _ i c) by done.
      destruct (decide (p = i)) as [->|].
      * rewrite list_lookup_total_insert_eq by lia. by apply Hc.
      * rewrite list_lookup_total_insert_ne by done. by apply H1.
  - intros k Hk. apply list_lookup_total_insert_ne. lia.
  - intros P Htmp Hall k Hk. destruct (decide (k = i)) as [->|].
    + by rewrite list_lookup_total_insert_eq by lia.
    + rewrite list_lookup_total_insert_ne by done. by apply Hall.
Qed.

Lemma sift_down_spec fuel : forall a tmp i n lo,
  (1 <= lo <= i)%nat -> (i <= n)%nat -> (n < length a)%nat ->
  (n < fuel + (i + i))%nat ->
  (forall p c, (lo <= p)%nat -> (c <= n)%nat -> child p c -> p <> i -> c <> i ->
     le_at v (a !!! c) (a !!! p)) ->
  (forall p, (lo <= p)%nat -> child p i -> le_at v tmp (a !!! p)) ->
  (forall p c, (lo <= p)%nat -> child p i -> child i c -> (c <= n)%nat ->
     le_at v (a !!! c) (a !!! p)) ->
  sifted v a (sift_down v fuel a tmp i (i + i) n) tmp i n lo.
Proof.
  induction fuel as [|fuel IH]; intros a tmp i n lo Hlo Hi Hn Hfuel H1 H2 H3;
    cbn [sift_down].
  { apply hole_fill; try done. intros c [-> | ->] Hc; lia. }
  destruct (Nat.leb_spec (i + i) n) as [Hj|Hj];
    [|apply hole_fill; try done; intros c [-> | ->] Hc; lia].
  set (j := if ((i + i <? n)%nat && less_at v (a !!! (i + i)%nat) (a !!! (i + i + 1)%nat))
            then (i + i + 1)%nat else (i + i)%nat).
  assert (child i j /\ (j <= n)%nat
          /\ forall c, child i c -> (c <= n)%nat -> le_at v (a !!! c) (a !!! j))
    as (Hij & Hjn & Hmax).
  { subst j. destruct (Nat.ltb_spec (i + i) n) as [Hlt|Hge]; simpl.
    - destruct (less_at v (a !!! (i + i)%nat) (a !!! (i + i + 1)%nat)) eqn:E.
      + split_and!; [by right|lia|].
        intros c [-> | ->] _; [by apply less_le_at|apply le_at_refl].
      + split_and!; [by left|lia|].
        intros c [-> | ->] _; [apply le_at_refl|exact E].
    - split_and!; [by left|lia|].
      intros c [-> | ->] Hc; [apply le_at_refl|lia]. }
  assert (i <> j) as Hneq by (destruct Hij; lia).
  assert (i < j)%nat as Hlt by (destruct Hij; lia).
  destruct (less_at v tmp (a !!! j)) eqn:Etmp.
  - (* the entry below moves up, the hole moves down *)
    destruct (IH (<[i:=a !!! j]> a) tmp j n lo) as (Hlen & Hperm & Hheap & Hframe & Hpres).
    + destruct Hij; lia.
    + done.
    + by rewrite length_insert.
    + destruct Hij; lia.
    + intros p c Hp Hc Hpc Hpj Hcj.
      assert (p <> c) by (destruct Hpc; lia).
      destruct (decide (c = i)) as [->|].
      * rewrite list_lookup_total_insert_eq by lia.
        rewrite list_lookup_total_insert_ne by done.
        by apply (H3 p j).
      * rewrite (list_lookup_total_insert_ne _ i c) by done.
        destruct (decide (p = i)) as [->|].
        -- rewrite list_lookup_total_insert_eq by lia. by apply Hmax.
        -- rewrite list_lookup_total_insert_ne by done. by apply H1.
    + intros p Hp Hpj.
      assert (p = i) as -> by (destruct Hpj, Hij; lia).
      rewrite list_lookup_total_insert_eq by lia. by apply less_le_at.
    + intros p c Hp Hpj Hjc Hc.
      assert (p = i) as -> by (destruct Hpj, Hij; lia).
      rewrite list_lookup_total_insert_eq by lia.
      rewrite list_lookup_total_insert_ne by (destruct Hjc, Hij; lia).
      apply H1; try done; destruct Hjc, Hij; lia.
    + unfold sifted. rewrite length_insert in Hlen. split_and!; try done.
      * rewrite Hperm.
        rewrite <- (list_insert_insert_eq a i (a !!! j) tmp).
        apply Permutation_insert_swap.
        -- apply list_lookup_insert_eq. lia.
        -- rewrite list_lookup_insert_ne by done.
           apply list_lookup_lookup_total_lt. lia.
      * intros k Hk. rewrite Hframe by (destruct Hij; lia).
        apply list_lookup_total_insert_ne. lia.
      * intros P Htmp Hall. apply Hpres; [done|].
        intros k Hk Hkj. destruct (decide (k = i)) as [->|].
        -- rewrite list_lookup_total_insert_eq by lia. apply Hall; [lia|done].
        -- rewrite list_lookup_total_insert_ne by done. by apply Hall.
  - apply hole_fill; try done.
    intros c Hc Hcn. eapply le_at_trans; [by apply Hmax|exact Etmp].
Qed.

Lemma heapify_spec n : forall l a,
  (l + l <= n)%nat -> (n < length a)%nat ->
  heap_on v a (l + 1) n ->
  length (heapify v l a n) = length a
  /\ heapify v l a n ≡ₚ a
  /\ heap_on v (heapify v l a n) 1 n
  /\ (forall k, (k < 1 \/ n < k)%nat -> heapify v l a n !!! k = a !!! k).
Proof.
  induction l as [|l IH]; intros a Hl Hn Hheap; cbn [heapify]; [done|].
  destruct (sift_down_spec n a (a !!! S l) (S l) n (S l))
    as (Hlen & Hperm & Hheap' & Hframe & _); try lia.
  - intros p c Hp Hc Hpc Hpi _. apply Hheap; [lia|done|done].
  - intros p Hp Hpc. destruct Hpc; lia.
  - intros p c Hp Hpc. destruct Hpc; lia.
  - destruct (IH (sift_down v n a (a !!! S l) (S l) (S l + S l) n))
      as (Hlen2 & Hperm2 & Hheap2 & Hframe2); try lia.
    + by replace (l + 1)%nat with (S l) by lia.
    + split_and!; [congruence| |exact Hheap2|].
      * rewrite Hperm2, Hperm. rewrite list_insert_id; [done|].
        apply list_lookup_lookup_total_lt. lia.
      * intros k Hk. rewrite Hframe2 by done. apply Hframe. lia.
Qed.

Lemma heap_root a n k :
  heap_on v a 1 n -> (1 <= k <= n)%nat -> le_at v (a !!! k) (a !!! 1%nat).
Proof.
  intros Hheap. induction (lt_wf k) as [k _ IH]. intros Hk.
  destruct (decide (k = 1%nat)) as [->|]; [apply le_at_refl|].
  pose proof (Nat.div_mod_eq k 2). pose proof (Nat.mod_upper_bound k 2).
  set (p := (k / 2)%nat) in *.
  apply le_at_trans with (a !!! p).
  - apply Hheap; [lia|lia|]. unfold child. lia.
  - apply IH; lia.
Qed.

Lemma sort_heap_step n a :
  sort_heap v (S (S n)) a
  = sort_heap v (S n)
      (sift_down v (S n) (<[S (S n):=a !!! 1%nat]> a) (a !!! S (S n)) 1 2 (S n)).
Proof. reflexivity. Qed.

Lemma sort_heap_spec total : forall n a,
  (n <= total)%nat -> (total < length a)%nat ->
  heap_on v a 1 n ->
  (forall k k', (n < k < k')%nat -> (k' <= total)%nat -> le_at v (a !!! k) (a !!! k')) ->
  (forall k k', (1 <= k <= n)%nat -> (n < k' <= total)%nat ->
     le_at v (a !!! k) (a !!! k')) ->
  length (sort_heap v n a) = length a
  /\ sort_heap v n a ≡ₚ a
  /\ sort_heap v n a !!! 0%nat = a !!! 0%nat
  /\ (forall k k', (1 <= k < k')%nat -> (k' <= total)%nat ->
        le_at v (sort_heap v n a !!! k) (sort_heap v n a !!! k')).
Proof.
  induction n as [|n IH]; intros a Hn Hlen Hheap Htail Hsplit.
  { cbn [sort_heap]. split_and!; try done; intros k k' Hk Hk'; apply Htail; lia. }
  destruct n as [|n].
  { cbn [sort_heap]. split_and!; try done; intros k k' Hk Hk';
    destruct (decide (k = 1%nat)) as [->|]; [apply Hsplit; lia|apply Htail; lia]. }
  rewrite sort_heap_step.
  set (m := S (S n)) in *. set (n' := S n) in *.
  assert (m = S n' /\ n' = S n) as [Hm Hn'] by done.
  set (a1 := <[m:=a !!! 1%nat]> a).
  assert (length a1 = length a) as Hlen1 by apply length_insert.
  assert (forall k, k <> m -> a1 !!! k = a !!! k) as Ha1.
  { intros k Hk. subst a1. by rewrite list_lookup_total_insert_ne. }
  assert (a1 !!! m = a !!! 1%nat) as Ha1m.
  { subst a1. rewrite list_lookup_total_insert_eq; [done|lia]. }
  destruct (sift_down_spec n' a1 (a !!! m) 1 n' 1)
    as (Hlen2 & Hperm2 & Hheap2 & Hframe2 & Hpres2); try lia.
  - intros p c Hp Hc Hpc _ _. rewrite !Ha1 by (destruct Hpc; lia).
    apply Hheap; [done|lia|done].
  - intros p Hp Hpc. destruct Hpc; lia.
  - intros p c Hp Hpc. destruct Hpc; lia.
  - set (a2 := sift_down v n' a1 (a !!! m) 1 (1 + 1) n') in *.
    change (sift_down v n' a1 (a !!! m) 1 2 n') with a2.
    destruct (IH a2) as (Hlen3 & Hperm3 & Hzero3 & Hsorted3); try lia.
    + exact Hheap2.
    + intros k k' Hk Hk'. rewrite !Hframe2 by lia.
      rewrite (Ha1 k') by lia.
      destruct (decide (k = m)) as [->|].
      * rewrite Ha1m. apply Hsplit; lia.
      * rewrite Ha1 by done. apply Htail; lia.
    + intros k k' Hk Hk'.
      rewrite (Hframe2 k') by lia.
      apply (Hpres2 (fun x => le_at v x (a1 !!! k'))); [| |done].
      * destruct (decide (k' = m)) as [->|].
        -- rewrite Ha1m. apply (heap_root a m); [done|lia].
        -- rewrite Ha1 by done. apply Hsplit; lia.
      * intros i Hi _. rewrite (Ha1 i) by lia.
        destruct (decide (k' = m)) as [->|].
        -- rewrite Ha1m. apply (heap_root a m); [done|lia].
        -- rewrite Ha1 by done. apply Hsplit; lia.
    + split_and!; [by rewrite Hlen3, Hlen2| | |exact Hsorted3].
      * rewrite Hperm3, Hperm2. subst a1.
        apply Permutation_insert_swap; apply list_lookup_lookup_total_lt; lia.
      * rewrite Hzero3, Hframe2 by lia. apply Ha1. lia.
Qed.

Lemma aheapsort_spec tosort :
  aheapsort v tosort ≡ₚ tosort /\ StronglySorted (le_at v) (aheapsort v tosort).
Proof.
  unfold aheapsort. set (n := length tosort).
  pose proof (Nat.div_mod_eq n 2). pose proof (Nat.mod_upper_bound n 2).
  destruct (heapify_spec n (n / 2) (O :: tosort))
    as (Hlen1 & Hperm1 & Hheap1 & Hframe1).
  - lia.
  - simpl. lia.
  - intros p c Hp Hc Hpc. destruct Hpc; lia.
  - set (a1 := heapify v (n / 2) (O :: tosort) n) in *.
    destruct (sort_heap_spec n n a1) as (Hlen2 & Hperm2 & Hzero2 & Hsorted2).
    + done.
    + rewrite Hlen1. simpl. lia.
    + done.
    + intros; lia.
    + intros; lia.
    + set (a2 := sort_heap v n a1) in *.
      assert (a2 = O :: drop 1 a2) as Ha2.
      { destruct a2 as [|x a2]; [simpl in Hlen2; rewrite Hlen1 in Hlen2; done|].
        simpl in Hzero2. rewrite Hzero2, Hframe1 by lia. done. }
      split.
      * apply (inj (cons O)). by rewrite <- Ha2, Hperm2, Hperm1.
      * apply strongly_sorted_lookup. intros i j Hij.
        rewrite length_drop, Hlen2, Hlen1 in Hij. simpl in Hij.
        rewrite !lookup_total_drop. apply Hsorted2; lia.
Qed.

(** *** The quicksort *)

Lemma join_sorted a pi left right :
  (pi < length a)%nat ->
  left ≡ₚ take pi a -> right ≡ₚ drop (pi + 1) a ->
  StronglySorted (le_at v) left -> StronglySorted (le_at v) right ->
  (forall k, (k < pi)%nat -> le_at v (a !!! k) (a !!! pi)) ->
  (forall k, (pi < k < length a)%nat -> le_at v (a !!! pi) (a !!! k)) ->
  left ++ a !!! pi :: right ≡ₚ a
  /\ StronglySorted (le_at v) (left ++ a !!! pi :: right).
Proof.
  intros Hpi Hleft Hright Hsl Hsr Hlow Hhigh.
  assert (forall x, x ∈ left -> le_at v x (a !!! pi)) as Hl.
  { intros x. rewrite Hleft, elem_of_take. intros (k & Hk & Hlt).
    rewrite <- (list_lookup_total_correct _ _ _ Hk). by apply Hlow. }
  assert (forall x, x ∈ right -> le_at v (a !!! pi) x) as Hr.
  { intros x. rewrite Hright. intros [k Hk]%list_elem_of_lookup.
    rewrite lookup_drop in Hk. pose proof (lookup_lt_Some _ _ _ Hk).
    rewrite <- (list_lookup_total_correct _ _ _ Hk). apply Hhigh. lia. }
  split.
  - rewrite Hleft, Hright. replace (pi + 1)%nat with (S pi) by lia.
    rewrite take_drop_middle; [done|].
    by apply list_lookup_lookup_total_lt.
  - apply StronglySorted_app. split_and!; [|done|].
    + intros x y Hx [->|Hy]%elem_of_cons; [by apply Hl|].
      eapply le_at_trans; [by apply Hl|by apply Hr].
    + constructor; [done|]. by apply Forall_forall.
Qed.

Lemma aquicksort_loop_spec fuel : forall popped cdepth a,
  (length a < fuel)%nat ->
  aquicksort_loop v fuel popped cdepth a ≡ₚ a
  /\ StronglySorted (le_at v) (aquicksort_loop v fuel popped cdepth a).
Proof.
  induction fuel as [|fuel IH]; intros popped cdepth a Hfuel; [lia|].
  cbn [aquicksort_loop].
  destruct (popped && (cdepth <? 0)); [apply aheapsort_spec|].
  destruct (Nat.ltb_spec SMALL_QUICKSORT (length a - 1)) as [Hlong|_];
    [|apply insertion_sort_spec].
  destruct (partition_spec a Hlong)
    as (a' & pi & -> & Hperm & Hlen & Hpi0 & Hpi1 & Hlow & Hhigh).
  assert (length (take pi a') < fuel)%nat by (rewrite length_take; lia).
  assert (length (drop (pi + 1) a') < fuel)%nat by (rewrite length_drop; lia).
  rewrite <- Hperm. rewrite <- Hlen in Hhigh.
  destruct (pi <? length a' - 1 - pi)%nat;
    apply join_sorted; try done; try lia; apply IH; done.
Qed.

Lemma aquicksort_spec :
  aquicksort v ≡ₚ seq 0 (length v) /\ StronglySorted (le_at v) (aquicksort v).
Proof. apply aquicksort_loop_spec. rewrite length_seq. lia. Qed.
End IndirectSortProofs.

(** [nargsort], ascending, on values none of which is [NaT]. *)
Lemma select_all {A} (items : list Z) (l : list A) :
  Forall (fun x => x <> NPY_DATETIME_NAT) items ->
  length l = length items ->
  select (negb <$> ((fun x => x =? NPY_DATETIME_NAT) <$> items)) l = l
  /\ select ((fun x => x =? NPY_DATETIME_NAT) <$> items) l = [].
Proof.
  intros Hall. revert l. induction Hall as [|x items Hx _ IH]; intros [|y l] Hlen;
    try done.
  rewrite !fmap_cons. cbn [select].
  destruct (Z.eqb_spec x NPY_DATETIME_NAT) as [|_]; [done|]. cbn [negb].
  simpl in Hlen. destruct (IH l ltac:(lia)) as [-> ->]. done.
Qed.

Lemma nargsort_ascending items :
  Forall (fun x => x <> NPY_DATETIME_NAT) items ->
  nargsort true items = aquicksort items.
Proof.
  intros Hall. unfold nargsort.
  destruct (select_all items items Hall eq_refl) as [-> _].
  destruct (select_all items (seq 0 (length items)) Hall) as [-> ->];
    [by rewrite length_seq|].
  rewrite app_nil_r.
  rewrite <- (list_fmap_id (aquicksort items)) at 2.
  apply list_fmap_ext. intros i k Hk. simpl.
  apply list_elem_of_lookup_2 in Hk.
  destruct (aquicksort_spec items) as [Hperm _].
  rewrite Hperm, elem_of_seq in Hk.
  rewrite lookup_total_seq_lt by lia. done.
Qed.

Lemma le_at_keys items x y :
  items !!! x <> NPY_DATETIME_NAT -> items !!! y <> NPY_DATETIME_NAT ->
  le_at items x y -> items !!! x <= items !!! y.
Proof.
  unfold le_at, less_at, datetime_less. intros Hx Hy.
  destruct (Z.eqb_spec (items !!! y) NPY_DATETIME_NAT); [done|].
  destruct (Z.eqb_spec (items !!! x) NPY_DATETIME_NAT); [done|].
  lia.
Qed.

(** ** The consumer: ordering *)

Section Ordering.
Context `{Library}.

Lemma list_to_map_assoc (fields : list (string * json)) (k : string) :
  (list_to_map fields : gmap string json) !! k = assoc k fields.
Proof.
  induction fields as [|[k' v] fields IH]; simpl; [done|].
  rewrite lookup_insert. destruct (String.eqb_spec k k') as [->|NE].
  - by rewrite decide_True.
  - rewrite decide_False by congruence. exact IH.
Qed.

(** A merged record keeps the timestamp built from the nanosecond value
    unless the decoded payload has a field named [timestamp]. *)
Lemma normalize_record_timestamp (record : flat_record) (r : row)
    (fields : list (string * json)) :
  json_loads (py_str (fr_record record)) = Ok (JObj fields) ->
  assoc "timestamp" fields = None ->
  normalize_record record = Ok r ->
  exists n,
    py_int (fr_timestamp record) = Ok n
    /\ ((- 2 ^ 63 < n < 2 ^ 63 /\ timestamp_of r = Some n)
        \/ (n = - 2 ^ 63 /\ r !! "timestamp" = Some CNaT)).
Proof.
  intros Hloads Hnone. unfold normalize_record. rewrite Hloads.
  cbn [mbind result_bind Py.bind].
  destruct (py_int (fr_timestamp record)) as [n|e]; [|discriminate].
  cbn [mbind result_bind Py.bind]. unfold to_datetime_ns.
  destruct ((- 2 ^ 63 <? n) && (n <? 2 ^ 63)) eqn:E1;
    [|destruct (n =? - 2 ^ 63) eqn:E2; [|discriminate]];
    cbn [mbind result_bind Py.bind];
    (destruct (getitem_str (fr_labels record) "stream") as [stream|e];
      [|discriminate]);
    cbn [mbind result_bind Py.bind]; intros [= <-]; exists n; (split; [done|]).
  - left. apply andb_prop in E1 as [A B].
    apply Z.ltb_lt in A, B. split; [lia|].
    unfold timestamp_of. rewrite lookup_union_r.
    + by rewrite lookup_insert_eq.
    + by rewrite lookup_fmap, list_to_map_assoc, Hnone.
  - right. apply Z.eqb_eq in E2. split; [done|].
    rewrite lookup_union_r.
    + by rewrite lookup_insert_eq.
    + by rewrite lookup_fmap, list_to_map_assoc, Hnone.
Qed.

(** The timestamp cell of a merged record is never the code of [NaT]. *)
Lemma normalize_record_in_range (record : flat_record) (r : row) (ns : Z) :
  normalize_record record = Ok r -> timestamp_of r = Some ns ->
  ns <> NPY_DATETIME_NAT.
Proof.
  unfold normalize_record.
  destruct (json_loads (py_str (fr_record record))) as [entry|e]; [|discriminate].
  cbn [mbind result_bind Py.bind].
  destruct (py_int (fr_timestamp record)) as [n|e]; [|discriminate].
  cbn [mbind result_bind Py.bind].
  destruct (to_datetime_ns n) as [timestamp|e] eqn:Et; [|discriminate].
  cbn [mbind result_bind Py.bind].
  destruct (getitem_str (fr_labels record) "stream") as [stream|e];
    [|discriminate].
  cbn [mbind result_bind Py.bind].
  destruct entry as [| | | | | |fields]; try discriminate.
  intros [= <-]. unfold timestamp_of. rewrite lookup_union, lookup_fmap.
  destruct (list_to_map fields !! "timestamp") as [j|]; simpl.
  - rewrite lookup_insert_eq. simpl. done.
  - rewrite lookup_insert_eq. simpl.
    unfold to_datetime_ns in Et.
    destruct ((- 2 ^ 63 <? n) && (n <? 2 ^ 63)) eqn:E1.
    + injection Et as <-. intros [= <-].
      apply andb_prop in E1 as [A _]. apply Z.ltb_lt in A.
      unfold NPY_DATETIME_NAT. lia.
    + destruct (n =? - 2 ^ 63); [|discriminate]. by injection Et as <-.
Qed.

Lemma normalize_all_in_range (raw : list flat_record) (records : list row) :
  normalize_all raw = Ok records ->
  Forall (fun r => forall ns, timestamp_of r = Some ns -> ns <> NPY_DATETIME_NAT)
    records.
Proof.
  unfold normalize_all.
  assert (forall acc,
    Forall (fun r => forall ns, timestamp_of r = Some ns -> ns <> NPY_DATETIME_NAT)
      acc ->
    for_each (fun records record =>
        r ← normalize_record record; Ok (records ++ [r])) raw acc = Ok records ->
    Forall (fun r => forall ns, timestamp_of r = Some ns -> ns <> NPY_DATETIME_NAT)
      records) as Hloop.
  { induction raw as [|record raw IH]; intros acc Hacc; cbn [for_each].
    - by intros [= <-].
    - destruct (normalize_record record) as [r|e] eqn:Hr; [|discriminate].
      cbn [mbind result_bind Py.bind]. apply IH.
      apply Forall_app. split; [done|]. constructor; [|constructor].
      intros ns. by apply normalize_record_in_range with record. }
  apply Hloop. constructor.
Qed.

(** *** The frame *)

Lemma frame_length (records : list row) :
  length (DataFrame records) = length records.
Proof. unfold DataFrame. by rewrite length_fmap, length_seq. Qed.

Lemma frame_lookup (records : list row) (i : nat) :
  (i < length records)%nat -> DataFrame records !!! i = frame_row records i.
Proof.
  intros Hi. unfold DataFrame.
  rewrite (list_lookup_total_fmap (frame_row records) (seq 0 (length records)))
    by (by rewrite length_seq).
  by rewrite lookup_total_seq_lt.
Qed.

Lemma timestamp_column (records : list row) :
  Forall (fun r => is_Some (timestamp_of r)) records ->
  frame_column records "timestamp"
  = (fun r : row => default NaN (r !! "timestamp")) <$> records.
Proof.
  intros Hall. unfold frame_column.
  assert (forallb is_datetime
            ((fun r : row => default NaN (r !! "timestamp")) <$> records) = true)
    as ->; [|done].
  induction Hall as [|r records [ns Hr] _ IH]; [done|].
  rewrite fmap_cons. cbn [forallb]. rewrite IH.
  unfold timestamp_of in Hr.
  by destruct (r !! "timestamp") as [[]|].
Qed.

(** The frame keeps the timestamp of every record. *)
Lemma frame_row_timestamp (records : list row) (i : nat) (r : row) :
  Forall (fun r => is_Some (timestamp_of r)) records ->
  records !! i = Some r ->
  timestamp_of (frame_row records i) = timestamp_of r.
Proof.
  intros Hall Hi. unfold timestamp_of at 1, frame_row.
  rewrite map_lookup_imap, lookup_gset_to_gmap.
  assert (is_Some (r !! "timestamp")) as [c Hc].
  { rewrite Forall_forall in Hall.
    destruct (Hall r (list_elem_of_lookup_2 _ _ _ Hi)) as [ns Hns].
    unfold timestamp_of in Hns. destruct (r !! "timestamp"); [eauto|done]. }
  rewrite option_guard_True.
  - simpl. rewrite timestamp_column by done.
    rewrite list_lookup_fmap, Hi. simpl.
    unfold timestamp_of. by rewrite Hc.
  - unfold frame_columns. apply elem_of_union_list. exists (dom r). split.
    + apply list_elem_of_fmap. exists r. split; [done|].
      by eapply list_elem_of_lookup_2.
    + apply elem_of_dom. eauto.
Qed.

Lemma frame_timestamps (records : list row) :
  Forall (fun r => is_Some (timestamp_of r)) records ->
  timestamp_of <$> DataFrame records = timestamp_of <$> records.
Proof.
  intros Hall. apply list_eq. intros i. rewrite !list_lookup_fmap.
  destruct (records !! i) as [r|] eqn:Hi; simpl.
  - pose proof (lookup_lt_Some _ _ _ Hi) as Hlt.
    rewrite (list_lookup_lookup_total_lt (DataFrame records) i)
      by (by rewrite frame_length).
    simpl. rewrite frame_lookup by done.
    by rewrite (frame_row_timestamp records i r).
  - apply lookup_ge_None in Hi.
    rewrite (proj2 (lookup_ge_None (DataFrame records) i)); [done|].
    by rewrite frame_length.
Qed.

Lemma datetime_values_timestamps (df : list row) :
  Forall (fun r => is_Some (timestamp_of r)) df ->
  datetime_values "timestamp" df = Some (sort_key <$> df).
Proof.
  intros Hall. unfold datetime_values. apply mapM_Some.
  apply Forall2_fmap_r, Forall_Forall2_diag.
  eapply Forall_impl; [exact Hall|].
  intros r [ns Hns]. unfold compose, sort_key. rewrite Hns. simpl.
  unfold timestamp_of in Hns.
  destruct (r !! "timestamp") as [[]|]; congruence.
Qed.

Lemma take_rows_all (df : list row) : take_rows df (seq 0 (length df)) = df.
Proof.
  unfold take_rows. apply list_eq. intros i. rewrite list_lookup_fmap.
  destruct (df !! i) as [r|] eqn:Hi.
  - pose proof (lookup_lt_Some _ _ _ Hi).
    rewrite lookup_seq_lt by done. simpl.
    by rewrite (list_lookup_total_correct _ _ _ Hi).
  - apply lookup_ge_None in Hi. by rewrite lookup_seq_ge.
Qed.

(** A frame whose [timestamp] column holds timestamps only comes back
    from [sort_values] rearranged, in ascending order of the column. *)
Lemma sort_values_timestamps (df : list row) :
  df <> [] ->
  Forall (fun r => exists ns,
            timestamp_of r = Some ns /\ ns <> NPY_DATETIME_NAT) df ->
  exists out,
    sort_values "timestamp" true df = Ok out
    /\ out = take_rows df (aquicksort (sort_key <$> df))
    /\ out ≡ₚ df
    /\ StronglySorted ts_le out.
Proof.
  intros Hne Hall.
  assert (Forall (fun r => is_Some (timestamp_of r)) df) as Hsome.
  { eapply Forall_impl; [exact Hall|]. intros r (ns & Hns & _). eauto. }
  assert (Forall (fun x => x <> NPY_DATETIME_NAT) (sort_key <$> df)) as Hkeys.
  { apply Forall_fmap. eapply Forall_impl; [exact Hall|].
    intros r (ns & Hns & Hnat). unfold sort_key. simpl. by rewrite Hns. }
  exists (take_rows df (aquicksort (sort_key <$> df))).
  destruct (aquicksort_spec (sort_key <$> df)) as [Hperm Hsorted].
  rewrite length_fmap in Hperm.
  split_and!; [|done| |].
  - unfold sort_values.
    assert (existsb (fun r : row => bool_decide (is_Some (r !! "timestamp"))) df
            = true) as ->.
    { destruct df as [|r df]; [done|].
      apply Forall_cons in Hsome as [[ns Hns] _]. cbn [existsb].
      unfold timestamp_of in Hns.
      destruct (r !! "timestamp") as [c|]; [|done].
      by rewrite bool_decide_true by eauto. }
    rewrite datetime_values_timestamps by done.
    by rewrite nargsort_ascending.
  - transitivity (take_rows df (seq 0 (length df)));
      [|by rewrite take_rows_all].
    unfold take_rows. by apply fmap_Permutation.
  - unfold take_rows.
    assert (Forall (fun i => (i < length df)%nat) (aquicksort (sort_key <$> df)))
      as Hbound.
    { rewrite Hperm. apply Forall_seq. intros; lia. }
    revert Hbound Hsorted. generalize (aquicksort (sort_key <$> df)).
    intros l Hbound Hsorted.
    induction Hsorted as [|x l _ IH Hx]; [constructor|].
    apply Forall_cons in Hbound as [Hxb Hbound].
    rewrite fmap_cons. constructor; [by apply IH|].
    apply Forall_fmap, Forall_forall. intros y Hy.
    rewrite Forall_forall in Hx. rewrite Forall_forall in Hbound.
    pose proof (proj1 (Forall_forall _ _) Hall) as Hrows.
    specialize (Hx y Hy). specialize (Hbound y Hy).
    destruct (Hrows (df !!! x)) as (nx & Hnx & Hx_nat);
      [by apply list_elem_of_lookup_total_2|].
    destruct (Hrows (df !!! y)) as (ny & Hny & Hy_nat);
      [by apply list_elem_of_lookup_total_2|].
    simpl. unfold ts_le. rewrite Hnx, Hny.
    assert ((sort_key <$> df) !!! x = nx) as Ex.
    { rewrite (list_lookup_total_fmap sort_key df) by done.
      unfold sort_key. by rewrite Hnx. }
    assert ((sort_key <$> df) !!! y = ny) as Ey.
    { rewrite (list_lookup_total_fmap sort_key df) by done.
      unfold sort_key. by rewrite Hny. }
    rewrite <- Ex, <- Ey. apply le_at_keys; [by rewrite Ex|by rewrite Ey|done].
Qed.

(** C4, as the code has it.  If the range query returns records, each of
    them can be merged, there is at least one, and every merged record
    still has the timestamp built from its nanosecond value in its
    [timestamp] field, then [retrieve_logs_for_run] returns the rows of
    the frame of the merged records, rearranged in ascending order of
    timestamp, whatever the order in which the backend returned the
    streams; and the frame has one row for each merged record, in the
    order of the records, with the timestamp of the record.  Nothing is
    claimed about the relative order of records with equal
    timestamps. *)
Theorem retrieve_logs_sorted (run_name : string) (lookback_hours : Z)
    (n n' : nat) (raw : list flat_record) (records : list row) :
  query_range
    (mkLokiClient "http://loki:3100" (mkLokiAuth None None) (PyFloat (FFin 10)))
    (log_query run_name) (PyInt lookback_hours) (PyFloat (FFin 60))
    (Some 5000) "FORWARD" n = (Ok raw, n') ->
  normalize_all raw = Ok records ->
  records <> [] ->
  Forall (fun r => is_Some (timestamp_of r)) records ->
  exists out,
    retrieve_logs_for_run run_name lookback_hours n = (Ok out, n')
    /\ out ≡ₚ DataFrame records
    /\ timestamp_of <$> DataFrame records = timestamp_of <$> records
    /\ StronglySorted ts_le out.
Proof.
  intros Hquery Hnorm Hne Hall.
  pose proof (frame_timestamps records Hall) as Hframe.
  destruct (sort_values_timestamps (DataFrame records))
    as (out & Hout & _ & Hperm & Hsorted).
  - intros E. apply (f_equal length) in E. rewrite frame_length in E.
    by destruct records.
  - apply Forall_forall. intros r Hr.
    apply list_elem_of_lookup_1 in Hr as [i Hi].
    apply (f_equal (fun l => l !! i)) in Hframe.
    rewrite !list_lookup_fmap, Hi in Hframe. simpl in Hframe.
    destruct (records !! i) as [r'|] eqn:Hi'; [|done].
    simpl in Hframe. injection Hframe as Hframe.
    pose proof (list_elem_of_lookup_2 _ _ _ Hi') as Hin.
    rewrite Forall_forall in Hall. destruct (Hall r' Hin) as [ns Hns].
    exists ns. split; [congruence|].
    pose proof (normalize_all_in_range raw records Hnorm) as Hrange.
    rewrite Forall_forall in Hrange. by apply (Hrange r' Hin).
  - exists out. split; [|done].
    unfold retrieve_logs_for_run.
    change (LokiClient_init "http://loki:3100" None (PyFloat (FFin 10)))
      with (Ok (mkLokiClient "http://loki:3100" (mkLokiAuth None None)
                  (PyFloat (FFin 10)))).
    unfold mbind, M_bind, mbindM, lift at 1.
    rewrite Hquery. unfold lift. rewrite Hnorm.
    cbn [result_bind Py.bind]. by rewrite Hout.
Qed.

End Ordering.

Lemma retrieve_logs_sorted_witness :
  exists out,
    retrieve_logs_for_run
      (H := Sample.library false Sample.now_2026 (Response Sample.body_two_streams))
      "run1" 72 0%nat = (Ok out, 1%nat)
    /\ out
       ≡ₚ DataFrame
            (H := Sample.library false Sample.now_2026
                    (Response Sample.body_two_streams))
            [ ({[ "timestamp" := CTimestamp 200; "stream" := CJson (JStr "B");
                  "msg" := CJson (JStr "later") ]} : row);
              {[ "timestamp" := CTimestamp 100; "stream" := CJson (JStr "A");
                 "msg" := CJson (JStr "earlier") ]} ]
    /\ timestamp_of
         <$> DataFrame
               (H := Sample.library false Sample.now_2026
                       (Response Sample.body_two_streams))
               [ ({[ "timestamp" := CTimestamp 200; "stream" := CJson (JStr "B");
                     "msg" := CJson (JStr "later") ]} : row);
                 {[ "timestamp" := CTimestamp 100; "stream" := CJson (JStr "A");
                    "msg" := CJson (JStr "earlier") ]} ]
       = [Some 200; Some 100]
    /\ StronglySorted ts_le out.
Proof.
  eapply (retrieve_logs_sorted
            (H := Sample.library false Sample.now_2026
                    (Response Sample.body_two_streams))).
  - vm_compute. reflexivity.
  - apply result_items_inj. vm_compute. reflexivity.
  - discriminate.
  - repeat constructor; vm_compute; eauto.
Defined.

(** The two streams of the sample come back in ascending order. *)
Example retrieve_logs_two_streams :
  (retrieve_logs_for_run
     (H := Sample.library false Sample.now_2026 (Response Sample.body_two_streams))
     "run1" 72 0%nat).1
  = Ok [ {[ "timestamp" := CTimestamp 100; "stream" := CJson (JStr "A");
            "msg" := CJson (JStr "earlier") ]};
         {[ "timestamp" := CTimestamp 200; "stream" := CJson (JStr "B");
            "msg" := CJson (JStr "later") ]} ].
Proof. apply result_items_inj. vm_compute. reflexivity. Qed.

(** Eighteen equal keys: the quicksort leaves them in another order. *)
Example aquicksort_equal_keys :
  aquicksort (replicate 18 100)
  = [0; 15; 14; 13; 12; 11; 10; 9; 8; 7; 6; 5; 4; 3; 2; 1; 16; 17]%nat.
Proof. vm_compute. reflexivity. Qed.

(** Seventeen keys or fewer are sorted by insertion, which keeps equal
    keys in order. *)
Example aquicksort_small :
  aquicksort [3; 1; 2; 1; 3; 1] = [1; 3; 5; 2; 0; 4]%nat.
Proof. vm_compute. reflexivity. Qed.

(** Descending, with a missing timestamp: [NaT] is last. *)
Example nargsort_descending :
  nargsort false [3; NPY_DATETIME_NAT; 1; 2] = [0; 3; 2; 1]%nat.
Proof. vm_compute. reflexivity. Qed.

(** The frame has every column in every row: a record without a field
    gets [NaN] there, and the integers of that column come back as
    floats. *)
Example frame_missing_field :
  result_items
    (Ok (DataFrame (H := Sample.library false 0 (Response ""))
           [ ({[ "timestamp" := CTimestamp 1; "code" := CJson (JInt 1) ]} : row);
             {[ "timestamp" := CTimestamp 2 ]} ]))
  = result_items
      (Ok [ ({[ "timestamp" := CTimestamp 1;
                "code" := CJson (JFloat (FFin 1)) ]} : row);
            {[ "timestamp" := CTimestamp 2; "code" := NaN ]} ]).
Proof. vm_compute. reflexivity. Qed.

(** C4, as stated, fails.  Eighteen records of equal timestamp are
    flattened and merged in the order they are numbered, and the frame
    has them in that order; sorted by [timestamp] they come back in
    another order: record 15 is second, record 1 is sixteenth. *)
Lemma retrieve_logs_ties_reordered :
  let L := Sample.library false Sample.now_2026 (Response Sample.body_ties) in
  (raw ← (query_range (H := L)
            (mkLokiClient "http://loki:3100" (mkLokiAuth None None)
               (PyFloat (FFin 10)))
            (log_query "run1") (PyInt 72) (PyFloat (FFin 60)) (Some 5000)
            "FORWARD" 0%nat).1;
   normalize_all (H := L) raw) = Ok Sample.tie_rows
  /\ Sample.tie_rows = Sample.tie_row <$> seq 0 18
  /\ Forall (fun r => timestamp_of r = Some 100) Sample.tie_rows
  /\ (retrieve_logs_for_run (H := L) "run1" 72 0%nat).1
     = Ok (Sample.tie_row
             <$> [0; 15; 14; 13; 12; 11; 10; 9; 8; 7; 6; 5; 4; 3; 2; 1; 16; 17]%nat)
  /\ Sample.tie_row
       <$> [0; 15; 14; 13; 12; 11; 10; 9; 8; 7; 6; 5; 4; 3; 2; 1; 16; 17]%nat
     <> Sample.tie_rows.
Proof.
  intros L. repeat apply conj.
  - apply result_items_inj. vm_compute. reflexivity.
  - reflexivity.
  - apply Forall_forall. intros r Hr.
    apply list_elem_of_fmap in Hr as (i & -> & _). reflexivity.
  - apply result_items_inj. vm_compute. reflexivity.
  - intros E.
    apply (f_equal (fun l : list row => l !! 1%nat ≫= (.!! "msg"))) in E.
    vm_compute in E. discriminate.
Qed.

(** With no record in range the frame has no column to sort by. *)
Example sort_values_empty `{Library} :
  sort_values "timestamp" true (DataFrame []) = raise KeyError "timestamp".
Proof. reflexivity. Qed.

(** ** The workflow-definition tool *)

Lemma endswith_unfold s suffix :
  endswith s suffix
  = String.eqb s suffix
    || match s with
       | String _ rest => endswith rest suffix
       | EmptyString => false
       end.
Proof. by destruct s. Qed.

Lemma endswith_app p suffix : endswith (p +:+ suffix) suffix = true.
Proof.
  induction p as [|c p IH].
  - rewrite endswith_unfold. simpl. by rewrite String.eqb_refl.
  - rewrite endswith_unfold. simpl. rewrite IH. apply orb_true_r.
Qed.

Lemma endswith_inv s suffix :
  endswith s suffix = true -> exists p, s = p +:+ suffix.
Proof.
  induction s as [|c s IH]; rewrite endswith_unfold.
  - rewrite orb_false_r. intros E%String.eqb_eq. by exists "".
  - intros [E%String.eqb_eq | E]%orb_true_iff.
    + by exists "".
    + destruct (IH E) as [p ->]. by exists (String c p).
Qed.

Lemma substring_app_length p s :
  String.substring 0 (String.length p) (p +:+ s) = p.
Proof. induction p as [|c p IH]; simpl; [by destruct s | by f_equal]. Qed.

Lemma string_length_app (s t : string) :
  String.length (s +:+ t) = (String.length s + String.length t)%nat.
Proof.
  induction s as [|c s IH]; [done|].
  change (String c s +:+ t) with (String c (s +:+ t)). simpl. by rewrite IH.
Qed.

Lemma drop_end_app p suffix :
  drop_end (String.length suffix) (p +:+ suffix) = p.
Proof.
  unfold drop_end.
  replace (String.length (p +:+ suffix) - String.length suffix)%nat
    with (String.length p); [apply substring_app_length|].
  rewrite string_length_app. lia.
Qed.

Lemma drop_end_nf p : drop_end 3 (p +:+ ".nf") = p.
Proof. exact (drop_end_app p ".nf"). Qed.

Section WorkflowDefinitions.
Variable text : string.

Lemma workflow_lookup name :
  WORKFLOW_DEFINITIONS text !! name
  = if String.eqb name "unreliable-exome" then Some text else None.
Proof.
  unfold WORKFLOW_DEFINITIONS. destruct (String.eqb_spec name "unreliable-exome") as [->|N].
  - apply lookup_singleton_eq.
  - by apply lookup_singleton_ne.
Qed.

Lemma retrieve_workflow_definition_stripped p :
  retrieve_workflow_definition text (p +:+ ".nf")
  = match WORKFLOW_DEFINITIONS text !! p with
    | Some t => t
    | None => "Workflow definition for " +:+ p +:+ " not found."
    end.
Proof.
  unfold retrieve_workflow_definition.
  rewrite endswith_app. by rewrite drop_end_nf.
Qed.

(** X1. The definition is returned for the names [unreliable-exome] and
    [unreliable-exome.nf] and for no other; any other name gets the
    not-found message, which quotes the name without one final [.nf]. *)
Theorem retrieve_workflow_definition_cases workflow_file :
  ((workflow_file = "unreliable-exome" \/ workflow_file = "unreliable-exome.nf")
   /\ retrieve_workflow_definition text workflow_file = text)
  \/ (workflow_file <> "unreliable-exome"
      /\ workflow_file <> "unreliable-exome.nf"
      /\ exists name,
           (workflow_file = name +:+ ".nf"
            \/ (workflow_file = name /\ endswith name ".nf" = false))
           /\ retrieve_workflow_definition text workflow_file
              = "Workflow definition for " +:+ name +:+ " not found.").
Proof.
  destruct (endswith workflow_file ".nf") eqn:E.
  - destruct (endswith_inv _ _ E) as [p ->].
    rewrite retrieve_workflow_definition_stripped, workflow_lookup.
    destruct (String.eqb_spec p "unreliable-exome") as [->|N].
    + left. split; [by right | done].
    + right. split; [|split].
      * intros Heq. by rewrite Heq in E.
      * intros Heq. apply N.
        apply (f_equal (drop_end 3)) in Heq.
        by rewrite drop_end_nf in Heq.
      * exists p. split; [by left | done].
  - unfold retrieve_workflow_definition. rewrite E, workflow_lookup.
    destruct (String.eqb_spec workflow_file "unreliable-exome") as [->|N].
    + left. split; [by left | done].
    + right. split; [done|]. split.
      * intros ->. discriminate E.
      * exists workflow_file. split; [by right | done].
Qed.

(** X2. A name is looked up as the same name with [.nf] appended, unless
    it ends in [.nf] itself: only one suffix is removed. *)
Theorem retrieve_workflow_definition_suffix name :
  endswith name ".nf" = false ->
  retrieve_workflow_definition text (name +:+ ".nf")
  = retrieve_workflow_definition text name.
Proof.
  intros E. rewrite retrieve_workflow_definition_stripped.
  unfold retrieve_workflow_definition. by rewrite E.
Qed.

End WorkflowDefinitions.

Lemma retrieve_workflow_definition_suffix_witness :
  retrieve_workflow_definition "workflow { }" ("unreliable-exome" +:+ ".nf")
  = retrieve_workflow_definition "workflow { }" "unreliable-exome".
Proof.
  apply (retrieve_workflow_definition_suffix "workflow { }" "unreliable-exome").
  reflexivity.
Defined.

(** ** The range-query client: construction *)

Lemma rstrip_slash_split s :
  exists k,
    s = rstrip_slash s +:+ slashes k
    /\ endswith (rstrip_slash s) "/" = false.
Proof.
  induction s as [|c s (k & IH & E)].
  - by exists 0%nat.
  - simpl. destruct (rstrip_slash s) as [|d r] eqn:R.
    + simpl in IH. destruct (Ascii.eqb_spec c "/") as [->|N].
      * exists (S k). by rewrite IH at 1.
      * exists k. split; [by rewrite IH at 1|].
        rewrite endswith_unfold. simpl.
        destruct (Ascii.eqb_spec c "/"); [done|]. by destruct c.
    + exists k. split; [simpl; by rewrite IH at 1|].
      rewrite endswith_unfold, E. simpl.
      destruct (Ascii.eqb c "/"); [|done]. by destruct r.
Qed.

Lemma endswith_cons c s suffix :
  endswith s suffix = true -> endswith (String c s) suffix = true.
Proof. intros E. rewrite endswith_unfold, E. apply orb_true_r. Qed.

Lemma endswith_slash_app s k :
  endswith (s +:+ slashes (S k)) "/" = true.
Proof.
  induction s as [|c s IH].
  - induction k as [|k IHk]; [done|]. by apply (endswith_cons "/").
  - by apply endswith_cons.
Qed.

Lemma string_app_cons c (s t : string) : String c s +:+ t = String c (s +:+ t).
Proof. reflexivity. Qed.

Lemma string_app_nil_r (s : string) : s +:+ "" = s.
Proof. induction s as [|c s IH]; [done|]. by rewrite string_app_cons, IH. Qed.

Lemma rstrip_slash_id s : endswith s "/" = false -> rstrip_slash s = s.
Proof.
  intros E. destruct (rstrip_slash_split s) as ([|k] & Hs & _).
  - simpl in Hs. rewrite string_app_nil_r in Hs. by symmetry.
  - rewrite Hs, endswith_slash_app in E. discriminate.
Qed.

(** X3. [LokiClient(base_url, auth, timeout=...)] fails exactly on the
    empty base URL.  Otherwise the stored base URL is the given one without
    its trailing slashes (it does not end in a slash, and is the given one
    when that has none), the timeout is stored as given, and a missing
    [auth] is replaced by the credentials with no field set. *)
Theorem LokiClient_init_spec (url : string) (a : option LokiAuth) (t : pynum) :
  (url = ""
   /\ LokiClient_init url a t = raise ValueError "base_url is required")
  \/ (url <> ""
      /\ exists self k,
           LokiClient_init url a t = Ok self
           /\ url = base_url self +:+ slashes k
           /\ endswith (base_url self) "/" = false
           /\ (endswith url "/" = false -> base_url self = url)
           /\ timeout self = t
           /\ auth self = default (mkLokiAuth None None) a).
Proof.
  unfold LokiClient_init. destruct (String.eqb_spec url "") as [->|N].
  - by left.
  - right. split; [done|].
    destruct (rstrip_slash_split url) as (k & Hs & E).
    eexists _, k. split; [done|]. simpl.
    repeat split; try done. apply rstrip_slash_id.
Qed.

(** X4. The emptiness test comes before the slashes are removed: a base
    URL made of slashes only is accepted and stored as the empty string. *)
Theorem LokiClient_init_slashes (k : nat) (a : option LokiAuth) (t : pynum) :
  (0 < k)%nat ->
  exists self,
    LokiClient_init (slashes k) a t = Ok self /\ base_url self = "".
Proof.
  intros Hk. destruct k as [|k]; [lia|].
  unfold LokiClient_init. simpl String.eqb. eexists. split; [done|]. simpl base_url.
  clear. induction k as [|k IH]; [done|].
  change (slashes (S (S k))) with (String "/"%char (slashes (S k))).
  simpl rstrip_slash in *. by rewrite IH.
Qed.

Lemma LokiClient_init_slashes_witness :
  exists self,
    LokiClient_init (slashes 2) None (PyFloat (FFin 10)) = Ok self
    /\ base_url self = "".
Proof. apply (LokiClient_init_slashes 2 None (PyFloat (FFin 10))). lia. Defined.

(** ** The range-query client: the request *)

Lemma quote_plus_cons c rest :
  quote_plus (String c rest) = quote_plus (String c "") +:+ quote_plus rest.
Proof. destruct c as [[] [] [] [] [] [] [] []]; reflexivity. Qed.

Lemma quote_plus_char c :
  string_forallb is_quoted_char (quote_plus (String c "")) = true.
Proof. destruct c as [[] [] [] [] [] [] [] []]; reflexivity. Qed.

Lemma unquote_plus_char c rest :
  unquote_plus (quote_plus (String c "") +:+ rest) = String c (unquote_plus rest).
Proof. destruct c as [[] [] [] [] [] [] [] []]; reflexivity. Qed.

Lemma string_app_assoc (s t u : string) : (s +:+ t) +:+ u = s +:+ (t +:+ u).
Proof.
  induction s as [|c s IH]; [done|]. by rewrite !string_app_cons, IH.
Qed.

Lemma string_forallb_app p (s t : string) :
  string_forallb p (s +:+ t) = string_forallb p s && string_forallb p t.
Proof.
  induction s as [|c s IH]; [done|].
  rewrite string_app_cons. simpl. rewrite IH. apply andb_assoc.
Qed.

Lemma string_forallb_impl (p q : ascii -> bool) s :
  (forall c, p c = true -> q c = true) ->
  string_forallb p s = true -> string_forallb q s = true.
Proof.
  intros Hpq. induction s as [|c s IH]; [done|]. simpl.
  intros [Hc Hs]%andb_true_iff. by rewrite (Hpq c Hc), IH.
Qed.

Lemma count_char_app c (s t : string) :
  count_char c (s +:+ t) = (count_char c s + count_char c t)%nat.
Proof.
  induction s as [|d s IH]; [done|].
  rewrite string_app_cons. simpl. rewrite IH. lia.
Qed.

Lemma count_char_forallb c p s :
  p c = false -> string_forallb p s = true -> count_char c s = 0%nat.
Proof.
  intros Hc. induction s as [|d s IH]; [done|]. simpl.
  intros [Hd Hs]%andb_true_iff. rewrite (IH Hs).
  destruct (Ascii.eqb_spec c d) as [->|]; [congruence | done].
Qed.

Lemma quote_plus_chars s : string_forallb is_quoted_char (quote_plus s) = true.
Proof.
  induction s as [|c s IH]; [done|].
  by rewrite quote_plus_cons, string_forallb_app, quote_plus_char, IH.
Qed.

Lemma unquote_plus_quote_plus_app s rest :
  unquote_plus (quote_plus s +:+ rest) = s +:+ unquote_plus rest.
Proof.
  induction s as [|c s IH]; [done|].
  by rewrite quote_plus_cons, string_app_assoc, unquote_plus_char, IH.
Qed.

Lemma unquote_plus_quote_plus s : unquote_plus (quote_plus s) = s.
Proof.
  rewrite <- (string_app_nil_r (quote_plus s)), unquote_plus_quote_plus_app.
  apply string_app_nil_r.
Qed.

Lemma quote_plus_no_char c s :
  is_quoted_char c = false -> count_char c (quote_plus s) = 0%nat.
Proof. intros Hc. eapply count_char_forallb; [exact Hc | apply quote_plus_chars]. Qed.

Lemma split_at_none c s :
  count_char c s = 0%nat -> split_at c s = (s, None).
Proof.
  induction s as [|d s IH]; [done|]. simpl.
  destruct (Ascii.eqb c d); [done|]. intros H. by rewrite (IH H).
Qed.

Lemma split_at_app c (a b : string) :
  count_char c a = 0%nat -> split_at c (a +:+ String c b) = (a, Some b).
Proof.
  induction a as [|d a IH].
  - intros _. simpl. by rewrite Ascii.eqb_refl.
  - rewrite string_app_cons. simpl.
    destruct (Ascii.eqb c d); [done|]. intros H. by rewrite (IH H).
Qed.

(** One field of a query string. *)
Lemma urlencode_cons k v rest :
  urlencode ((k, v) :: rest)
  = (quote_plus k +:+ "=" +:+ quote_plus (param_str v))
    +:+ match rest with [] => "" | _ => String "&" (urlencode rest) end.
Proof.
  destruct rest as [|[k' v'] rest].
  - simpl. by rewrite !string_app_nil_r.
  - rewrite !string_app_assoc. reflexivity.
Qed.

Lemma field_no_amp k v :
  count_char "&" (quote_plus k +:+ "=" +:+ quote_plus v) = 0%nat.
Proof. by rewrite !count_char_app, !(quote_plus_no_char "&"). Qed.

Lemma field_split k v :
  split_at "=" (quote_plus k +:+ "=" +:+ quote_plus v)
  = (quote_plus k, Some (quote_plus v)).
Proof. apply (split_at_app "="). by apply quote_plus_no_char. Qed.

Lemma urlencode_split fuel params :
  (length params <= fuel)%nat -> params <> [] ->
  split_on fuel "&" (urlencode params)
  = map (fun kv => quote_plus kv.1 +:+ "=" +:+ quote_plus (param_str kv.2)) params.
Proof.
  revert fuel. induction params as [|[k v] rest IH]; [done|].
  intros fuel Hf _. destruct fuel as [|fuel]; [simpl in Hf; lia|].
  rewrite urlencode_cons. destruct rest as [|kv rest].
  - rewrite string_app_nil_r. simpl.
    rewrite split_at_none; [done|]. apply field_no_amp.
  - simpl split_on. rewrite split_at_app by apply field_no_amp.
    simpl map. f_equal. apply IH; [simpl in *; lia | done].
Qed.

Lemma urlencode_length params :
  (length params <= String.length (urlencode params))%nat.
Proof.
  induction params as [|[k v] rest IH]; [done|].
  rewrite urlencode_cons, !string_length_app. destruct rest; simpl in *; lia.
Qed.

Lemma urlencode_nonempty params : params <> [] -> urlencode params <> "".
Proof.
  intros N E. pose proof (urlencode_length params) as L. rewrite E in L.
  destruct params; [done | simpl in L; lia].
Qed.

(** Reading a query string back gives the parameters it was written from. *)
Lemma parse_qsl_urlencode params :
  parse_qsl (urlencode params) = param_items params.
Proof.
  destruct params as [|kv0 params0]; [done|].
  assert (kv0 :: params0 <> []) as N by done.
  revert N. generalize (kv0 :: params0). intros params N.
  unfold parse_qsl, param_items.
  rewrite urlencode_split by (apply urlencode_length || done).
  clear. induction params as [|[k v] params IH]; [done|].
  cbn [map flat_map fst snd]. rewrite IH, field_split.
  cbn [default from_option id]. rewrite !unquote_plus_quote_plus.
  by destruct (quote_plus k).
Qed.

Lemma urlencode_chars params :
  string_forallb (fun c => is_quoted_char c || Ascii.eqb c "=" || Ascii.eqb c "&")
    (urlencode params) = true.
Proof.
  set (p := fun c => is_quoted_char c || Ascii.eqb c "=" || Ascii.eqb c "&").
  assert (forall s, string_forallb p (quote_plus s) = true) as Q.
  { intros s. eapply string_forallb_impl; [|apply quote_plus_chars].
    intros c Hc. unfold p. by rewrite Hc. }
  induction params as [|[k v] rest IH]; [done|].
  rewrite urlencode_cons, !string_forallb_app, !Q.
  destruct rest as [|kv rest]; [done|].
  change (string_forallb p (String "&" (urlencode (kv :: rest))))
    with (p "&"%char && string_forallb p (urlencode (kv :: rest))).
  by rewrite IH.
Qed.

Lemma urlencode_count params :
  count_char "=" (urlencode params) = length params
  /\ count_char "&" (urlencode params) = (length params - 1)%nat.
Proof.
  induction params as [|[k v] rest [IH1 IH2]]; [done|].
  rewrite urlencode_cons, !count_char_app, !(quote_plus_no_char "="),
    !(quote_plus_no_char "&") by done.
  destruct rest as [|kv rest]; [done|].
  change (count_char "=" (String "&" (urlencode (kv :: rest))))
    with (count_char "=" (urlencode (kv :: rest))).
  change (count_char "&" (String "&" (urlencode (kv :: rest))))
    with (S (count_char "&" (urlencode (kv :: rest)))).
  rewrite IH1, IH2. simpl. lia.
Qed.

Lemma string_app_inv_tail (s1 s2 t : string) : s1 +:+ t = s2 +:+ t -> s1 = s2.
Proof.
  revert s2. induction s1 as [|c s1 IH]; intros [|d s2] E.
  - done.
  - apply (f_equal String.length) in E.
    rewrite !string_length_app in E. simpl in E. lia.
  - apply (f_equal String.length) in E.
    rewrite !string_length_app in E. simpl in E. lia.
  - rewrite !string_app_cons in E. injection E as -> E. f_equal. by apply IH.
Qed.

Lemma headers_keys self h k :
  headers self = Ok h -> k <> "Authorization" -> h !! k = None.
Proof.
  unfold headers. intros E N.
  destruct (truthy_tuple (basic_auth self) && truthy_str (bearer_token self));
    [discriminate|].
  destruct (truthy_tuple (basic_auth self)).
  - destruct (basic_auth self) as [[|u [|p [|? ?]]]|]; try discriminate.
    injection E as <-. by rewrite lookup_insert_ne.
  - destruct (truthy_str (bearer_token self)); injection E as <-.
    + by rewrite lookup_insert_ne.
    + done.
Qed.

Section Request.
Context `{Library}.

(** The query string of the request. *)
Lemma build_request_url self query start_ns end_ns step limit direction h :
  req_url (build_request self query start_ns end_ns step limit direction h)
  = (base_url self +:+ "/loki/api/v1/query_range") +:+ "?"
    +:+ urlencode
          ([("query", PStr query); ("start", PInt start_ns); ("end", PInt end_ns);
            ("step", PStr (format_g step +:+ "s")); ("direction", PStr direction)]
           ++ match limit with
              | Some l => [("limit", PStr (pretty l))]
              | None => []
              end).
Proof. destruct limit; [done|]. by rewrite app_nil_r. Qed.

(** X5. The URL of a request is the base URL, the path of the range
    endpoint, a question mark and a query string.  Whatever the query
    text, the direction and the formatted step are, the query string is
    written with unreserved characters, [+], [%], [=] and [&] only, and
    has one [=] per parameter and one [&] between parameters: five
    parameters, six with a limit. *)
Theorem build_request_url_wellformed self query start_ns end_ns step limit
    direction h :
  exists qs,
    req_url (build_request self query start_ns end_ns step limit direction h)
    = base_url self +:+ "/loki/api/v1/query_range?" +:+ qs
    /\ string_forallb
         (fun c => is_quoted_char c || Ascii.eqb c "=" || Ascii.eqb c "&") qs = true
    /\ count_char "=" qs = match limit with Some _ => 6 | None => 5 end%nat
    /\ count_char "&" qs = match limit with Some _ => 5 | None => 4 end%nat.
Proof.
  rewrite build_request_url. eexists. split.
  { rewrite string_app_assoc. reflexivity. }
  split; [apply urlencode_chars|].
  match goal with |- context [urlencode ?ps] =>
    destruct (urlencode_count ps) as [-> ->] end.
  by destruct limit.
Qed.

(** X6. The URL determines what was asked: two requests of one client
    with the same URL have the same query, the same range, the same
    formatted step, the same direction and the same limit. *)
Theorem build_request_url_inj self
    query start_ns end_ns step limit direction h
    query' start_ns' end_ns' step' limit' direction' h' :
  req_url (build_request self query start_ns end_ns step limit direction h)
  = req_url (build_request self query' start_ns' end_ns' step' limit' direction' h') ->
  query = query' /\ start_ns = start_ns' /\ end_ns = end_ns'
  /\ format_g step = format_g step' /\ direction = direction' /\ limit = limit'.
Proof.
  rewrite !build_request_url. intros E.
  apply string_app_inv_head in E. apply (string_app_inv_head "?") in E.
  apply (f_equal parse_qsl) in E. rewrite !parse_qsl_urlencode in E.
  unfold param_items in E. simpl in E.
  destruct limit as [l|], limit' as [l'|]; simpl in E; try discriminate.
  - injection E as -> Es Ee Est -> El.
    apply (inj pretty) in Es, Ee, El. apply string_app_inv_tail in Est.
    by subst.
  - injection E as -> Es Ee Est ->.
    apply (inj pretty) in Es, Ee. apply string_app_inv_tail in Est.
    by subst.
Qed.

(** X7. The headers of a request: [Accept: application/json] always, the
    [Authorization] header of the credentials when they give one, and
    nothing else. *)
Theorem build_request_headers self query start_ns end_ns step limit direction h :
  headers (auth self) = Ok h ->
  let r := build_request self query start_ns end_ns step limit direction h in
  req_headers r !! "Accept" = Some "application/json"
  /\ req_headers r !! "Authorization" = h !! "Authorization"
  /\ forall k, k <> "Accept" -> k <> "Authorization" -> req_headers r !! k = None.
Proof.
  intros Hh r. subst r. unfold build_request. cbn [req_headers].
  split; [|split].
  - rewrite lookup_union_r; [by apply lookup_singleton_eq|].
    by apply (headers_keys _ _ _ Hh).
  - rewrite lookup_union, lookup_singleton_ne by done.
    by destruct (h !! "Authorization").
  - intros k N1 N2. rewrite lookup_union, lookup_singleton_ne by done.
    by rewrite (headers_keys _ _ _ Hh N2).
Qed.

(** X8. Read back with [parse_qsl], the query string of a request
    gives the parameters in the order [query], [start], [end], [step],
    [direction] and, when there is one, [limit], each with the very text
    that was passed. *)
Theorem build_request_query_round_trip self query start_ns end_ns step limit
    direction h :
  exists qs,
    req_url (build_request self query start_ns end_ns step limit direction h)
    = base_url self +:+ "/loki/api/v1/query_range?" +:+ qs
    /\ parse_qsl qs
       = [("query", query); ("start", pretty start_ns); ("end", pretty end_ns);
          ("step", format_g step +:+ "s"); ("direction", direction)]
         ++ match limit with
            | Some l => [("limit", pretty l)]
            | None => []
            end.
Proof.
  rewrite build_request_url. eexists. split.
  { rewrite string_app_assoc. reflexivity. }
  rewrite parse_qsl_urlencode. by destruct limit.
Qed.

End Request.

(** ** The range calculator: the duration in closed form *)

Section Duration.
Local Open Scope Q_scope.

(** What is left over is rounded to the nearest microsecond; a half goes
    to the side that makes the total even. *)
Lemma whole_us_cases x r :
  0 < r -> r < 1 ->
  (r < 1 # 2 /\ whole_us x r = 0%Z)
  \/ (1 # 2 < r /\ whole_us x r = 1%Z)
  \/ (r == 1 # 2 /\ whole_us x r = if Z.odd x then 1%Z else 0%Z).
Proof.
  intros H0 H1. unfold whole_us.
  destruct (Qeq_bool _ _) eqn:E.
  - apply Qeq_bool_iff in E.
    assert (r == 1 # 2) as Hr.
    { destruct (c_round_unit r H0 H1) as [[L W]|[L W]]; rewrite W in E.
      - change (inject_Z 0) with 0 in E. rewrite Qabs_neg in E by lra. lra.
      - change (inject_Z 1) with 1 in E. rewrite Qabs_pos in E by lra. lra. }
    right. right. split; [done|].
    destruct (Z.odd x).
    + destruct (c_round_unit ((r + inject_Z 1) * (1 # 2))) as [[L W]|[L W]];
        change (inject_Z 1) with 1 in *; try lra.
      by rewrite W.
    + destruct (c_round_unit ((r + inject_Z 0) * (1 # 2))) as [[L W]|[L W]];
        change (inject_Z 0) with 0 in *; try lra.
      by rewrite W.
  - assert (~ r == 1 # 2) as Hne.
    { intros Hr. destruct (c_round_unit r H0 H1) as [[L W]|[L W]]; [lra|].
      rewrite W in E. change (inject_Z 1) with 1 in E.
      assert (Qabs (1 - r) == 1 # 2) as A by (rewrite Qabs_pos; lra).
      apply Qeq_bool_iff in A. congruence. }
    destruct (c_round_unit r H0 H1) as [[L W]|[L W]]; rewrite W.
    + by left.
    + right. left. split; [lra | done].
Qed.

Lemma round_value_us_per_hour : round_value 3600000000 == 3600000000.
Proof.
  symmetry. apply round64_FFin. exact float_of_int_us_per_hour.
Qed.

Lemma hours_to_us_float q :
  0 <= q -> hours_to_us (PyFloat (FFin q)) = Ok (hours_us q).
Proof.
  intros Hq. unfold hours_to_us, hours_us.
  rewrite (Qtrunc_nonneg q Hq).
  pose proof (floor_bounds q) as [F1 F2].
  set (ip := Qfloor q) in *. set (fp := q - inject_Z ip).
  destruct (Qeq_bool fp 0) eqn:E0.
  - apply Qeq_bool_iff in E0.
    assert (round_value (3600000000 * fp) == inject_Z 0) as ->.
    { apply round_value_0. rewrite E0. ring. }
    rewrite rhe_Z. f_equal. lia.
  - assert (0 < fp) as Hfp.
    { destruct (Qlt_le_dec 0 fp) as [|L]; [done|].
      assert (fp == 0) as Z0 by (unfold fp in *; lra).
      apply Qeq_bool_iff in Z0. congruence. }
    assert (fp < 1) as Hfp1 by (unfold fp; lra).
    rewrite float_of_int_us_per_hour. cbn [fmul].
    destruct (round64_bounded (3600000000 * fp) 32 ltac:(lia))
      as (d & R & Rd & _ & _).
    { rewrite pow2_32. apply Qabs_Qlt_condition. lra. }
    rewrite R, <- Rd.
    assert (0 <= d) as Hd by (eapply round64_nonneg; [|exact R]; lra).
    rewrite (Qtrunc_nonneg d Hd).
    pose proof (floor_bounds d) as [G1 G2].
    destruct (Qeq_bool (d - inject_Z (Qfloor d)) 0) eqn:E1.
    + apply Qeq_bool_iff in E1.
      assert (d == inject_Z (Qfloor d)) as Ed by lra.
      rewrite Ed at 2. by rewrite rhe_Z.
    + set (lo := d - inject_Z (Qfloor d)) in *.
      assert (0 < lo) as Hlo.
      { destruct (Qlt_le_dec 0 lo) as [|L]; [done|].
        assert (lo == 0) as Z0 by (unfold lo in *; lra).
        apply Qeq_bool_iff in Z0. congruence. }
      assert (lo < 1) as Hlo1 by (unfold lo; lra).
      f_equal. rewrite <- Z.add_assoc. f_equal.
      assert (Z.odd (ip * us_per_hour + Qfloor d) = negb (Z.even (Qfloor d))) as Hodd.
      { rewrite Z.odd_add, Z.odd_mul. change (Z.odd us_per_hour) with false.
        rewrite andb_false_r. simpl. by rewrite Z.negb_even. }
      destruct (whole_us_cases (ip * us_per_hour + Qfloor d) lo Hlo Hlo1)
        as [[L ->]|[[L ->]|[L ->]]];
        destruct (rhe_spec d) as [[H R']|[[H R']|[H R']]];
        rewrite R'; fold lo in H; try (exfalso; lra); try lia.
      rewrite Hodd. destruct (Z.even (Qfloor d)); simpl; lia.
Qed.

Lemma hours_us_Z z : hours_us (inject_Z z) = (z * us_per_hour)%Z.
Proof.
  unfold hours_us. rewrite Qfloor_Z.
  assert (round_value (3600000000 * (inject_Z z - inject_Z z)) == inject_Z 0) as ->.
  { apply round_value_0. ring. }
  rewrite rhe_Z. lia.
Qed.

(** The microseconds of a finite, non-negative number of hours. *)
Lemma hours_to_us_value h hq :
  num_value h = Some hq -> 0 <= hq -> hours_to_us h = Ok (hours_us hq).
Proof.
  intros Hv Hq. destruct h as [z|[| |q]]; simpl in Hv; try discriminate;
    injection Hv as <-.
  - by rewrite hours_us_Z.
  - by apply hours_to_us_float.
Qed.

Lemma hours_us_fraction_bounds q :
  (0 <= rhe (round_value (3600000000 * (q - inject_Z (Qfloor q)))) <= 3600000000)%Z.
Proof.
  pose proof (floor_bounds q) as [F1 F2]. split.
  - apply Z.le_trans with (rhe (inject_Z 0)); [by rewrite rhe_Z|].
    apply rhe_mono. change (inject_Z 0) with 0. apply round_value_nonneg. lra.
  - apply Z.le_trans with (rhe (inject_Z 3600000000)); [|by rewrite rhe_Z].
    apply rhe_mono. change (inject_Z 3600000000) with 3600000000.
    pose proof round_value_us_per_hour as E.
    pose proof (round_value_mono (3600000000 * (q - inject_Z (Qfloor q)))
                  3600000000 ltac:(lra)) as M.
    lra.
Qed.

Lemma hours_us_mono q1 q2 : q1 <= q2 -> (hours_us q1 <= hours_us q2)%Z.
Proof.
  intros Hle. unfold hours_us.
  pose proof (Qfloor_resp_le _ _ Hle) as Hf.
  pose proof (hours_us_fraction_bounds q1) as [A1 A2].
  pose proof (hours_us_fraction_bounds q2) as [B1 B2].
  destruct (Z.eq_dec (Qfloor q1) (Qfloor q2)) as [E|NE].
  - rewrite E. apply Z.add_le_mono_l. apply rhe_mono, round_value_mono. lra.
  - unfold us_per_hour. nia.
Qed.

End Duration.

(** ** The range calculator: lookbacks compared *)

Section Lookback.
Local Open Scope Q_scope.

Lemma microseconds_to_delta_inv us td :
  microseconds_to_delta us = Ok td -> td = us.
Proof.
  unfold microseconds_to_delta. cbv zeta.
  destruct (negb _); [discriminate|]. destruct (_ && _); [|discriminate].
  by intros [= ->].
Qed.

Lemma timedelta_hours_value h hq td :
  num_value h = Some hq -> 0 <= hq ->
  timedelta_hours h = Ok td -> td = hours_us hq.
Proof.
  intros Hv Hq. unfold timedelta_hours.
  rewrite (hours_to_us_value h hq Hv Hq). cbn [mbind result_bind Py.bind].
  apply microseconds_to_delta_inv.
Qed.

Lemma hours_us_0 q : q == 0 -> hours_us q = 0%Z.
Proof.
  intros E. unfold hours_us.
  assert (Qfloor q = 0%Z) as ->.
  { apply Qfloor_unique; change (inject_Z 0) with 0; lra. }
  rewrite (rhe_proper _ (inject_Z 0)); [by rewrite rhe_Z|].
  apply round_value_0. change (inject_Z 0) with 0. lra.
Qed.

Lemma num_ltb0_value h hq :
  num_value h = Some hq -> 0 <= hq -> num_ltb0 h = false.
Proof.
  intros Hv Hq.
  destruct h as [z|[| |q]]; simpl in Hv |- *; try discriminate;
    injection Hv as <-.
  - change 0 with (inject_Z 0) in Hq. rewrite <- Zle_Qle in Hq.
    by apply Z.ltb_ge.
  - apply Qle_bool_iff in Hq. by rewrite Hq.
Qed.

(** X9. A lookback of zero hours gives an empty window: the start is the
    end, both the conversion of the one clock reading. *)
Theorem calculate_range_zero clock hours_ago n hq :
  datetime_valid (clock n) ->
  num_value hours_ago = Some hq ->
  hq == 0 ->
  exists ns,
    _to_unix_ns (clock n) = Ok ns
    /\ calculate_range clock hours_ago n = (Ok (ns, ns), S n).
Proof.
  intros Hnow Hv Hq.
  destruct (to_unix_ns_error (clock n) Hnow) as (ns & Hns & _).
  exists ns. split; [done|].
  unfold calculate_range.
  rewrite (num_ltb0_value hours_ago hq Hv) by lra.
  unfold mbind, M_bind, mbindM, datetime_now, lift, timedelta_hours.
  rewrite (hours_to_us_value hours_ago hq Hv) by lra.
  rewrite (hours_us_0 hq Hq). cbn [mbind result_bind Py.bind].
  rewrite (microseconds_to_delta_ok 0) by (vm_compute; split; congruence).
  cbn [mbind result_bind Py.bind].
  rewrite datetime_sub_ok by (rewrite Z.sub_0_r; exact Hnow).
  rewrite Z.sub_0_r, Hns. reflexivity.
Qed.

(** X10. With one clock reading, a longer lookback never starts later:
    for two finite lookbacks [0 <= h1 <= h2] that stay within the dates of
    the type, the two windows end at the same instant and the start of
    the longer one is not after the start of the shorter one. *)
Theorem calculate_range_monotone clock h1 h2 n q1 q2 :
  datetime_valid (clock n) ->
  num_value h1 = Some q1 ->
  num_value h2 = Some q2 ->
  0 <= q1 -> q1 <= q2 ->
  q2 * 3600000000 <= inject_Z (clock n - MIN_US) - 1 ->
  exists s1 s2 e,
    calculate_range clock h1 n = (Ok (s1, e), S n)
    /\ calculate_range clock h2 n = (Ok (s2, e), S n)
    /\ (s2 <= s1 <= e)%Z.
Proof.
  intros Hnow Hv1 Hv2 H0 Hle Hrep.
  destruct (calculate_range_steps clock h1 n q1 Hnow Hv1 H0 ltac:(lra))
    as (td1 & s1 & e1 & R1 & D1 & S1 & E1 & L1 & _ & V1 & _).
  destruct (calculate_range_steps clock h2 n q2 Hnow Hv2 ltac:(lra) Hrep)
    as (td2 & s2 & e2 & R2 & D2 & S2 & E2 & L2 & _ & V2 & _).
  assert (e2 = e1) as -> by congruence.
  exists s1, s2, e1. repeat split; try done.
  eapply to_unix_ns_mono; [exact V2 | exact V1 | | exact S2 | exact S1].
  rewrite (timedelta_hours_value h1 q1 td1 Hv1 H0 D1).
  rewrite (timedelta_hours_value h2 q2 td2 Hv2 ltac:(lra) D2).
  pose proof (hours_us_mono q1 q2 Hle). lia.
Qed.

Lemma raises_only_raise {A} (c : exc_class) msg classes :
  c ∈ classes -> raises_only (A := A) classes (raise c msg).
Proof. done. Qed.

Lemma hours_to_us_raises h :
  raises_only [ValueError; OverflowError] (hours_to_us h).
Proof.
  unfold hours_to_us. destruct h as [z|[| |q]].
  - done.
  - apply raises_only_raise. set_solver.
  - apply raises_only_raise. set_solver.
  - cbv zeta. destruct (Qeq_bool _ _); [done|].
    rewrite float_of_int_us_per_hour. cbn [fmul].
    destruct (round64 _).
    + apply raises_only_raise. set_solver.
    + apply raises_only_raise. set_solver.
    + by destruct (Qeq_bool _ _).
Qed.

Lemma timedelta_hours_raises h :
  raises_only [ValueError; OverflowError] (timedelta_hours h).
Proof.
  unfold timedelta_hours. pose proof (hours_to_us_raises h) as Hh.
  destruct (hours_to_us h) as [us|e]; [|done].
  cbn [mbind result_bind Py.bind]. unfold microseconds_to_delta. cbv zeta.
  destruct (negb _); [apply raises_only_raise; set_solver|].
  destruct (_ && _); [done|]. apply raises_only_raise. set_solver.
Qed.

Lemma datetime_sub_cases dt td :
  (datetime_valid (dt - td) /\ datetime_sub dt td = Ok (dt - td)%Z)
  \/ datetime_sub dt td = raise OverflowError "date value out of range".
Proof.
  unfold datetime_sub, datetime_valid. cbv zeta.
  destruct (MIN_US <=? dt - td)%Z eqn:E1; [|by right].
  destruct (dt - td <=? MAX_US)%Z eqn:E2; [|by right].
  left. apply Z.leb_le in E1, E2. done.
Qed.

(** X11. Whatever number is passed (negative, not finite, huge), and at
    any reading of the clock that is a date of the type, [calculate_range]
    returns a pair or raises [ValueError] or [OverflowError] and nothing
    else; the clock is read once, and not at all when the number is
    negative. *)
Theorem calculate_range_raises clock hours_ago n :
  datetime_valid (clock n) ->
  raises_only [ValueError; OverflowError] (calculate_range clock hours_ago n).1
  /\ (calculate_range clock hours_ago n).2
     = if num_ltb0 hours_ago then n else S n.
Proof.
  intros Hnow. unfold calculate_range.
  destruct (num_ltb0 hours_ago).
  { split; [apply raises_only_raise; set_solver | done]. }
  unfold mbind, M_bind, mbindM, datetime_now, lift.
  pose proof (timedelta_hours_raises hours_ago) as Htd.
  destruct (timedelta_hours hours_ago) as [td|e]; [|by split].
  cbn [result_bind Py.bind].
  destruct (datetime_sub_cases (clock n) td) as [[V ->]| ->];
    [|split; [apply raises_only_raise; set_solver | done]].
  destruct (to_unix_ns_error _ V) as (s & -> & _).
  destruct (to_unix_ns_error _ Hnow) as (e & -> & _).
  by split.
Qed.

End Lookback.

Lemma calculate_range_zero_witness :
  exists ns,
    _to_unix_ns Sample.now_2026 = Ok ns
    /\ calculate_range (fun _ => Sample.now_2026) (PyFloat (FFin 0)) 0%nat
       = (Ok (ns, ns), 1%nat).
Proof.
  apply (calculate_range_zero (fun _ => Sample.now_2026) (PyFloat (FFin 0)) 0%nat 0).
  - split; vm_compute; congruence.
  - reflexivity.
  - reflexivity.
Defined.

Lemma calculate_range_monotone_witness :
  exists s1 s2 e,
    calculate_range (fun _ => Sample.now_2026) (PyFloat (FFin (1 # 2))) 0%nat
    = (Ok (s1, e), 1%nat)
    /\ calculate_range (fun _ => Sample.now_2026) (PyInt 72) 0%nat
       = (Ok (s2, e), 1%nat)
    /\ s2 <= s1 <= e.
Proof.
  apply (calculate_range_monotone (fun _ => Sample.now_2026)
           (PyFloat (FFin (1 # 2))) (PyInt 72) 0%nat (1 # 2) 72).
  - split; vm_compute; congruence.
  - reflexivity.
  - reflexivity.
  - vm_compute; congruence.
  - vm_compute; congruence.
  - vm_compute; congruence.
Defined.

Lemma calculate_range_raises_witness :
  raises_only [ValueError; OverflowError]
    (calculate_range (fun _ => Sample.now_2026) (PyFloat FNan) 0%nat).1
  /\ (calculate_range (fun _ => Sample.now_2026) (PyFloat FNan) 0%nat).2 = 1%nat.
Proof.
  apply (calculate_range_raises (fun _ => Sample.now_2026) (PyFloat FNan) 0%nat).
  split; vm_compute; congruence.
Defined.

(** ** The conversion to nanoseconds *)

Section Conversion.
Local Open Scope Q_scope.

(** X12. On every date of the type [_to_unix_ns] returns, within 31644 ns
    of the exact count of nanoseconds; within 249 ns for the dates whose
    seconds fit 32 bits (1901 to 2038). *)
Theorem to_unix_ns_accuracy dt :
  datetime_valid dt ->
  exists ns,
    _to_unix_ns dt = Ok ns
    /\ Qabs (inject_Z ns - inject_Z dt * 1000) <= 31644
    /\ ((- 2147483648000000 < dt < 2147483648000000)%Z ->
        Qabs (inject_Z ns - inject_Z dt * 1000) <= 249).
Proof.
  intros Hdt. destruct (to_unix_ns_error dt Hdt) as (ns & Hns & E).
  exists ns. split; [exact Hns|]. split; [exact E|].
  intros Hnear. destruct (to_unix_ns_error_near dt Hnear) as (ns' & Hns' & E').
  rewrite Hns in Hns'. injection Hns' as <-. exact E'.
Qed.

(** X13. [_to_unix_ns] keeps the order of dates and sends the epoch to
    zero, so that a date after the epoch is never given a negative count. *)
Theorem to_unix_ns_monotone dt1 dt2 :
  datetime_valid dt1 -> datetime_valid dt2 -> (dt1 <= dt2)%Z ->
  exists ns1 ns2,
    _to_unix_ns dt1 = Ok ns1
    /\ _to_unix_ns dt2 = Ok ns2
    /\ (ns1 <= ns2)%Z
    /\ (dt1 = 0%Z -> ns1 = 0%Z)
    /\ ((0 <= dt1)%Z -> (0 <= ns1)%Z).
Proof.
  intros H1 H2 Hle.
  destruct (to_unix_ns_error dt1 H1) as (ns1 & E1 & _).
  destruct (to_unix_ns_error dt2 H2) as (ns2 & E2 & _).
  assert (_to_unix_ns 0 = Ok 0%Z) as E0 by (vm_compute; reflexivity).
  assert (datetime_valid 0) as H0 by (split; vm_compute; congruence).
  exists ns1, ns2.
  split; [exact E1|]. split; [exact E2|]. split; [|split].
  - exact (to_unix_ns_mono dt1 dt2 ns1 ns2 H1 H2 Hle E1 E2).
  - intros ->. rewrite E0 in E1. by injection E1.
  - intros Hpos. exact (to_unix_ns_mono 0 dt1 0 ns1 H0 H1 Hpos E0 E1).
Qed.

End Conversion.

Lemma to_unix_ns_accuracy_witness :
  exists ns,
    _to_unix_ns Sample.now_2026 = Ok ns
    /\ (Qabs (inject_Z ns - inject_Z Sample.now_2026 * 1000) <= 31644)%Q
    /\ (- 2147483648000000 < Sample.now_2026 < 2147483648000000 ->
        (Qabs (inject_Z ns - inject_Z Sample.now_2026 * 1000) <= 249)%Q).
Proof.
  apply (to_unix_ns_accuracy Sample.now_2026).
  split; vm_compute; congruence.
Defined.

Lemma to_unix_ns_monotone_witness :
  exists ns1 ns2,
    _to_unix_ns 0 = Ok ns1
    /\ _to_unix_ns Sample.now_2026 = Ok ns2
    /\ ns1 <= ns2
    /\ (0 = 0 -> ns1 = 0)
    /\ (0 <= 0 -> 0 <= ns1).
Proof.
  apply (to_unix_ns_monotone 0 Sample.now_2026).
  - split; vm_compute; congruence.
  - split; vm_compute; congruence.
  - vm_compute; congruence.
Defined.

(** ** The range-query client: order of the steps *)

Section QuerySteps.
Context `{Library}.

Lemma calculate_range_clock hours_ago n :
  (calculate_range clock hours_ago n).2
  = if num_ltb0 hours_ago then n else S n.
Proof.
  unfold calculate_range. destruct (num_ltb0 hours_ago); [done|].
  unfold mbind, M_bind, mbindM, datetime_now, lift.
  destruct (timedelta_hours hours_ago) as [td|e];
    cbn [mbind result_bind Py.bind]; [|done].
  destruct (datetime_sub (clock n) td) as [start|e]; [|done].
  destruct (_to_unix_ns start); [|done]. by destruct (_to_unix_ns (clock n)).
Qed.

Lemma query_range_unfold self query hours_ago step limit direction n :
  query_range self query hours_ago step limit direction n
  = match calculate_range clock hours_ago n with
    | (Ok range, n') =>
        (auth_headers ← headers (auth self);
         payload ← fetch (build_request self query range.1 range.2 step limit
                            direction auth_headers) (timeout self);
         data ← json_loads payload;
         _parse_streams data, n')
    | (Raise e, n') => (Raise e, n')
    end.
Proof.
  unfold query_range, mbind, M_bind, mbindM, lift.
  destruct (calculate_range clock hours_ago n) as [[range|e] n']; [|reflexivity].
  destruct (headers (auth self)) as [h|e]; cbn [result_bind Py.bind];
    [|reflexivity].
  destruct (fetch _ _) as [payload|e]; cbn [result_bind Py.bind];
    [|reflexivity].
  destruct (json_loads payload); reflexivity.
Qed.

Lemma retrieve_logs_unfold run_name lookback_hours n :
  retrieve_logs_for_run run_name lookback_hours n
  = match query_range agent_client (log_query run_name) (PyInt lookback_hours)
            (PyFloat (FFin 60)) (Some 5000) "FORWARD" n with
    | (Ok raw, n') =>
        (records ← normalize_all raw;
         sort_values "timestamp" true (DataFrame records), n')
    | (Raise e, n') => (Raise e, n')
    end.
Proof.
  unfold retrieve_logs_for_run.
  change (LokiClient_init "http://loki:3100" None (PyFloat (FFin 10)))
    with (Ok agent_client).
  unfold mbind, M_bind, mbindM, lift.
  destruct (query_range _ _ _ _ _ _ n) as [[raw|e] n']; [|reflexivity].
  destruct (normalize_all raw); reflexivity.
Qed.

(** X14. One call reads the clock once: [query_range], and
    [retrieve_logs_for_run] with it, take exactly one reading whatever
    happens afterwards (bad credentials, a failed request, a body that
    cannot be decoded or flattened), and none when the lookback is
    negative. *)
Theorem query_range_clock self query hours_ago step limit direction
    run_name lookback_hours n :
  (query_range self query hours_ago step limit direction n).2
  = (if num_ltb0 hours_ago then n else S n)
  /\ (retrieve_logs_for_run run_name lookback_hours n).2
     = (if lookback_hours <? 0 then n else S n).
Proof.
  assert (forall self query hours_ago step limit direction,
            (query_range self query hours_ago step limit direction n).2
            = if num_ltb0 hours_ago then n else S n) as Q.
  { clear. intros self query hours_ago step limit direction.
    rewrite query_range_unfold.
    pose proof (calculate_range_clock hours_ago n) as C.
    by destruct (calculate_range clock hours_ago n) as [[range|e] n']. }
  split; [apply Q|].
  rewrite retrieve_logs_unfold.
  specialize (Q agent_client (log_query run_name) (PyInt lookback_hours)
                (PyFloat (FFin 60)) (Some 5000) "FORWARD").
  by destruct (query_range _ _ _ _ _ _ n) as [[raw|e] n'].
Qed.

(** X15. A negative lookback stops [retrieve_logs_for_run] at once: the
    [ValueError] of the range calculator comes out unchanged, whatever
    the transport would answer, and the clock is not read. *)
Theorem retrieve_logs_negative_lookback run_name lookback_hours n :
  lookback_hours < 0 ->
  retrieve_logs_for_run run_name lookback_hours n
  = (raise ValueError "hours_ago must be non-negative", n).
Proof.
  intros Hneg. rewrite retrieve_logs_unfold, query_range_unfold.
  unfold calculate_range. cbn [num_ltb0].
  apply Z.ltb_lt in Hneg. by rewrite Hneg.
Qed.

(** X16. Credentials with both fields set are detected by the query, not
    before: once the range is computed, [query_range] raises the
    [ValueError] of [headers], and nothing is sent (the result does not
    depend on the transport). *)
Theorem query_range_credential_conflict self query hours_ago step limit
    direction n range n' :
  calculate_range clock hours_ago n = (Ok range, n') ->
  truthy_tuple (basic_auth (auth self)) = true ->
  truthy_str (bearer_token (auth self)) = true ->
  query_range self query hours_ago step limit direction n
  = (raise ValueError "Use either basic_auth or bearer_token, not both.", n').
Proof.
  intros Hrange Hb Ht. rewrite query_range_unfold, Hrange.
  unfold headers. by rewrite Hb, Ht.
Qed.

(** X17. The body of a successful response goes through [json.loads] and
    the flattener and nothing else.  When it decodes to a response in the
    shape of the wire contract, [query_range] returns one record per
    value pair, stream after stream and pair after pair, each with the
    labels of its stream; when [json.loads] raises, its exception comes
    out as it is. *)
Theorem query_range_response self query hours_ago step limit direction n
    range n' h body :
  calculate_range clock hours_ago n = (Ok range, n') ->
  headers (auth self) = Ok h ->
  urlopen (build_request self query range.1 range.2 step limit direction h)
    (timeout self) = Response body ->
  (forall streams,
      json_loads body = Ok (wire_response streams) ->
      query_range self query hours_ago step limit direction n
      = (Ok (flat_map (fun s => map (fun v => FlatRecord v.1 s.1 v.2) s.2)
               streams), n'))
  /\ (forall e,
      json_loads body = Raise e ->
      query_range self query hours_ago step limit direction n = (Raise e, n')).
Proof.
  intros Hrange Hh Hopen.
  split; [intros streams Hloads | intros e Hloads];
    rewrite query_range_unfold, Hrange, Hh;
    cbn [mbind result_bind Py.bind]; unfold fetch; rewrite Hopen;
    cbn [mbind result_bind Py.bind]; rewrite Hloads;
    cbn [mbind result_bind Py.bind]; [|done].
  by rewrite parse_streams_wire.
Qed.

End QuerySteps.

Lemma retrieve_logs_negative_lookback_witness :
  retrieve_logs_for_run
    (H := Sample.library false Sample.now_2026 (Response Sample.body_two_streams))
    "run1" (-1) 0%nat
  = (raise ValueError "hours_ago must be non-negative", 0%nat).
Proof.
  apply (retrieve_logs_negative_lookback
           (H := Sample.library false Sample.now_2026
                   (Response Sample.body_two_streams))).
  lia.
Defined.

Lemma query_range_credential_conflict_witness :
  query_range
    (H := Sample.library false Sample.now_2026 (Response Sample.body_two_streams))
    (mkLokiClient "http://loki:3100"
       (mkLokiAuth (Some ["user"; "secret"]) (Some "token")) (PyFloat (FFin 10)))
    "{}" (PyInt 72) (PyFloat (FFin 60)) None "BACKWARD" 0%nat
  = (raise ValueError "Use either basic_auth or bearer_token, not both.", 1%nat).
Proof.
  apply (query_range_credential_conflict
           (H := Sample.library false Sample.now_2026
                   (Response Sample.body_two_streams))
           _ _ _ _ _ _ _ (1793491200123457024, 1793750400123457024)).
  - vm_compute. reflexivity.
  - reflexivity.
  - reflexivity.
Defined.

Lemma query_range_response_witness :
  let L := Sample.library false Sample.now_2026 (Response Sample.body_two_streams) in
  (forall streams,
      json_loads (Library := L) Sample.body_two_streams = Ok (wire_response streams) ->
      query_range (H := L) agent_client "{}" (PyInt 72) (PyFloat (FFin 60)) None
        "BACKWARD" 0%nat
      = (Ok (flat_map (fun s => map (fun v => FlatRecord v.1 s.1 v.2) s.2)
               streams), 1%nat))
  /\ (forall e,
      json_loads (Library := L) Sample.body_two_streams = Raise e ->
      query_range (H := L) agent_client "{}" (PyInt 72) (PyFloat (FFin 60)) None
        "BACKWARD" 0%nat = (Raise e, 1%nat)).
Proof.
  intros L.
  apply (query_range_response (H := L) agent_client "{}" (PyInt 72)
           (PyFloat (FFin 60)) None "BACKWARD" 0%nat
           (1793491200123457024, 1793750400123457024) 1%nat ∅
           Sample.body_two_streams).
  - vm_compute. reflexivity.
  - reflexivity.
  - reflexivity.
Defined.

(** ** The consumer: the merge loop *)

Section MergeLoop.
Context `{Library}.

Lemma normalize_loop_ok raw rows acc :
  Forall2 (fun record r => normalize_record record = Ok r) raw rows ->
  for_each (fun records record =>
      r ← normalize_record record; Ok (records ++ [r])) raw acc
  = Ok (acc ++ rows).
Proof.
  intros HF. revert acc. induction HF as [|record r raw rows Hr _ IH]; intros acc.
  - by rewrite app_nil_r.
  - cbn [for_each]. rewrite Hr. cbn [mbind result_bind Py.bind].
    rewrite IH. by rewrite <- app_assoc.
Qed.

Lemma normalize_loop_inv raw acc out :
  for_each (fun records record =>
      r ← normalize_record record; Ok (records ++ [r])) raw acc = Ok out ->
  exists rows,
    out = acc ++ rows
    /\ Forall2 (fun record r => normalize_record record = Ok r) raw rows.
Proof.
  revert acc. induction raw as [|record raw IH]; intros acc.
  - intros [= <-]. exists []. by rewrite app_nil_r.
  - cbn [for_each].
    destruct (normalize_record record) as [r|e] eqn:Hr; [|discriminate].
    cbn [mbind result_bind Py.bind]. intros Hloop.
    destruct (IH _ Hloop) as (rows & -> & HF).
    exists (r :: rows). split; [by rewrite <- app_assoc | by constructor].
Qed.

Lemma normalize_loop_fail pre bad post e acc :
  Forall (fun record => is_ok (normalize_record record) = true) pre ->
  normalize_record bad = Raise e ->
  for_each (fun records record =>
      r ← normalize_record record; Ok (records ++ [r])) (pre ++ bad :: post) acc
  = Raise e.
Proof.
  intros Hpre Hbad. revert acc.
  induction Hpre as [|record pre Hr _ IH]; intros acc.
  - cbn [app for_each]. by rewrite Hbad.
  - cbn [app for_each].
    destruct (normalize_record record) as [r|e']; [|discriminate].
    cbn [mbind result_bind Py.bind]. apply IH.
Qed.

(** X18. The merge loop yields one row per raw record, in the order of
    the raw records, each row being the merge of its record; it returns
    exactly when every record can be merged. *)
Theorem normalize_all_rows raw rows :
  normalize_all raw = Ok rows
  <-> Forall2 (fun record r => normalize_record record = Ok r) raw rows.
Proof.
  unfold normalize_all. split.
  - intros Hall. destruct (normalize_loop_inv _ _ _ Hall) as (rows' & -> & HF).
    done.
  - intros HF. by rewrite (normalize_loop_ok raw rows).
Qed.

(** X19. One record that cannot be merged fails the whole retrieval: the
    exception of the first such record comes out of
    [retrieve_logs_for_run], and the records merged before it are lost. *)
Theorem retrieve_logs_bad_record run_name lookback_hours n n' pre bad post e :
  query_range agent_client (log_query run_name) (PyInt lookback_hours)
    (PyFloat (FFin 60)) (Some 5000) "FORWARD" n
  = (Ok (pre ++ bad :: post), n') ->
  Forall (fun record => is_ok (normalize_record record) = true) pre ->
  normalize_record bad = Raise e ->
  retrieve_logs_for_run run_name lookback_hours n = (Raise e, n').
Proof.
  intros Hquery Hpre Hbad. rewrite retrieve_logs_unfold, Hquery.
  unfold normalize_all. by rewrite (normalize_loop_fail pre bad post e).
Qed.

(** X20. When the query returns no record at all, the frame has no
    column: [retrieve_logs_for_run] does not return an empty result, it
    raises [KeyError] for the column [timestamp]. *)
Theorem retrieve_logs_no_records run_name lookback_hours n n' :
  query_range agent_client (log_query run_name) (PyInt lookback_hours)
    (PyFloat (FFin 60)) (Some 5000) "FORWARD" n = (Ok [], n') ->
  retrieve_logs_for_run run_name lookback_hours n
  = (raise KeyError "timestamp", n').
Proof. intros Hquery. by rewrite retrieve_logs_unfold, Hquery. Qed.

End MergeLoop.

Lemma retrieve_logs_bad_record_witness :
  retrieve_logs_for_run
    (H := Sample.library false Sample.now_2026 (Response body_bad_record))
    "run1" 72 0%nat
  = (raise JSONDecodeError "Expecting value", 1%nat).
Proof.
  apply (retrieve_logs_bad_record
           (H := Sample.library false Sample.now_2026 (Response body_bad_record))
           "run1" 72 0%nat 1%nat
           [FlatRecord (JStr "100") (JObj [("stream", JStr "A")])
              (JStr (Sample.dumps (JObj [("msg", JStr "ok")])))]
           (FlatRecord (JStr "200") (JObj [("stream", JStr "A")])
              (JStr "plain text"))
           []).
  - vm_compute. reflexivity.
  - repeat constructor.
  - vm_compute. reflexivity.
Defined.

Lemma retrieve_logs_no_records_witness :
  retrieve_logs_for_run
    (H := Sample.library false Sample.now_2026 (Response body_no_streams))
    "run1" 72 0%nat
  = (raise KeyError "timestamp", 1%nat).
Proof.
  apply (retrieve_logs_no_records
           (H := Sample.library false Sample.now_2026 (Response body_no_streams))).
  vm_compute. reflexivity.
Defined.

(** ** The stream flattener: failures *)

Section FlattenerFailures.

Lemma py_iter_raise j e :
  py_iter j = Raise e ->
  e = Exc TypeError ("'" +:+ py_type_name j +:+ "' object is not iterable") None.
Proof. destruct j; simpl; intros [= <-]; reflexivity. Qed.

Lemma outer_loop_raise streams acc e :
  for_each (fun result stream =>
      let labels := labels_of stream in
      let values := values_of stream in
      value_list ← py_iter values;
      for_each (fun result entry =>
          match as_pair entry with
          | None => Ok result
          | Some (timestamp, record) =>
              Ok (result ++ [FlatRecord timestamp labels record])
          end) value_list result) streams acc = Raise e ->
  exists stream, stream ∈ streams /\ py_iter (values_of stream) = Raise e.
Proof.
  revert acc. induction streams as [|s streams IH]; intros acc; [discriminate|].
  cbn [for_each]. cbv zeta.
  destruct (py_iter (values_of s)) as [vs|e'] eqn:E.
  - cbn [mbind result_bind Py.bind]. rewrite inner_loop.
    cbn [mbind result_bind Py.bind]. intros Hloop.
    destruct (IH _ Hloop) as (stream & Hin & Hs).
    exists stream. split; [by right | done].
  - cbn [mbind result_bind Py.bind]. intros [= <-].
    exists s. split; [by left | done].
Qed.

(** X21. The flattener fails in one way only: with the [TypeError] of a
    [for] loop over a value that cannot be iterated, which is either what
    stands for [data.result] or the [values] of one of the streams (a
    number, a boolean or [null]).  It returns exactly when the streams
    and the values of every stream can be iterated. *)
Theorem parse_streams_failure data :
  (forall e,
      _parse_streams data = Raise e ->
      exists j,
        e = Exc TypeError ("'" +:+ py_type_name j +:+ "' object is not iterable") None
        /\ is_ok (py_iter j) = false
        /\ (j = streams_of (data_block_of data)
            \/ exists streams stream,
                 py_iter (streams_of (data_block_of data)) = Ok streams
                 /\ stream ∈ streams /\ j = values_of stream))
  /\ (is_ok (_parse_streams data) = true
      <-> exists streams,
            py_iter (streams_of (data_block_of data)) = Ok streams
            /\ Forall (fun s => is_ok (py_iter (values_of s)) = true) streams).
Proof.
  split.
  - intros e. unfold _parse_streams.
    destruct (py_iter (streams_of (data_block_of data))) as [streams|e'] eqn:E.
    + cbn [mbind result_bind Py.bind]. intros Hloop.
      destruct (outer_loop_raise _ _ _ Hloop) as (stream & Hin & Hs).
      exists (values_of stream). split; [by apply py_iter_raise|].
      split; [by rewrite Hs|]. right. by exists streams, stream.
    + cbn [mbind result_bind Py.bind]. intros [= <-].
      exists (streams_of (data_block_of data)).
      split; [by apply py_iter_raise|]. split; [by rewrite E | by left].
  - split.
    + destruct (_parse_streams data) as [out|e] eqn:E; [|discriminate].
      intros _. destruct (parse_streams_Ok_inv _ _ E) as (streams & Hs & Hok & _).
      by exists streams.
    + intros (streams & Hs & Hok).
      by rewrite (parse_streams_flat_map data streams).
Qed.

End FlattenerFailures.

(** ** The consumer: what a merged record holds *)

Section MergedRecord.
Context `{Library}.

(** X22. The fields of a merged record: every field of the decoded
    payload, with the payload's value; then [timestamp] and [stream], from
    the raw record, unless the payload has a field of that name, which
    then wins; and nothing else, the other labels of the stream being
    dropped. *)
Theorem normalize_record_merge record fields ts stream :
  json_loads (py_str (fr_record record)) = Ok (JObj fields) ->
  (n ← py_int (fr_timestamp record); to_datetime_ns n) = Ok ts ->
  getitem_str (fr_labels record) "stream" = Ok stream ->
  exists r,
    normalize_record record = Ok r
    /\ forall k,
         r !! k = match assoc k fields with
                  | Some v => Some (CJson v)
                  | None =>
                      if String.eqb k "timestamp" then Some ts
                      else if String.eqb k "stream" then Some (CJson stream)
                      else None
                  end.
Proof.
  intros Hloads Hts Hstream. unfold normalize_record.
  rewrite Hloads. cbn [mbind result_bind Py.bind].
  destruct (py_int (fr_timestamp record)) as [n|e]; [|discriminate].
  cbn [mbind result_bind Py.bind] in Hts |- *. rewrite Hts.
  cbn [mbind result_bind Py.bind]. rewrite Hstream.
  cbn [mbind result_bind Py.bind].
  eexists. split; [reflexivity|]. intros k.
  rewrite lookup_union, lookup_fmap, list_to_map_assoc.
  destruct (assoc k fields) as [v|]; simpl.
  - by destruct (_ !! k).
  - destruct (String.eqb_spec k "timestamp") as [->|N1].
    + by rewrite lookup_insert_eq.
    + rewrite lookup_insert_ne by done.
      destruct (String.eqb_spec k "stream") as [->|N2].
      * by rewrite lookup_singleton_eq.
      * by rewrite lookup_singleton_ne.
Qed.

End MergedRecord.

Lemma normalize_record_merge_witness :
  exists r,
    normalize_record (H := Sample.library false 0 (Response ""))
      (FlatRecord (JStr "100")
         (JObj [("stream", JStr "stdout"); ("pod", JStr "p1")])
         (JStr (Sample.dumps (JObj [("stream", JStr "payload")])))) = Ok r
    /\ forall k,
         r !! k = match assoc k [("stream", JStr "payload")] with
                  | Some v => Some (CJson v)
                  | None =>
                      if String.eqb k "timestamp" then Some (CTimestamp 100)
                      else if String.eqb k "stream" then Some (CJson (JStr "stdout"))
                      else None
                  end.
Proof.
  apply (normalize_record_merge (H := Sample.library false 0 (Response ""))).
  - vm_compute. reflexivity.
  - vm_compute. reflexivity.
  - reflexivity.
Defined.

(** ** The consumer: reading the timestamp *)

Section TimestampText.

Lemma pretty_N_char_value m :
  (m < 10)%N -> Z.of_N (N_of_ascii (pretty_N_char m)) - 48 = Z.of_N m.
Proof.
  intros Hm.
  assert (m = 0 \/ m = 1 \/ m = 2 \/ m = 3 \/ m = 4 \/ m = 5 \/ m = 6
          \/ m = 7 \/ m = 8 \/ m = 9)%N as Hcases by lia.
  repeat (destruct Hcases as [->|Hcases]; [reflexivity|]). by subst.
Qed.

Lemma parse_digits_pretty_go x s acc b cnt :
  exists k : nat,
    parse_digits (pretty_N_go x s) acc b cnt
    = parse_digits s (acc * 10 ^ Z.of_nat k + Z.of_N x)
        (if decide (x = 0%N) then b else true) (cnt + k)
    /\ (x = 0%N -> k = 0%nat)
    /\ (x <> 0%N -> (1 <= k)%nat /\ 10 ^ (Z.of_nat k - 1) <= Z.of_N x).
Proof.
  revert s acc b cnt. induction (N.lt_wf_0 x) as [x _ IH]; intros s acc b cnt.
  destruct (decide (x = 0%N)) as [->|Hx].
  - exists 0%nat. rewrite pretty_N_go_0, Nat.add_0_r.
    replace (acc * 10 ^ Z.of_nat 0 + Z.of_N 0) with acc by (simpl; lia).
    done.
  - rewrite pretty_N_go_step by lia.
    destruct (IH (x `div` 10)%N ltac:(apply N.div_lt; lia)
                (String (pretty_N_char (x `mod` 10)) s) acc b cnt)
      as (k & -> & Hk0 & Hk1).
    exists (S k). cbn [parse_digits]. rewrite pretty_N_char_digit.
    rewrite pretty_N_char_value by (apply N.mod_lt; lia).
    rewrite Nat2Z.inj_succ, Z.pow_succ_r by lia.
    replace (cnt + S k)%nat with (S (cnt + k)) by lia.
    split; [|split; [done|]].
    + f_equal. set (P := 10 ^ Z.of_nat k).
      rewrite N2Z.inj_div, N2Z.inj_mod. change (Z.of_N 10) with 10.
      pose proof (Z.div_mod (Z.of_N x) 10 ltac:(lia)). lia.
    + intros _. split; [lia|].
      replace (Z.succ (Z.of_nat k) - 1) with (Z.of_nat k) by lia.
      destruct (decide (x `div` 10 = 0)%N) as [E|NE].
      * rewrite (Hk0 E). simpl. lia.
      * destruct (Hk1 NE) as [K1 K2].
        replace (Z.of_nat k) with (Z.succ (Z.of_nat k - 1)) by lia.
        rewrite Z.pow_succ_r by lia.
        rewrite N2Z.inj_div in K2. change (Z.of_N 10) with 10 in K2.
        pose proof (Z.div_mod (Z.of_N x) 10 ltac:(lia)).
        pose proof (Z.mod_pos_bound (Z.of_N x) 10 ltac:(lia)). lia.
Qed.

Lemma parse_digits_pretty (x : N) :
  x <> 0%N -> Z.of_N x < 10 ^ 19 ->
  exists k : nat,
    parse_digits (pretty x) 0 false 0 = Some (Z.of_N x, k) /\ (k <= 19)%nat.
Proof.
  intros Hx Hlt. unfold pretty, pretty_N. rewrite decide_False by done.
  destruct (parse_digits_pretty_go x "" 0 false 0) as (k & -> & _ & Hk).
  rewrite decide_False by done. destruct (Hk Hx) as [K1 K2].
  exists k. split; [cbn [parse_digits]; f_equal; f_equal; lia|].
  assert (10 ^ (Z.of_nat k - 1) < 10 ^ 19) as Hpow by lia.
  apply Z.pow_lt_mono_r_iff in Hpow; lia.
Qed.

Lemma is_digit_not_space c : is_digit c = true -> is_space c = false.
Proof. destruct c as [[] [] [] [] [] [] [] []]; done. Qed.

Lemma lstrip_space_digits s : all_digits s = true -> lstrip_space s = s.
Proof.
  destruct s as [|c s]; [done|]. simpl.
  intros [Hc _]%andb_true_iff. by rewrite (is_digit_not_space c Hc).
Qed.

Lemma rstrip_space_digits s : all_digits s = true -> rstrip_space s = s.
Proof.
  induction s as [|c s IH]; [done|]. simpl.
  intros [Hc Hs]%andb_true_iff. rewrite (IH Hs).
  destruct s; [by rewrite (is_digit_not_space c Hc) | done].
Qed.

Lemma sign_split_digit c rest :
  is_digit c = true ->
  match String c rest with
  | String "-" r => (true, r)
  | String "+" r => (false, r)
  | _ => (false, String c rest)
  end = (false, String c rest).
Proof. destruct c as [[] [] [] [] [] [] [] []]; done. Qed.

Lemma int_of_string_digits s v k :
  all_digits s = true ->
  parse_digits s 0 false 0 = Some (v, k) ->
  (k <= 4300)%nat ->
  int_of_string s = Ok v /\ int_of_string (String "-" s) = Ok (- v).
Proof.
  intros Hs Hparse Hk.
  assert ((4300 <? k)%nat = false) as Hlim by (apply Nat.ltb_ge; lia).
  split.
  - unfold int_of_string.
    rewrite lstrip_space_digits, rstrip_space_digits by done.
    destruct s as [|c rest]; [discriminate Hparse|].
    assert (is_digit c = true) as Hc by (simpl in Hs; by apply andb_prop in Hs as [? _]).
    rewrite (sign_split_digit c rest Hc), Hparse, Hlim. reflexivity.
  - unfold int_of_string.
    change (lstrip_space (String "-" s)) with (String "-"%char s).
    assert (rstrip_space (String "-" s) = String "-"%char s) as ->.
    { simpl. rewrite rstrip_space_digits by done.
      destruct s; [discriminate Hparse | done]. }
    rewrite Hparse, Hlim. reflexivity.
Qed.

(** X23. The timestamp of a raw record is read back from its text: for
    every nanosecond count [z] that a timestamp can hold, the decimal text
    of [z] is converted to [z] by [int] and to the timestamp of [z]
    nanoseconds by [pd.to_datetime]. *)
Theorem timestamp_text_round_trip z :
  - 2 ^ 63 < z < 2 ^ 63 ->
  py_int (JStr (pretty z)) = Ok z
  /\ (n ← py_int (JStr (pretty z)); to_datetime_ns n) = Ok (CTimestamp z).
Proof.
  intros Hz.
  assert (py_int (JStr (pretty z)) = Ok z) as Hint.
  { cbn [py_int]. destruct z as [|p|p].
    - reflexivity.
    - change (pretty (Z.pos p)) with (pretty (N.pos p)).
      destruct (parse_digits_pretty (N.pos p)) as (k & Hp & Hk); [done|simpl; lia|].
      apply (int_of_string_digits _ _ k); [apply pretty_N_digits | exact Hp | lia].
    - change (pretty (Z.neg p)) with (String "-"%char (pretty (N.pos p))).
      destruct (parse_digits_pretty (N.pos p)) as (k & Hp & Hk); [done|simpl; lia|].
      change (Z.neg p) with (- Z.of_N (N.pos p)).
      apply (int_of_string_digits _ _ k); [apply pretty_N_digits | exact Hp | lia]. }
  split; [exact Hint|]. rewrite Hint. cbn [mbind result_bind Py.bind].
  unfold to_datetime_ns.
  assert ((- 2 ^ 63 <? z) && (z <? 2 ^ 63) = true) as ->; [|done].
  apply andb_true_intro. split; apply Z.ltb_lt; lia.
Qed.

End TimestampText.

Lemma timestamp_text_round_trip_witness :
  py_int (JStr (pretty 1700000000000000000)) = Ok 1700000000000000000
  /\ (n ← py_int (JStr (pretty 1700000000000000000)); to_datetime_ns n)
     = Ok (CTimestamp 1700000000000000000).
Proof. apply (timestamp_text_round_trip 1700000000000000000). lia. Defined.

(** ** Credentials: the basic header *)

Section BasicHeader.

Lemma below_64 (i : N) : (i < 64)%N -> In i (map N.of_nat (seq 0 64)).
Proof.
  intros Hi. apply in_map_iff. exists (N.to_nat i).
  split; [apply N2Nat.id|]. apply in_seq. lia.
Qed.

Lemma b64_char_index (i : N) :
  (i < 64)%N -> index_of (b64_char i) b64_alphabet = i.
Proof.
  intros Hi.
  assert (forallb (fun i => N.eqb (index_of (b64_char i) b64_alphabet) i)
            (map N.of_nat (seq 0 64)) = true) as Hall by (vm_compute; reflexivity).
  rewrite forallb_forall in Hall. apply N.eqb_eq, Hall, below_64, Hi.
Qed.

Lemma b64_char_inj (i j : N) :
  (i < 64)%N -> (j < 64)%N -> b64_char i = b64_char j -> i = j.
Proof.
  intros Hi Hj E. rewrite <- (b64_char_index i Hi), <- (b64_char_index j Hj).
  by rewrite E.
Qed.

Lemma b64_char_not_pad (i : N) : (i < 64)%N -> b64_char i <> "="%char.
Proof.
  intros Hi.
  assert (forallb (fun i => negb (Ascii.eqb (b64_char i) "="))
            (map N.of_nat (seq 0 64)) = true) as Hall by (vm_compute; reflexivity).
  rewrite forallb_forall in Hall. specialize (Hall i (below_64 i Hi)).
  intros E. rewrite E in Hall. discriminate.
Qed.

Lemma N_of_ascii_inj a b : N_of_ascii a = N_of_ascii b -> a = b.
Proof.
  intros E. rewrite <- (ascii_N_embedding a), <- (ascii_N_embedding b).
  by rewrite E.
Qed.

Lemma b64encode_inj_length n s1 s2 :
  (String.length s1 < n)%nat -> b64encode s1 = b64encode s2 -> s1 = s2.
Proof.
  revert s1 s2. induction n as [|n IH]; intros s1 s2 Hlen E; [lia|].
  destruct s1 as [|a [|b [|c r1]]], s2 as [|a' [|b' [|c' r2]]];
    cbn [b64encode] in E; try discriminate E; try reflexivity.
  - byte_parts a. byte_parts a'.
    injection E as E1 E2.
    apply b64_char_inj in E1; [|lia..]. apply b64_char_inj in E2; [|lia..].
    f_equal. apply N_of_ascii_inj. lia.
  - byte_parts b'.
    injection E as _ _ E3. symmetry in E3.
    apply b64_char_not_pad in E3; [done | lia].
  - byte_parts b'. byte_parts c'.
    injection E as _ _ E3 _. symmetry in E3.
    apply b64_char_not_pad in E3; [done | lia].
  - byte_parts b.
    injection E as _ _ E3.
    apply b64_char_not_pad in E3; [done | lia].
  - byte_parts a. byte_parts a'. byte_parts b. byte_parts b'.
    injection E as E1 E2 E3.
    apply b64_char_inj in E1; [|lia..]. apply b64_char_inj in E2; [|lia..].
    apply b64_char_inj in E3; [|lia..].
    f_equal; [|f_equal]; apply N_of_ascii_inj; lia.
  - byte_parts c'.
    injection E as _ _ _ E4 _. symmetry in E4.
    apply b64_char_not_pad in E4; [done | lia].
  - byte_parts b. byte_parts c.
    injection E as _ _ E3 _.
    apply b64_char_not_pad in E3; [done | lia].
  - byte_parts c.
    injection E as _ _ _ E4 _.
    apply b64_char_not_pad in E4; [done | lia].
  - byte_parts a. byte_parts a'. byte_parts b. byte_parts b'.
    byte_parts c. byte_parts c'.
    injection E as E1 E2 E3 E4 E5.
    apply b64_char_inj in E1; [|lia..]. apply b64_char_inj in E2; [|lia..].
    apply b64_char_inj in E3; [|lia..]. apply b64_char_inj in E4; [|lia..].
    apply IH in E5; [|simpl in Hlen; lia]. subst r2.
    f_equal; [|f_equal; [|f_equal]]; apply N_of_ascii_inj; lia.
Qed.

Lemma b64encode_inj s1 s2 : b64encode s1 = b64encode s2 -> s1 = s2.
Proof. apply (b64encode_inj_length (S (String.length s1))). lia. Qed.

Lemma headers_basic_value user password :
  headers (mkLokiAuth (Some [user; password]) None)
  = Ok {[ "Authorization" := "Basic " +:+ b64encode (user +:+ ":" +:+ password) ]}.
Proof. reflexivity. Qed.

(** X24. The basic header says no more and no less than the text
    [user:password]: two pairs of credentials give the same headers
    exactly when that text is the same.  Pairs whose user names hold no
    colon give the same headers only when they are the same pair. *)
Theorem headers_basic_lossless user password user' password' :
  (headers (mkLokiAuth (Some [user; password]) None)
   = headers (mkLokiAuth (Some [user'; password']) None)
   <-> user +:+ ":" +:+ password = user' +:+ ":" +:+ password')
  /\ (count_char ":" user = 0%nat -> count_char ":" user' = 0%nat ->
      headers (mkLokiAuth (Some [user; password]) None)
      = headers (mkLokiAuth (Some [user'; password']) None) ->
      user = user' /\ password = password').
Proof.
  assert (headers (mkLokiAuth (Some [user; password]) None)
          = headers (mkLokiAuth (Some [user'; password']) None)
          -> user +:+ ":" +:+ password = user' +:+ ":" +:+ password') as Hinj.
  { rewrite !headers_basic_value. intros E.
    apply (f_equal (fun r : result (gmap string string) =>
                      match r with
                      | Ok m => m !! "Authorization"
                      | Raise _ => None
                      end)) in E.
    rewrite !lookup_singleton_eq in E.
    assert (forall a b : string, Some a = Some b -> a = b) as Hsome
      by (intros a b H; congruence).
    apply Hsome in E.
    apply (string_app_inv_head "Basic ") in E. by apply b64encode_inj. }
  split; [split; [exact Hinj|]|].
  - intros E. rewrite !headers_basic_value. by rewrite E.
  - intros Hu Hu' E. apply Hinj in E.
    change (user +:+ String ":"%char password
            = user' +:+ String ":"%char password') in E.
    apply (f_equal (split_at ":")) in E.
    rewrite (split_at_app ":" user password Hu),
      (split_at_app ":" user' password' Hu') in E.
    by injection E as -> ->.
Qed.

End BasicHeader.

Lemma build_request_url_inj_witness :
  let L := Sample.library false Sample.now_2026 (Response Sample.body_two_streams) in
  log_query "run1" = log_query "run1"
  /\ 1793491200123457024 = 1793491200123457024
  /\ 1793750400123457024 = 1793750400123457024
  /\ format_g (Library := L) (PyFloat (FFin 60)) = format_g (Library := L) (PyInt 60)
  /\ "FORWARD" = "FORWARD"
  /\ Some 5000 = Some 5000.
Proof.
  intros L.
  apply (build_request_url_inj (H := L) agent_client
           (log_query "run1") 1793491200123457024 1793750400123457024
           (PyFloat (FFin 60)) (Some 5000) "FORWARD" ∅
           (log_query "run1") 1793491200123457024 1793750400123457024
           (PyInt 60) (Some 5000) "FORWARD" ∅).
  vm_compute. reflexivity.
Defined.

Lemma build_request_headers_witness :
  let L := Sample.library false Sample.now_2026 (Response Sample.body_two_streams) in
  let self :=
    mkLokiClient "http://loki:3100" (mkLokiAuth None (Some "token"))
      (PyFloat (FFin 10)) in
  let r :=
    build_request (H := L) self "{}" 0 1 (PyFloat (FFin 60)) None "BACKWARD"
      {[ "Authorization" := "Bearer token" ]} in
  req_headers r !! "Accept" = Some "application/json"
  /\ req_headers r !! "Authorization"
     = ({[ "Authorization" := "Bearer token" ]} : gmap string string)
         !! "Authorization"
  /\ forall k, k <> "Accept" -> k <> "Authorization" -> req_headers r !! k = None.
Proof.
  intros L self.
  apply (build_request_headers (H := L) self "{}" 0 1 (PyFloat (FFin 60)) None
           "BACKWARD" {[ "Authorization" := "Bearer token" ]}).
  reflexivity.
Defined.

(** ** The range calculator: when the window exists *)

Section WindowExists.
Local Open Scope Q_scope.

Lemma hours_us_nonneg q : 0 <= q -> (0 <= hours_us q)%Z.
Proof.
  intros Hq. unfold hours_us.
  pose proof (hours_us_fraction_bounds q) as [A _].
  assert (0 <= Qfloor q)%Z as Hf.
  { change 0%Z with (Qfloor 0). by apply Qfloor_resp_le. }
  unfold us_per_hour. lia.
Qed.

(** X25. For a finite lookback [h >= 0] and a clock reading that is a
    date of the type, the duration subtracted from the reading is the
    closed form [hours_us h] in microseconds, and [calculate_range]
    returns exactly when that many microseconds before the reading is
    still a date of the type; otherwise it raises [OverflowError]. *)
Theorem calculate_range_succeeds_iff clock hours_ago n hq :
  datetime_valid (clock n) ->
  num_value hours_ago = Some hq ->
  0 <= hq ->
  hours_to_us hours_ago = Ok (hours_us hq)
  /\ (is_ok (calculate_range clock hours_ago n).1 = true
      <-> (MIN_US <= clock n - hours_us hq)%Z)
  /\ raises_only [OverflowError] (calculate_range clock hours_ago n).1.
Proof.
  intros Hnow Hv Hq.
  pose proof (hours_to_us_value hours_ago hq Hv Hq) as Hus.
  pose proof (hours_us_nonneg hq Hq) as Hpos.
  split; [exact Hus|].
  unfold calculate_range. rewrite (num_ltb0_value hours_ago hq Hv Hq).
  unfold mbind, M_bind, mbindM, datetime_now, lift, timedelta_hours.
  rewrite Hus. cbn [mbind result_bind Py.bind].
  destruct Hnow as [N1 N2].
  destruct (Z_le_gt_dec MIN_US (clock n - hours_us hq)) as [Hfit|Hout].
  - rewrite microseconds_to_delta_ok by lia.
    cbn [mbind result_bind Py.bind].
    rewrite datetime_sub_ok by lia.
    destruct (to_unix_ns_error (clock n - hours_us hq)) as (s & -> & _);
      [split; lia|].
    destruct (to_unix_ns_error (clock n)) as (e & -> & _); [split; lia|].
    by split.
  - assert (forall r : result Z,
              (r = microseconds_to_delta (hours_us hq)) ->
              let out := (r ≫= datetime_sub (clock n)) in
              is_ok out = false /\ raises_only [OverflowError] out) as Hfail.
    { intros r ->. cbv zeta.
      destruct (microseconds_to_delta (hours_us hq)) as [td|e] eqn:E.
      - apply microseconds_to_delta_inv in E as ->.
        cbn [mbind result_bind Py.bind]. unfold datetime_sub. cbv zeta.
        assert ((MIN_US <=? clock n - hours_us hq)%Z = false) as ->
          by (apply Z.leb_gt; lia).
        split; [done|]. apply raises_only_raise. set_solver.
      - cbn [mbind result_bind Py.bind]. split; [done|].
        unfold microseconds_to_delta in E. cbv zeta in E.
        destruct (negb _); [injection E as <-; cbn; set_solver|].
        destruct (_ && _); [discriminate|]. injection E as <-. cbn. set_solver. }
    specialize (Hfail _ eq_refl). cbv zeta in Hfail.
    unfold mbind in Hfail.
    destruct (result_bind _ _ _ _) as [start|e]; [by destruct Hfail|].
    destruct Hfail as [_ Hraise]. split; [|exact Hraise].
    split; [discriminate | lia].
Qed.

End WindowExists.

Lemma calculate_range_succeeds_iff_witness :
  hours_to_us (PyInt 72) = Ok (hours_us 72)
  /\ (is_ok (calculate_range (fun _ => Sample.now_2026) (PyInt 72) 0%nat).1 = true
      <-> MIN_US <= Sample.now_2026 - hours_us 72)
  /\ raises_only [OverflowError]
       (calculate_range (fun _ => Sample.now_2026) (PyInt 72) 0%nat).1.
Proof.
  apply (calculate_range_succeeds_iff (fun _ => Sample.now_2026) (PyInt 72) 0%nat 72).
  - split; vm_compute; congruence.
  - reflexivity.
  - vm_compute; congruence.
Defined.

(** ** The consumer: a record without the [stream] label *)

Section MissingLabel.
Context `{Library}.

(** X26. The [stream] field is read from the labels before the payload
    is merged: a record whose labels are a dict without the key [stream]
    makes the merge raise [KeyError] for [stream], even when the decoded
    payload has a field of that name, which would have replaced it. *)
Theorem normalize_record_missing_stream record entry ts labels :
  json_loads (py_str (fr_record record)) = Ok entry ->
  (n ← py_int (fr_timestamp record); to_datetime_ns n) = Ok ts ->
  fr_labels record = JObj labels ->
  assoc "stream" labels = None ->
  normalize_record record = raise KeyError "stream".
Proof.
  intros Hloads Hts Hlabels Hnone. unfold normalize_record.
  rewrite Hloads. cbn [mbind result_bind Py.bind].
  destruct (py_int (fr_timestamp record)) as [n|e]; [|discriminate].
  cbn [mbind result_bind Py.bind] in Hts |- *. rewrite Hts.
  cbn [mbind result_bind Py.bind]. rewrite Hlabels.
  cbn [getitem_str]. by rewrite Hnone.
Qed.

End MissingLabel.

Lemma normalize_record_missing_stream_witness :
  normalize_record (H := Sample.library false 0 (Response ""))
    (FlatRecord (JStr "100") (JObj [("pod", JStr "p1")])
       (JStr (Sample.dumps (JObj [("stream", JStr "payload")]))))
  = raise KeyError "stream".
Proof.
  apply (normalize_record_missing_stream
           (H := Sample.library false 0 (Response "")) _
           (JObj [("stream", JStr "payload")]) (CTimestamp 100)
           [("pod", JStr "p1")]).
  - vm_compute. reflexivity.
  - vm_compute. reflexivity.
  - reflexivity.
  - reflexivity.
Defined.
